(** * FORWARDERIFY: the forwarding core of [forward.py]

    A shallow embedding of the message-forwarding pipeline of
    [src/forward.py]: the filter engine [_apply_filters_and_prefix_suffix],
    the per-user event handler [_hot_message_handler], the resolver
    [resolve_target_entity_once] and one pass of [send_worker_loop],
    together with the part of the Python runtime they rely on
    ([str] methods, [re.search]/[re.split], [any], [asyncio.Queue]).

    Conventions.
    - A [str] is the sequence of its code points; the development covers
      code points below 256, one [ascii] per code point, with the
      character classes CPython gives them.
    - Python [int]s are [Z].
    - Dictionaries are [gmap]s; a [for] loop is a recursion over the list
      it iterates; [try]/[except] is an explicit combinator.
    - A coroutine is run in isolation from the others: it either finishes,
      raises, or parks at an [await] that cannot complete on its own.
      Calls of the resolver that overlap are run by an explicit schedule
      of the turns the event loop gives them. *)

From Stdlib Require Import ZArith List String Ascii Bool Lia.
From stdpp Require Import gmap strings list.

Local Open Scope string_scope.
Local Open Scope Z_scope.

(** ** Exceptions and results *)

Inductive exn : Type :=
| TypeError
| KeyError
| AttributeError
| ValueError
| QueueFull
| FloodWaitError (seconds : option Z)
| OtherError.

Inductive result (A : Type) : Type :=
| Ok (a : A)
| Raise (e : exn).
Arguments Ok {A} a.
Arguments Raise {A} e.

Definition rbind {A B} (r : result A) (k : A → result B) : result B :=
  match r with
  | Ok a => k a
  | Raise e => Raise e
  end.

Declare Scope result_scope.
Delimit Scope result_scope with result.
Notation "x <- r ;; k" := (rbind r (fun x => k))
  (at level 100, r at next level, right associativity) : result_scope.

(** [l.append(x)] *)
Definition py_append {A} (l : list A) (x : A) : list A := (l ++ [x])%list.

(** ** Python text primitives *)

Module PyStr.

Definition ord (c : ascii) : N := N_of_ascii c.

Definition between (lo hi : N) (c : ascii) : bool :=
  ((lo <=? ord c) && (ord c <=? hi))%N.

(** [str.isspace] on one code point; also the class [\s] of [re]
    for [str] patterns. *)
Definition isspace (c : ascii) : bool :=
  between 9 13 c || between 28 32 c || (ord c =? 133)%N || (ord c =? 160)%N.

(** The class [\d] of [re] for [str] patterns: decimal digits. *)
Definition isdecimal (c : ascii) : bool := between 48 57 c.

(** The class [[A-Za-z]]. *)
Definition is_ascii_letter (c : ascii) : bool :=
  between 65 90 c || between 97 122 c.

(** [str.isalpha] on one code point. *)
Definition isalpha_char (c : ascii) : bool :=
  is_ascii_letter c || (ord c =? 170)%N || (ord c =? 181)%N
  || (ord c =? 186)%N || between 192 214 c || between 216 246 c
  || between 248 255 c.

(** [str.isdigit] on one code point: decimals and superscript digits. *)
Definition isdigit_char (c : ascii) : bool :=
  isdecimal c || (ord c =? 178)%N || (ord c =? 179)%N || (ord c =? 185)%N.

Fixpoint forallb_str (p : ascii → bool) (s : string) : bool :=
  match s with
  | EmptyString => true
  | String c s' => p c && forallb_str p s'
  end.

Definition nonempty (s : string) : bool :=
  match s with EmptyString => false | String _ _ => true end.

(** [tok.isalpha()], [tok.isdigit()]: false on the empty string. *)
Definition isalpha (s : string) : bool := nonempty s && forallb_str isalpha_char s.
Definition isdigit (s : string) : bool := nonempty s && forallb_str isdigit_char s.

Fixpoint lstrip (s : string) : string :=
  match s with
  | EmptyString => EmptyString
  | String c s' => if isspace c then lstrip s' else s
  end.

Fixpoint rstrip (s : string) : string :=
  match s with
  | EmptyString => EmptyString
  | String c s' =>
      match rstrip s' with
      | EmptyString => if isspace c then EmptyString else String c EmptyString
      | t => String c t
      end
  end.

(** [s.strip()] *)
Definition strip (s : string) : string := rstrip (lstrip s).

(** [re.split(r"\s+", s)]: [cur] is the token being read, [in_sep] says
    that the previous code point belonged to a separator run. *)
Fixpoint split_ws_from (cur : string) (in_sep : bool) (s : string) : list string :=
  match s with
  | EmptyString => [cur]
  | String c s' =>
      if isspace c then
        if in_sep then split_ws_from EmptyString true s'
        else cur :: split_ws_from EmptyString true s'
      else split_ws_from (cur ++ String c EmptyString) false s'
  end.

Definition re_split_ws (s : string) : list string := split_ws_from EmptyString false s.

End PyStr.

(** ** Python objects reaching [any] *)

Module Py.

(** A match object: the position and the code point matched by a
    one-character pattern. *)
Record re_match := Match { m_start : nat; m_char : ascii }.

Inductive obj : Type :=
| PyNone
| PyBool (b : bool)
| PyStr (s : string)
| PyMatch (m : re_match)
| PyList (l : list bool).

Fixpoint search_from (cls : ascii → bool) (i : nat) (s : string) : obj :=
  match s with
  | EmptyString => PyNone
  | String c s' => if cls c then PyMatch (Match i c) else search_from cls (S i) s'
  end.

(** [re.search(p, s)] for a pattern [p] that is one character class:
    the first match, or [None]. *)
Definition re_search (cls : ascii → bool) (s : string) : obj := search_from cls 0 s.

(** [iter(o)]: lists and strings are iterable; [None], booleans and
    match objects are not. *)
Definition iter (o : obj) : result (list bool) :=
  match o with
  | PyList l => Ok l
  | PyStr s => Ok (List.map (fun _ => true) (list_ascii_of_string s))
  | PyNone | PyBool _ | PyMatch _ => Raise TypeError
  end.

(** [any(o)] *)
Definition any (o : obj) : result bool :=
  (l <- iter o ;; Ok (existsb (fun b => b) l))%result.

End Py.

(** ** Task settings *)

Record Filters := mkFilters {
  raw_text : bool;
  numbers_only : bool;
  alphabets_only : bool;
  removed_alphabetic : bool;
  removed_numeric : bool;
  add_prefix_suffix : bool
}.

Record Settings := mkSettings {
  outgoing : bool;
  forward_tag : bool;
  control : bool;
  filters : Filters;
  prefix : string;
  suffix : string
}.

Definition _make_default_task_settings : Settings :=
  {| outgoing := true;
     forward_tag := true;
     control := true;
     filters := {| raw_text := false; numbers_only := false;
                   alphabets_only := false; removed_alphabetic := false;
                   removed_numeric := false; add_prefix_suffix := false |};
     prefix := "";
     suffix := "" |}.

(** ** The filter engine *)

(** [for tok in tokens: if p(tok): results.append(tok)] *)
Fixpoint append_matching (p : string → bool) (tokens results : list string) : list string :=
  match tokens with
  | [] => results
  | tok :: rest => append_matching p rest (if p tok then py_append results tok else results)
  end.

(** The four [if] statements that follow [has_digit] and [has_alpha],
    one per filter, each appending to [results]. *)
Definition append_filter_results (fs : Filters) (text : string) (tokens : list string)
    (has_digit has_alpha : bool) (results : list string) : list string :=
  let results :=
    if numbers_only fs && has_digit then py_append results text else results in
  let results :=
    if alphabets_only fs && has_alpha && negb has_digit
    then py_append results text else results in
  let results :=
    if removed_alphabetic fs && has_alpha
    then append_matching PyStr.isalpha tokens results else results in
  let results :=
    if removed_numeric fs && has_digit
    then append_matching PyStr.isdigit tokens results else results in
  results.

(** The branch that fills [results]. With [raw_text] off, [has_digit] and
    [has_alpha] are [any(re.search(...))]: [any] is handed the match
    object or [None] that [re.search] returns and asks it for an
    iterator. *)
Definition collect_results (fs : Filters) (text : string) : result (list string) :=
  let results : list string := [] in
  if raw_text fs then Ok (py_append results text)
  else
    let tokens := PyStr.re_split_ws text in
    (has_digit <- Py.any (Py.re_search PyStr.isdecimal text) ;;
     has_alpha <- Py.any (Py.re_search PyStr.is_ascii_letter text) ;;
     Ok (append_filter_results fs text tokens has_digit has_alpha results))%result.

(** [for r in results: if r not in seen: deduped.append(r); seen.add(r)] *)
Fixpoint dedupe_loop (results deduped : list string) (seen : gset string) : list string :=
  match results with
  | [] => deduped
  | r :: rest =>
      if decide (r ∈ seen) then dedupe_loop rest deduped seen
      else dedupe_loop rest (py_append deduped r) ({[ r ]} ∪ seen)
  end.

Definition dedupe (results : list string) : list string := dedupe_loop results [] ∅.

(** [for line in deduped: final.append(f"{prefix}{line}{suffix}")] *)
Fixpoint affix_loop (prefix suffix : string) (deduped final : list string) : list string :=
  match deduped with
  | [] => final
  | line :: rest =>
      affix_loop prefix suffix rest (py_append final (prefix ++ line ++ suffix)%string)
  end.

Definition _apply_filters_and_prefix_suffix
    (message_text : string) (settings : Settings) : result (list string) :=
  let fs := filters settings in
  let prefix := prefix settings in
  let suffix := suffix settings in
  let text := PyStr.strip message_text in
  (results <- collect_results fs text ;;
   let deduped := dedupe results in
   Ok (affix_loop prefix suffix deduped []))%result.

(** ** Events, tasks, jobs *)

Definition Client := Z.
Definition Entity := Z.

(** The message object carried by an event. *)
Record Message := mkMessage {
  msg_id : Z;
  message : option string;
  msg_chat_id : option Z;
  out : bool
}.

(** A [NewMessage] event; an attribute that is missing or [None] is [None]. *)
Record Event := mkEvent {
  ev_raw_text : option string;
  ev_message : option Message;
  ev_chat_id : option Z
}.

Record Task := mkTask {
  label : string;
  source_ids : list Z;
  target_ids : list Z
}.

(** The payload of a queued job: a text, or the tuple
    [("__FORWARD_ORIG__", message)]. *)
Inductive Payload : Type :=
| Text (om : string)
| ForwardOrig (orig_message : option Message).

Record Job := mkJob {
  job_user : Z;
  job_client : Client;
  job_target : Z;
  job_payload : Payload
}.

(** ** [asyncio.Queue] *)

Record Queue := mkQueue {
  maxsize : Z;
  items : list Job;
  unfinished_tasks : Z
}.

Definition new_queue (maxsize : Z) : Queue := mkQueue maxsize [] 0.

Definition qsize (q : Queue) : Z := Z.of_nat (length (items q)).

(** [full()]: never true when [maxsize <= 0]. *)
Definition full (q : Queue) : bool :=
  if maxsize q <=? 0 then false else maxsize q <=? qsize q.

(** [put_nowait(item)] *)
Definition put_nowait (item : Job) (q : Queue) : result Queue :=
  if full q then Raise QueueFull
  else Ok (mkQueue (maxsize q) (py_append (items q) item) (unfinished_tasks q + 1)).

(** [task_done()] *)
Definition task_done (q : Queue) : result Queue :=
  if unfinished_tasks q <=? 0 then Raise ValueError
  else Ok (mkQueue (maxsize q) (items q) (unfinished_tasks q - 1)).

(** ** The process state and what a coroutine does to it *)

Inductive SendOutcome : Type :=
| Delivered
| FloodWait (seconds : option Z)
| Failed.

Inductive LogRecord : Type :=
| QueueNotInitialized
| QueueFullDropped (user_id target_id : Z)
| HandlerError (user_id : Z) (e : exn)
| CouldNotResolve (target_id user_id : Z)
| ForwardedOriginal (user_id target_id : Z)
| SentMessage (user_id target_id : Z)
| SkippedUnresolved (target_id user_id : Z)
| FloodWaitPause (wait worker_id : Z)
| RequeueFullDropped
| SendError (user_id target_id : Z) (e : exn)
| UnexpectedWorkerError (worker_id : Z)
| QueueGetError (worker_id : Z)
| WorkerBeforeQueue
| WorkerStarted (worker_id : Z)
| SpawnedWorkers (count : Z)
| GarbageCollected.

(** What the process did, in order: log lines, sleeps, and the calls
    made to the platform through a client, each with its answer. *)
Inductive Effect : Type :=
| Logged (r : LogRecord)
| Slept (seconds : Z)
| GetInputEntity (user_id : Z) (client : Client) (target_id : Z) (answer : option Entity)
| SendMessage (client : Client) (entity : Entity) (text : string) (answer : SendOutcome)
| ForwardMessages (client : Client) (target_id : Z) (orig : Message) (answer : SendOutcome).

Record State := mkState {
  tasks_cache : gmap Z (list Task);
  tasks_settings : gmap Z (gmap string Settings);
  target_entity_cache : gmap Z (gmap Z Entity);
  send_queue : option Queue;
  clock : Z;
  trace : list Effect;
  _last_gc_run : Z
}.

(** The platform behind the clients: each answer may depend on all that
    happened before. [None] from [get_input_entity] is a raised error. *)
Record Network := mkNetwork {
  get_input_entity : list Effect → Client → Z → option Entity;
  send_message : list Effect → Client → Entity → string → SendOutcome;
  forward_messages : list Effect → Client → Z → Message → SendOutcome
}.

(** How a coroutine run on its own ends: it returns, raises, or stays
    parked at an [await] that only another coroutine can complete. *)
Inductive outcome (A : Type) : Type :=
| Done (a : A)
| Raised (e : exn)
| Parked.
Arguments Done {A} a.
Arguments Raised {A} e.
Arguments Parked {A}.

Definition M (A : Type) : Type := State → State * outcome A.

Definition ret {A} (a : A) : M A := fun st => (st, Done a).

Definition bind {A B} (m : M A) (k : A → M B) : M B :=
  fun st =>
    match m st with
    | (st', Done a) => k a st'
    | (st', Raised e) => (st', Raised e)
    | (st', Parked) => (st', Parked)
    end.

Declare Scope coro_scope.
Delimit Scope coro_scope with coro.
Notation "x <- m ;; k" := (bind m (fun x => k))
  (at level 100, m at next level, right associativity) : coro_scope.
Notation "m ;;; k" := (bind m (fun _ => k))
  (at level 100, right associativity) : coro_scope.

Definition raise {A} (e : exn) : M A := fun st => (st, Raised e).

Definition lift {A} (r : result A) : M A :=
  match r with
  | Ok a => ret a
  | Raise e => raise e
  end.

Definition gets {A} (f : State → A) : M A := fun st => (st, Done (f st)).

Definition modify (f : State → State) : M unit := fun st => (f st, Done tt).

(** [try: body except <handles>: handler] *)
Definition try_except {A} (body : M A) (handles : exn → bool) (handler : exn → M A) : M A :=
  fun st =>
    match body st with
    | (st', Raised e) => if handles e then handler e st' else (st', Raised e)
    | r => r
    end.

(** [try: body finally: fin] *)
Definition try_finally {A} (body : M A) (fin : M unit) : M A :=
  fun st =>
    match body st with
    | (st', Done a) => bind fin (fun _ => ret a) st'
    | (st', Raised e) => bind fin (fun _ => raise e) st'
    | (st', Parked) => (st', Parked)
    end.

(** [for x in l: body(x)] *)
Fixpoint for_each {A} (l : list A) (body : A → M unit) : M unit :=
  match l with
  | [] => ret tt
  | x :: rest => bind (body x) (fun _ => for_each rest body)
  end.

Definition is_QueueFull (e : exn) : bool :=
  match e with QueueFull => true | _ => false end.

(** [except Exception] *)
Definition is_Exception (e : exn) : bool := true.

Definition set_trace (t : list Effect) (st : State) : State :=
  mkState (tasks_cache st) (tasks_settings st) (target_entity_cache st)
          (send_queue st) (clock st) t (_last_gc_run st).

Definition set_send_queue (q : option Queue) (st : State) : State :=
  mkState (tasks_cache st) (tasks_settings st) (target_entity_cache st)
          q (clock st) (trace st) (_last_gc_run st).

Definition set_tasks_settings (ts : gmap Z (gmap string Settings)) (st : State) : State :=
  mkState (tasks_cache st) ts (target_entity_cache st)
          (send_queue st) (clock st) (trace st) (_last_gc_run st).

Definition set_target_entity_cache (c : gmap Z (gmap Z Entity)) (st : State) : State :=
  mkState (tasks_cache st) (tasks_settings st) c
          (send_queue st) (clock st) (trace st) (_last_gc_run st).

Definition set_tasks_cache (tc : gmap Z (list Task)) (st : State) : State :=
  mkState tc (tasks_settings st) (target_entity_cache st)
          (send_queue st) (clock st) (trace st) (_last_gc_run st).

Definition set_last_gc_run (t : Z) (st : State) : State :=
  mkState (tasks_cache st) (tasks_settings st) (target_entity_cache st)
          (send_queue st) (clock st) (trace st) t.

Definition emit (e : Effect) : M unit :=
  modify (fun st => set_trace (py_append (trace st) e) st).

Definition logger (r : LogRecord) : M unit := emit (Logged r).

(** [await asyncio.sleep(seconds)] *)
Definition sleep (seconds : Z) : M unit :=
  fun st =>
    (mkState (tasks_cache st) (tasks_settings st) (target_entity_cache st)
             (send_queue st) (clock st + seconds) (py_append (trace st) (Slept seconds))
             (_last_gc_run st),
     Done tt).

(** [await send_queue.put(item)]: waits while the queue is full, then
    [put_nowait]. *)
Definition queue_put (item : Job) : M unit :=
  fun st =>
    match send_queue st with
    | None => (st, Raised AttributeError)
    | Some q =>
        if full q then (st, Parked)
        else match put_nowait item q with
             | Ok q' => (set_send_queue (Some q') st, Done tt)
             | Raise e => (st, Raised e)
             end
    end.

(** [await send_queue.get()]: waits while the queue is empty. *)
Definition queue_get : M Job :=
  fun st =>
    match send_queue st with
    | None => (st, Raised AttributeError)
    | Some q =>
        match items q with
        | [] => (st, Parked)
        | item :: rest =>
            (set_send_queue (Some (mkQueue (maxsize q) rest (unfinished_tasks q))) st,
             Done item)
        end
    end.

(** [send_queue.task_done()] *)
Definition queue_task_done : M unit :=
  fun st =>
    match send_queue st with
    | None => (st, Raised AttributeError)
    | Some q =>
        match task_done q with
        | Ok q' => (set_send_queue (Some q') st, Done tt)
        | Raise e => (st, Raised e)
        end
    end.

(** ** The event handler *)

(** [getattr(event, "raw_text", None) or
     getattr(getattr(event, "message", None), "message", None)] *)
Definition event_text (event : Event) : option string :=
  let fallback :=
    match ev_message event with
    | Some m => message m
    | None => None
    end in
  match ev_raw_text event with
  | Some s => if PyStr.nonempty s then Some s else fallback
  | None => fallback
  end.

(** [getattr(event, "chat_id", None) or
     getattr(getattr(event, "message", None), "chat_id", None)] *)
Definition event_chat_id (event : Event) : option Z :=
  let fallback :=
    match ev_message event with
    | Some m => msg_chat_id m
    | None => None
    end in
  match ev_chat_id event with
  | Some c => if c =? 0 then fallback else Some c
  | None => fallback
  end.

(** [bool(getattr(getattr(event, "message", None), "out", False))] *)
Definition event_is_outgoing (event : Event) : bool :=
  match ev_message event with
  | Some m => out m
  | None => false
  end.

(** [tasks_settings.setdefault(user_id, {}).setdefault(label,
     _make_default_task_settings())] *)
Definition settings_setdefault (user_id : Z) (label : string) : M Settings :=
  fun st =>
    match tasks_settings st !! user_id with
    | None =>
        (set_tasks_settings
           (<[user_id := {[ label := _make_default_task_settings ]}]> (tasks_settings st)) st,
         Done _make_default_task_settings)
    | Some per_user =>
        match per_user !! label with
        | Some settings => (st, Done settings)
        | None =>
            (set_tasks_settings
               (<[user_id := <[label := _make_default_task_settings]> per_user]>
                  (tasks_settings st)) st,
             Done _make_default_task_settings)
        end
    end.

(** The body of [for target_id in task.get("target_ids", [])]. *)
Definition enqueue_for_target (user_id : Z) (client : Client) (event : Event)
    (settings : Settings) (out_messages : list string) (target_id : Z) : M unit :=
  try_except
    (q <- gets send_queue ;;
     match q with
     | None => logger QueueNotInitialized
     | Some _ =>
         if forward_tag settings && raw_text (filters settings)
            && (length out_messages =? 1)%nat
         then queue_put (mkJob user_id client target_id (ForwardOrig (ev_message event)))
         else for_each out_messages
                (fun om => queue_put (mkJob user_id client target_id (Text om)))
     end)%coro
    is_QueueFull
    (fun _ => logger (QueueFullDropped user_id target_id)).

(** The body of [for task in user_tasks]. *)
Definition process_task (user_id : Z) (client : Client) (event : Event)
    (message_text : string) (chat_id : Z) (is_outgoing : bool) (task : Task) : M unit :=
  if bool_decide (chat_id ∈ source_ids task) then
    (settings <- settings_setdefault user_id (label task) ;;
     if negb (control settings) then ret tt
     else if negb (outgoing settings) && is_outgoing then ret tt
     else
       out_messages <- lift (_apply_filters_and_prefix_suffix message_text settings) ;;
       match out_messages with
       | [] => ret tt
       | _ => for_each (target_ids task)
                (enqueue_for_target user_id client event settings out_messages)
       end)%coro
  else ret tt.

Definition GC_INTERVAL : Z := 300.

(** [optimized_gc()]. The time is the event loop's, the clock that
    [asyncio.sleep] moves; [gc.collect()] changes nothing the program
    looks at, and the number it returns, which the [logger.debug] line
    quotes, is left out of the record. *)
Definition optimized_gc : M unit :=
  (current_time <- gets clock ;;
   last_gc_run <- gets _last_gc_run ;;
   if GC_INTERVAL <? current_time - last_gc_run
   then logger GarbageCollected ;;; modify (set_last_gc_run current_time)
   else ret tt)%coro.

(** The statements of the handler's [try] that follow the call to
    [optimized_gc]. *)
Definition forward_event (user_id : Z) (client : Client) (event : Event) : M unit :=
  match event_text event with
  | None => ret tt
  | Some message_text =>
      if negb (PyStr.nonempty message_text)
         || negb (PyStr.nonempty (PyStr.strip message_text))
      then ret tt
      else
        match event_chat_id event with
        | None => ret tt
        | Some chat_id =>
            (user_tasks <- gets (fun st => tasks_cache st !! user_id) ;;
             match user_tasks with
             | None | Some [] => ret tt
             | Some user_tasks =>
                 let is_outgoing := event_is_outgoing event in
                 for_each user_tasks
                   (process_task user_id client event message_text chat_id is_outgoing)
             end)%coro
        end
  end.

(** The handler registered for [user_id] and [client]. *)
Definition _hot_message_handler (user_id : Z) (client : Client) (event : Event) : M unit :=
  try_except
    (optimized_gc ;;; forward_event user_id client event)%coro
    is_Exception
    (fun e => logger (HandlerError user_id e)).

(** ** The resolver and the send worker *)

Section Worker.

Variable net : Network.

(** [await client.get_input_entity(int(target_id))], called for [user_id]. *)
Definition call_get_input_entity (user_id : Z) (client : Client) (target_id : Z)
    : M Entity :=
  fun st =>
    let answer := get_input_entity net (trace st) client target_id in
    let st' :=
      set_trace (py_append (trace st) (GetInputEntity user_id client target_id answer)) st in
    match answer with
    | Some entity => (st', Done entity)
    | None => (st', Raised OtherError)
    end.

Definition raise_of (answer : SendOutcome) : M unit :=
  match answer with
  | Delivered => ret tt
  | FloodWait seconds => raise (FloodWaitError seconds)
  | Failed => raise OtherError
  end.

(** [await client.send_message(entity, message_text)] *)
Definition call_send_message (client : Client) (entity : Entity) (text : string)
    : M unit :=
  fun st =>
    let answer := send_message net (trace st) client entity text in
    raise_of answer
      (set_trace (py_append (trace st) (SendMessage client entity text answer)) st).

(** [await client.forward_messages(target_id, orig_message)] *)
Definition call_forward_messages (client : Client) (target_id : Z) (orig : Message)
    : M unit :=
  fun st =>
    let answer := forward_messages net (trace st) client target_id orig in
    raise_of answer
      (set_trace (py_append (trace st) (ForwardMessages client target_id orig answer)) st).

Definition cache_lookup (user_id target_id : Z) (st : State) : option Entity :=
  target_entity_cache st !! user_id ≫= (fun d => d !! target_id).

(** [target_entity_cache[user_id][target_id] = entity] *)
Definition cache_store (user_id target_id : Z) (entity : Entity) : M unit :=
  fun st =>
    match target_entity_cache st !! user_id with
    | None => (st, Raised KeyError)
    | Some d =>
        (set_target_entity_cache
           (<[user_id := <[target_id := entity]> d]> (target_entity_cache st)) st,
         Done tt)
    end.

Definition resolve_target_entity_once (user_id : Z) (client : Client) (target_id : Z)
    : M (option Entity) :=
  (modify (fun st =>
     match target_entity_cache st !! user_id with
     | None => set_target_entity_cache (<[user_id := ∅]> (target_entity_cache st)) st
     | Some _ => st
     end) ;;;
   cached <- gets (cache_lookup user_id target_id) ;;
   match cached with
   | Some entity => ret (Some entity)
   | None =>
       try_except
         (entity <- call_get_input_entity user_id client target_id ;;
          cache_store user_id target_id entity ;;;
          ret (Some entity))
         is_Exception
         (fun _ => logger (CouldNotResolve target_id user_id) ;;; ret None)
   end)%coro.

(** The [except FloodWaitError as fwe] clause. *)
Definition on_flood_wait (worker_id : Z) (job : Job) (seconds : option Z) : M unit :=
  let wait := default 10 seconds in
  (logger (FloodWaitPause wait worker_id) ;;;
   sleep (wait + 1) ;;;
   try_except (queue_put job) is_QueueFull (fun _ => logger RequeueFullDropped))%coro.

(** The statements under the inner [try]: relay the original message,
    or resolve the target and send the text. *)
Definition deliver (job : Job) : M unit :=
  let user_id := job_user job in
  let client := job_client job in
  let target_id := job_target job in
  match job_payload job with
  | ForwardOrig orig_message =>
      match orig_message with
      | None => ret tt
      | Some orig =>
          call_forward_messages client target_id orig ;;;
          logger (ForwardedOriginal user_id target_id)
      end
  | Text message_text =>
      entity <- gets (cache_lookup user_id target_id) ;;
      entity <- match entity with
                | Some e => ret (Some e)
                | None => resolve_target_entity_once user_id client target_id
                end ;;
      match entity with
      | None => logger (SkippedUnresolved target_id user_id)
      | Some e =>
          call_send_message client e message_text ;;;
          logger (SentMessage user_id target_id)
      end
  end%coro.

(** One turn of [while True] after the job was taken from the queue. *)
Definition process_job (worker_id : Z) (job : Job) : M unit :=
  try_finally
    (try_except
       (try_except
          (deliver job)
          is_Exception
          (fun e =>
             match e with
             | FloodWaitError seconds => on_flood_wait worker_id job seconds
             | _ => logger (SendError (job_user job) (job_target job) e)
             end))
       is_Exception
       (fun _ => logger (UnexpectedWorkerError worker_id)))
    (try_except queue_task_done is_Exception (fun _ => ret tt)).

(** [await send_queue.get()] under its own [try]: an error ends the loop. *)
Definition take_job (worker_id : Z) : M (option Job) :=
  try_except
    (job <- queue_get ;; ret (Some job))%coro
    is_Exception
    (fun _ => logger (QueueGetError worker_id) ;;; ret None)%coro.

(** One turn of [while True]; [false] stands for [break]. *)
Definition worker_turn (worker_id : Z) : M bool :=
  (taken <- take_job worker_id ;;
   match taken with
   | None => ret false
   | Some job => process_job worker_id job ;;; ret true
   end)%coro.

(** [while True], cut after [turns] turns. *)
Fixpoint worker_turns (worker_id : Z) (turns : nat) : M unit :=
  match turns with
  | O => ret tt
  | S n =>
      (go_on <- worker_turn worker_id ;;
       if go_on : bool then worker_turns worker_id n else ret tt)%coro
  end.

Definition send_worker_loop (worker_id : Z) (turns : nat) : M unit :=
  (logger (WorkerStarted worker_id) ;;;
   q <- gets send_queue ;;
   match q with
   | None => logger WorkerBeforeQueue
   | Some _ => worker_turns worker_id turns
   end)%coro.

(** A run of [resolve_target_entity_once] calls, one after the other. *)
Fixpoint resolve_all (calls : list (Z * Client * Z)) : M unit :=
  match calls with
  | [] => ret tt
  | (user_id, client, target_id) :: rest =>
      (resolve_target_entity_once user_id client target_id ;;; resolve_all rest)%coro
  end.

(** [resolve_target_entity_once] is a coroutine with one [await], at
    [client.get_input_entity]: between the cache test and the answer the
    event loop may run other coroutines. A call is not started yet, is
    suspended at that [await], has returned, or has raised. *)
Inductive ResolveCall : Type :=
| NotStarted (user_id : Z) (client : Client) (target_id : Z)
| AwaitingEntity (user_id : Z) (client : Client) (target_id : Z)
| Returned (result : option Entity)
| Raising (e : exn).

(** The statements of [resolve_target_entity_once] before its [await]. *)
Definition resolve_until_await (user_id : Z) (client : Client) (target_id : Z)
    : M ResolveCall :=
  (modify (fun st =>
     match target_entity_cache st !! user_id with
     | None => set_target_entity_cache (<[user_id := ∅]> (target_entity_cache st)) st
     | Some _ => st
     end) ;;;
   cached <- gets (cache_lookup user_id target_id) ;;
   match cached with
   | Some entity => ret (Returned (Some entity))
   | None => ret (AwaitingEntity user_id client target_id)
   end)%coro.

(** The statements from the [await] on, run when the platform answers. *)
Definition resolve_from_await (user_id : Z) (client : Client) (target_id : Z)
    : M (option Entity) :=
  try_except
    (entity <- call_get_input_entity user_id client target_id ;;
     cache_store user_id target_id entity ;;;
     ret (Some entity))%coro
    is_Exception
    (fun _ => logger (CouldNotResolve target_id user_id) ;;; ret None)%coro.

(** One turn of the event loop given to a call: the call runs up to its
    next suspension or to its end. *)
Definition advance (call : ResolveCall) : State → State * ResolveCall :=
  fun st =>
    match call with
    | NotStarted user_id client target_id =>
        match resolve_until_await user_id client target_id st with
        | (st', Done call') => (st', call')
        | (st', Raised e) => (st', Raising e)
        | (st', Parked) => (st', call)
        end
    | AwaitingEntity user_id client target_id =>
        match resolve_from_await user_id client target_id st with
        | (st', Done result) => (st', Returned result)
        | (st', Raised e) => (st', Raising e)
        | (st', Parked) => (st', call)
        end
    | Returned _ | Raising _ => (st, call)
    end.

(** The event loop running the calls of [pool]: each entry of [schedule]
    names the call that gets the next turn. *)
Fixpoint run_schedule (schedule : list nat) (pool : list ResolveCall) (st : State)
    : State * list ResolveCall :=
  match schedule with
  | [] => (st, pool)
  | i :: rest =>
      match pool !! i with
      | None => run_schedule rest pool st
      | Some call =>
          let '(st', call') := advance call st in
          run_schedule rest (<[i := call']> pool) st'
      end
  end.

End Worker.

(** ** Background resolution of targets *)

(** [for attempt in range(attempts)]: one try per turn, a pause of
    [retry_seconds] after each try that gave nothing, [break] at the
    first that gave an entity. The result says whether one did: the
    "Resolved target" line of [logger.info] is written exactly then. *)
Fixpoint resolve_with_retries (net : Network) (retry_seconds : Z)
    (user_id : Z) (client : Client) (tid : Z) (attempts : nat) : M bool :=
  match attempts with
  | O => ret false
  | S n =>
      (ent <- resolve_target_entity_once net user_id client tid ;;
       match ent with
       | Some _ => ret true
       | None =>
           sleep retry_seconds ;;;
           resolve_with_retries net retry_seconds user_id client tid n
       end)%coro
  end.

(** [for tid in target_ids], collecting the targets reported resolved. *)
Fixpoint resolve_each (net : Network) (retry_seconds : Z)
    (user_id : Z) (client : Client) (target_ids : list Z) : M (list Z) :=
  match target_ids with
  | [] => ret []
  | tid :: rest =>
      (resolved <- resolve_with_retries net retry_seconds user_id client tid 3 ;;
       more <- resolve_each net retry_seconds user_id client rest ;;
       ret (if resolved : bool then tid :: more else more))%coro
  end.

(** [resolve_targets_for_user(user_id, target_ids)], given the dictionary
    [user_clients] and the value of [TARGET_RESOLVE_RETRY_SECONDS]. It
    returns nothing in the source; here it returns, in order, the targets
    for which it wrote the "Resolved target" line. *)
Definition resolve_targets_for_user (net : Network) (user_clients : gmap Z Client)
    (retry_seconds : Z) (user_id : Z) (target_ids : list Z) : M (list Z) :=
  match user_clients !! user_id with
  | None => ret []
  | Some client => resolve_each net retry_seconds user_id client target_ids
  end.

(** ** Toggles, task list and logout *)

(** Writing through the [settings] dictionary handed out by
    [setdefault]: the entry of the store is the object that changes. *)
Definition write_settings (user_id : Z) (label : string) (settings : Settings) : M unit :=
  modify (fun st =>
    match tasks_settings st !! user_id with
    | Some per_user =>
        set_tasks_settings
          (<[user_id := <[label := settings]> per_user]> (tasks_settings st)) st
    | None => st
    end).

Definition with_outgoing (b : bool) (s : Settings) : Settings :=
  mkSettings b (forward_tag s) (control s) (filters s) (prefix s) (suffix s).

Definition with_forward_tag (b : bool) (s : Settings) : Settings :=
  mkSettings (outgoing s) b (control s) (filters s) (prefix s) (suffix s).

Definition with_control (b : bool) (s : Settings) : Settings :=
  mkSettings (outgoing s) (forward_tag s) b (filters s) (prefix s) (suffix s).

Definition with_filters (fs : Filters) (s : Settings) : Settings :=
  mkSettings (outgoing s) (forward_tag s) (control s) fs (prefix s) (suffix s).

(** [_toggle_task_setting], up to the change of the store; the answer to
    the query, the write to the database and the menu come after it and
    do not write to the store. *)
Definition _toggle_task_setting (user_id : Z) (label which : string) : M unit :=
  (settings <- settings_setdefault user_id label ;;
   if (which =? "outgoing")%string then
     write_settings user_id label (with_outgoing (negb (outgoing settings)) settings)
   else if (which =? "forwardtag")%string then
     write_settings user_id label (with_forward_tag (negb (forward_tag settings)) settings)
   else if (which =? "control")%string then
     write_settings user_id label (with_control (negb (control settings)) settings)
   else ret tt)%coro.

(** [fs.get(key)] on the dictionary of the six filter flags. *)
Definition filter_get (key : string) (fs : Filters) : option bool :=
  if (key =? "raw_text")%string then Some (raw_text fs)
  else if (key =? "numbers_only")%string then Some (numbers_only fs)
  else if (key =? "alphabets_only")%string then Some (alphabets_only fs)
  else if (key =? "removed_alphabetic")%string then Some (removed_alphabetic fs)
  else if (key =? "removed_numeric")%string then Some (removed_numeric fs)
  else if (key =? "add_prefix_suffix")%string then Some (add_prefix_suffix fs)
  else None.

(** [fs[key] = b] for a key that is in the dictionary. *)
Definition filter_set (key : string) (b : bool) (fs : Filters) : Filters :=
  if (key =? "raw_text")%string then
    mkFilters b (numbers_only fs) (alphabets_only fs) (removed_alphabetic fs)
              (removed_numeric fs) (add_prefix_suffix fs)
  else if (key =? "numbers_only")%string then
    mkFilters (raw_text fs) b (alphabets_only fs) (removed_alphabetic fs)
              (removed_numeric fs) (add_prefix_suffix fs)
  else if (key =? "alphabets_only")%string then
    mkFilters (raw_text fs) (numbers_only fs) b (removed_alphabetic fs)
              (removed_numeric fs) (add_prefix_suffix fs)
  else if (key =? "removed_alphabetic")%string then
    mkFilters (raw_text fs) (numbers_only fs) (alphabets_only fs) b
              (removed_numeric fs) (add_prefix_suffix fs)
  else if (key =? "removed_numeric")%string then
    mkFilters (raw_text fs) (numbers_only fs) (alphabets_only fs)
              (removed_alphabetic fs) b (add_prefix_suffix fs)
  else if (key =? "add_prefix_suffix")%string then
    mkFilters (raw_text fs) (numbers_only fs) (alphabets_only fs)
              (removed_alphabetic fs) (removed_numeric fs) b
  else fs.

(** [_toggle_filter], up to the change of the store. *)
Definition _toggle_filter (user_id : Z) (label filterkey : string) : M unit :=
  (settings <- settings_setdefault user_id label ;;
   match filter_get filterkey (filters settings) with
   | Some b =>
       write_settings user_id label
         (with_filters (filter_set filterkey (negb b) (filters settings)) settings)
   | None => ret tt
   end)%coro.

(** What [handle_logout_confirmation] does to the caches once the phone
    number matched: [tasks_cache.pop(user_id, None)] and
    [target_entity_cache.pop(user_id, None)]. *)
Definition clear_user_caches (user_id : Z) (st : State) : State :=
  set_target_entity_cache (delete user_id (target_entity_cache st))
    (set_tasks_cache (delete user_id (tasks_cache st)) st).

(** The [if added:] block of the task-creation flow: the new task goes
    to the end of the user's list and its settings are the defaults. *)
Definition remember_task (user_id : Z) (name : string) (sources targets : list Z)
    (st : State) : State :=
  let user_tasks := default [] (tasks_cache st !! user_id) in
  let per_user := default ∅ (tasks_settings st !! user_id) in
  set_tasks_settings
    (<[user_id := <[name := _make_default_task_settings]> per_user]> (tasks_settings st))
    (set_tasks_cache
       (<[user_id := py_append user_tasks (mkTask name sources targets)]> (tasks_cache st))
       st).

(** The [if deleted:] block of the delete confirmation: the tasks with
    that label leave the user's list, the label's settings are popped. *)
Definition forget_task (user_id : Z) (label_ : string) (st : State) : State :=
  let st1 :=
    match tasks_cache st !! user_id with
    | Some user_tasks =>
        set_tasks_cache
          (<[user_id := filter (fun t => label t ≠ label_) user_tasks]> (tasks_cache st)) st
    | None => st
    end in
  match tasks_settings st1 !! user_id with
  | Some per_user =>
      set_tasks_settings (<[user_id := delete label_ per_user]> (tasks_settings st1)) st1
  | None => st1
  end.

(** ** Callback data of the task menus *)

Module Callback.

(** [s.split(sep, maxsplit)] for a separator of one code point: [cur] is
    the part being read. *)
Fixpoint split_from (sep : ascii) (maxsplit : nat) (cur s : string) {struct s}
    : list string :=
  match maxsplit with
  | O => [(cur ++ s)%string]
  | S n =>
      match s with
      | EmptyString => [cur]
      | String c s' =>
          if Ascii.eqb c sep then cur :: split_from sep n EmptyString s'
          else split_from sep maxsplit (cur ++ String c EmptyString)%string s'
      end
  end.

Definition split (sep : ascii) (maxsplit : nat) (s : string) : list string :=
  split_from sep maxsplit EmptyString s.

(** Where the last [sep] cuts [s], if there is one. *)
Fixpoint cut_at_last (sep : ascii) (s : string) : option (string * string) :=
  match s with
  | EmptyString => None
  | String c s' =>
      match cut_at_last sep s' with
      | Some (before, after) => Some (String c before, after)
      | None => if Ascii.eqb c sep then Some (EmptyString, s') else None
      end
  end.

(** [s.rsplit(sep, 1)] *)
Definition rsplit1 (sep : ascii) (s : string) : list string :=
  match cut_at_last sep s with
  | Some (before, after) => [before; after]
  | None => [s]
  end.

(** What [button_handler] goes on to do with callback data that starts
    with "task_". *)
Inductive TaskCallback : Type :=
| ShowTaskMenu (label : string)
| ShowFiltersMenu (label : string)
| ToggleTaskSetting (label which : string)
| AskDeleteName (label : string)
| ToggleFilter (label filterkey : string)
| OpenPrefixSuffix (label : string)
| ConfirmDelete (label : string)
| CancelDelete
| NoAction.

(** The block under [if data.startswith("task_")]. An [IndexError] or a
    failed unpacking inside one of its [try] statements ends in
    [return], here [NoAction]. *)
Definition task_callback (data : string) : TaskCallback :=
  match split "_" 2 data with
  | _ :: action :: more =>
      let rest := match more with r :: _ => r | [] => EmptyString end in
      let label := rest in
      if (action =? "select")%string then ShowTaskMenu label
      else if (action =? "filters")%string then ShowFiltersMenu label
      else if (action =? "toggle")%string then
        match rsplit1 "_" rest with
        | label :: which :: _ => ToggleTaskSetting label which
        | _ => NoAction
        end
      else if (action =? "delete")%string then AskDeleteName label
      else if (action =? "filters_toggle")%string then
        match split "_" 2 data with
        | [_; _; payload] =>
            match rsplit1 "_" payload with
            | label :: filterkey :: _ => ToggleFilter label filterkey
            | _ => NoAction
            end
        | _ => NoAction
        end
      else if (action =? "prefixsuffix")%string then OpenPrefixSuffix label
      else if (action =? "confirm")%string then
        match split "_" 2 data with
        | [_; _; payload] =>
            match rsplit1 "_" payload with
            | [label; answer] =>
                if (answer =? "yes")%string then ConfirmDelete label else CancelDelete
            | _ => NoAction
            end
        | _ => NoAction
        end
      else NoAction
  | _ => NoAction
  end.

Fixpoint has_char (c : ascii) (s : string) : bool :=
  match s with
  | EmptyString => false
  | String d s' => Ascii.eqb d c || has_char c s'
  end.

End Callback.

(** ** Starting up: workers and handlers *)

(** [_send_workers_started] and [worker_tasks]; a task is known by the
    [worker_id] its [send_worker_loop] was given. *)
Record WorkerPool := mkWorkerPool {
  _send_workers_started : bool;
  worker_tasks : list Z
}.

(** [range(n)] *)
Definition py_range (n : Z) : list Z := Z.of_nat <$> seq 0 (Z.to_nat n).

(** [start_send_workers], given the values of [SEND_QUEUE_MAXSIZE] and
    [SEND_WORKER_COUNT]. *)
Definition start_send_workers (SEND_QUEUE_MAXSIZE SEND_WORKER_COUNT : Z)
    (pool : WorkerPool) : M WorkerPool :=
  if _send_workers_started pool then ret pool
  else
    (modify (fun st =>
       match send_queue st with
       | None => set_send_queue (Some (new_queue SEND_QUEUE_MAXSIZE)) st
       | Some _ => st
       end) ;;;
     let tasks := fold_left (fun tasks i => py_append tasks (i + 1))
                    (py_range SEND_WORKER_COUNT) (worker_tasks pool) in
     logger (SpawnedWorkers SEND_WORKER_COUNT) ;;;
     ret (mkWorkerPool true tasks))%coro.

(** The closure [_hot_message_handler] with the [user_id] and the
    [client] it has captured. *)
Record Handler := mkHandler {
  handler_user : Z;
  handler_client : Client
}.

(** [user_clients], [handler_registered], and what the clients hold:
    the handlers added to each with [add_event_handler], in order. *)
Record Registry := mkRegistry {
  user_clients : gmap Z Client;
  handler_registered : gmap Z Handler;
  event_handlers : list (Client * Handler)
}.

Inductive RegistryLog : Type :=
| RegisteredHandler (user_id : Z)
| FailedToAddHandler (user_id : Z).

(** [ensure_handler_registered_for_user]; [add_raises] says whether
    [client.add_event_handler] raises. The result carries the lines
    logged. *)
Definition ensure_handler_registered_for_user (add_raises : bool)
    (user_id : Z) (client : Client) (reg : Registry) : Registry * list RegistryLog :=
  match handler_registered reg !! user_id with
  | Some _ => (reg, [])
  | None =>
      if add_raises then (reg, [FailedToAddHandler user_id])
      else
        let handler := mkHandler user_id client in
        (mkRegistry (user_clients reg)
           (<[user_id := handler]> (handler_registered reg))
           (py_append (event_handlers reg) (client, handler)),
         [RegisteredHandler user_id])
  end.

(** [tasks_settings[user_id].setdefault(label, defaults)] for each task. *)
Fixpoint init_settings (user_id : Z) (user_tasks : list Task) (st : State) : State :=
  match user_tasks with
  | [] => st
  | t :: rest =>
      let per_user := default ∅ (tasks_settings st !! user_id) in
      let st' :=
        match per_user !! label t with
        | Some _ => st
        | None =>
            set_tasks_settings
              (<[user_id := <[label t := _make_default_task_settings]> per_user]>
                 (tasks_settings st)) st
        end in
      init_settings user_id rest st'
  end.

(** [d.setdefault(user_id, v)] on each of the three dictionaries. *)
Definition setdefault_user_caches (user_id : Z) (st : State) : State :=
  let tc := match tasks_cache st !! user_id with
            | Some _ => tasks_cache st
            | None => <[user_id := []]> (tasks_cache st)
            end in
  let ec := match target_entity_cache st !! user_id with
            | Some _ => target_entity_cache st
            | None => <[user_id := ∅]> (target_entity_cache st)
            end in
  let ts := match tasks_settings st !! user_id with
            | Some _ => tasks_settings st
            | None => <[user_id := ∅]> (tasks_settings st)
            end in
  mkState tc ts ec (send_queue st) (clock st) (trace st) (_last_gc_run st).

Definition start_forwarding_for_user (add_raises : bool) (user_id : Z)
    (reg : Registry) (st : State) : State * (Registry * list RegistryLog) :=
  match user_clients reg !! user_id with
  | None => (st, (reg, []))
  | Some client =>
      let st1 := setdefault_user_caches user_id st in
      let st2 := init_settings user_id (default [] (tasks_cache st1 !! user_id)) st1 in
      (st2, ensure_handler_registered_for_user add_raises user_id client reg)
  end.

(** * Vocabulary of the statements *)

(** What the documentation calls deduplication preserving order: each
    string is kept at its first occurrence and dropped afterwards. *)
Fixpoint first_occurrences (l : list string) : list string :=
  match l with
  | [] => []
  | x :: rest => x :: filter (fun y => y ≠ x) (first_occurrences rest)
  end.

(** [f"{prefix}{line}{suffix}"] *)
Definition affixed (prefix suffix line : string) : string :=
  (prefix ++ line ++ suffix)%string.

Definition with_add_prefix_suffix (b : bool) (s : Settings) : Settings :=
  let fs := filters s in
  mkSettings (outgoing s) (forward_tag s) (control s)
    (mkFilters (raw_text fs) (numbers_only fs) (alphabets_only fs)
               (removed_alphabetic fs) (removed_numeric fs) b)
    (prefix s) (suffix s).

Definition relay_job (user_id : Z) (client : Client) (event : Event) (target_id : Z) : Job :=
  mkJob user_id client target_id (ForwardOrig (ev_message event)).

(** Room for [n] more items. *)
Definition has_room (q : Queue) (n : nat) : Prop :=
  maxsize q ≤ 0 ∨ qsize q + Z.of_nat n ≤ maxsize q.

Definition enqueued (jobs : list Job) (q : Queue) : Queue :=
  mkQueue (maxsize q) (items q ++ jobs)%list (unfinished_tasks q + Z.of_nat (length jobs)).

Definition is_resolver_call (user_id target_id : Z) (e : Effect) : bool :=
  match e with
  | GetInputEntity u _ t _ => (u =? user_id) && (t =? target_id)
  | _ => false
  end.

Definition is_resolver_failure (user_id target_id : Z) (e : Effect) : bool :=
  match e with
  | GetInputEntity u _ t None => (u =? user_id) && (t =? target_id)
  | _ => false
  end.

Fixpoint count_effects (p : Effect → bool) (tr : list Effect) : nat :=
  match tr with
  | [] => 0
  | e :: rest => ((if p e then 1 else 0) + count_effects p rest)%nat
  end.

(** How often [get_input_entity] was called for this user and target,
    and how often it failed. *)
Definition resolver_calls (user_id target_id : Z) (tr : list Effect) : nat :=
  count_effects (is_resolver_call user_id target_id) tr.

Definition resolver_failures (user_id target_id : Z) (tr : list Effect) : nat :=
  count_effects (is_resolver_failure user_id target_id) tr.

Definition cached_bound (user_id target_id : Z) (st : State) : nat :=
  match cache_lookup user_id target_id st with
  | Some _ => 0
  | None => 1
  end.

(** The calls as they are handed to the event loop. *)
Definition not_started (calls : list (Z * Client * Z)) : list ResolveCall :=
  (fun call => let '(user_id, client, target_id) := call in
               NotStarted user_id client target_id) <$> calls.

(** The schedule that runs each of [n] calls to its end before the next
    is started: two turns each, one up to the [await], one from it. *)
Definition one_after_the_other (n : nat) : list nat := i ← seq 0 n; [i; i].

Definition is_call_for (user_id target_id : Z) (call : Z * Client * Z) : bool :=
  let '(u, _, t) := call in (u =? user_id) && (t =? target_id).

(** How many of the calls are for this user and target. *)
Definition calls_for (user_id target_id : Z) (calls : list (Z * Client * Z)) : nat :=
  length (filter (fun call => is_call_for user_id target_id call = true) calls).

(** C8 read on calls that the event loop runs as [schedule] says: unless
    an invocation failed, the resolver is invoked at most once for the
    user and target. *)
Definition invoked_at_most_once_absent_failure
    (net : Network) (schedule : list nat) (calls : list (Z * Client * Z))
    (user_id target_id : Z) (st : State) : Prop :=
  ∃ new,
    trace (run_schedule net schedule (not_started calls) st).1 = (trace st ++ new)%list
    ∧ (resolver_failures user_id target_id new = 0%nat →
       (resolver_calls user_id target_id new ≤ 1)%nat).

(** What a call in the pool can still add to the invocations for this
    user and target: one if it is suspended at the [await], one if it has
    not started and will find nothing cached. *)
Definition pending_call (user_id target_id : Z) (absent : nat) (call : ResolveCall) : nat :=
  match call with
  | AwaitingEntity u _ t => if (u =? user_id) && (t =? target_id) then 1 else 0
  | NotStarted u _ t => if (u =? user_id) && (t =? target_id) then absent else 0
  | _ => 0
  end.

Definition pending (user_id target_id : Z) (pool : list ResolveCall) (st : State) : nat :=
  sum_list_with (pending_call user_id target_id (cached_bound user_id target_id st)) pool.

(** A computation that leaves the queue and the clock alone. *)
Definition keeps_queue_and_clock {A} (m : M A) : Prop :=
  ∀ st st' o, m st = (st', o) → send_queue st' = send_queue st ∧ clock st' = clock st.

(** The queue once [get] has taken the first item out. *)
Definition after_get (q : Queue) (rest : list Job) : Queue :=
  mkQueue (maxsize q) rest (unfinished_tasks q).

(** The state in which the pause after a flood wait is over: the wait
    has been logged, the worker has slept [wait + 1], and the clock has
    moved by as much. *)
Definition paused (wait worker_id : Z) (st : State) : State :=
  mkState (tasks_cache st) (tasks_settings st) (target_entity_cache st) (send_queue st)
          (clock st + (wait + 1))
          (trace st ++ [Logged (FloodWaitPause wait worker_id); Slept (wait + 1)])%list
          (_last_gc_run st).

(** The jobs C1 expects for "hello". *)
Definition text_jobs_for_hello : list Job :=
  [mkJob 1 5 200 (Text "hello"); mkJob 1 5 300 (Text "hello")].

(** The state [optimized_gc] leaves behind: the state as it was unless
    more than [GC_INTERVAL] has passed since the last collection, else
    the same with the collection logged and dated. *)
Definition after_gc (st : State) : State :=
  if GC_INTERVAL <? clock st - _last_gc_run st
  then set_last_gc_run (clock st)
         (set_trace (trace st ++ [Logged GarbageCollected])%list st)
  else st.

(** The handler from the point where [optimized_gc] has returned. *)
Definition handler_past_gc (user_id : Z) (client : Client) (event : Event) : M unit :=
  try_except (forward_event user_id client event) is_Exception
    (fun e => logger (HandlerError user_id e)).

Definition with_tasks (user_id : Z) (tasks : list Task) (st : State) : State :=
  set_tasks_cache (<[user_id := tasks]> (tasks_cache st)) st.

(** C3 read on a task list [failing :: rest] whose first task raises: the
    queue ends as if only [rest] had been there. *)
Definition remaining_tasks_still_evaluated
    (user_id : Z) (client : Client) (event : Event) (st : State)
    (failing : Task) (rest : list Task) : Prop :=
  send_queue (_hot_message_handler user_id client event
                (with_tasks user_id (failing :: rest) st)).1
  = send_queue (_hot_message_handler user_id client event
                  (with_tasks user_id rest st)).1.

(** C4 read on one worker: after the turn that met the flood wait, the
    next job the worker takes is [job] again. *)
Definition reprocessed_before_next_item
    (net : Network) (worker_id : Z) (st : State) (job : Job) : Prop :=
  ∃ st', worker_turn net worker_id st = (st', Done true)
         ∧ (take_job worker_id st').2 = Done (Some job).

(** ** Scenarios *)

Module Scenario.

Definition raw_forward_settings : Settings :=
  mkSettings true true true (mkFilters true false false false false false) "" "".

Definition hello_message : Message := mkMessage 1 (Some "hello") (Some 100) false.

Definition hello_event : Event := mkEvent (Some "hello") (Some hello_message) (Some 100).

Definition relay_task : Task := mkTask "relay" [100] [200; 300].

(** A second task on the same source, left with the default settings. *)
Definition plain_task : Task := mkTask "plain" [100] [400].

Definition hello_state : State :=
  mkState {[ 1 := [relay_task] ]} {[ 1 := {[ "relay"%string := raw_forward_settings ]} ]}
          ∅ (Some (new_queue 10000)) 0 [] 0.

Definition relay_200 : Job := mkJob 1 5 200 (ForwardOrig (Some hello_message)).
Definition relay_300 : Job := mkJob 1 5 300 (ForwardOrig (Some hello_message)).

(** A queue of capacity one that is already full. *)
Definition full_state : State :=
  mkState {[ 1 := [relay_task] ]} {[ 1 := {[ "relay"%string := raw_forward_settings ]} ]}
          ∅ (Some (mkQueue 1 [relay_200] 1)) 0 [] 0.

(** The platform answers the first call with a flood wait of five
    seconds and delivers afterwards; every target resolves. *)
Definition flood_net : Network :=
  mkNetwork
    (fun _ _ target_id => Some (target_id + 1000))
    (fun tr _ _ _ => match tr with [] => FloodWait (Some 5) | _ => Delivered end)
    (fun tr _ _ _ => match tr with [] => FloodWait (Some 5) | _ => Delivered end).

(** No target resolves. *)
Definition offline_net : Network :=
  mkNetwork (fun _ _ _ => None) (fun _ _ _ _ => Failed) (fun _ _ _ _ => Failed).

Definition two_jobs_state : State :=
  mkState ∅ ∅ ∅ (Some (mkQueue 10 [relay_200; relay_300] 2)) 0 [] 0.

Definition cached_state : State :=
  mkState ∅ ∅ {[ 1 := {[ 200 := 1200 ]} ]} None 0 [] 0.

End Scenario.

(** ** What the handler may change *)

Definition within_capacity (q : Queue) : Prop := maxsize q ≤ 0 ∨ qsize q ≤ maxsize q.

Definition queue_within_capacity (st : State) : Prop :=
  ∀ q, send_queue st = Some q → within_capacity q.

(** [q'] is [q] with jobs added at the tail, each counted as unfinished. *)
Definition extends_queue (q q' : option Queue) : Prop :=
  match q, q' with
  | None, None => True
  | Some q, Some q' => ∃ added, q' = enqueued added q
  | _, _ => False
  end.

Definition settings_lookup (user_id : Z) (label : string) (st : State) : option Settings :=
  tasks_settings st !! user_id ≫= (fun per_user => per_user !! label).

(** Tasks, resolved targets and clock stay; the queue only grows at its
    tail and stays within its capacity; settings already stored stay. *)
Definition handler_effect (st st' : State) : Prop :=
  tasks_cache st' = tasks_cache st
  ∧ target_entity_cache st' = target_entity_cache st
  ∧ clock st' = clock st
  ∧ extends_queue (send_queue st) (send_queue st')
  ∧ (queue_within_capacity st → queue_within_capacity st')
  ∧ ∀ user_id label settings,
      settings_lookup user_id label st = Some settings →
      settings_lookup user_id label st' = Some settings.

Definition has_handler_effect {A} (m : M A) : Prop :=
  ∀ st st' o, m st = (st', o) → handler_effect st st'.

(** A task the handler passes over for this chat and direction. *)
Definition passed_over (user_id chat_id : Z) (is_outgoing : bool) (st : State) (task : Task)
    : Prop :=
  chat_id ∉ source_ids task
  ∨ ∃ settings,
      settings_lookup user_id (label task) st = Some settings
      ∧ (control settings = false ∨ (outgoing settings = false ∧ is_outgoing = true)).

Definition text_job (user_id : Z) (client : Client) (om : string) (target_id : Z) : Job :=
  mkJob user_id client target_id (Text om).

(** Nothing for the handler to forward: no text or a blank one, no chat
    id, no task list, or only tasks that are passed over. *)
Definition nothing_to_forward (user_id : Z) (event : Event) (st : State) : Prop :=
  match event_text event with
  | None => True
  | Some message_text =>
      PyStr.strip message_text = ""%string
      ∨ match event_chat_id event with
        | None => True
        | Some chat_id =>
            match tasks_cache st !! user_id with
            | None => True
            | Some user_tasks =>
                Forall (passed_over user_id chat_id (event_is_outgoing event) st) user_tasks
            end
        end
  end.

Definition is_get_input_entity (e : Effect) : bool :=
  match e with GetInputEntity _ _ _ _ => true | _ => false end.

Definition is_failed_get_input_entity (e : Effect) : bool :=
  match e with GetInputEntity _ _ _ None => true | _ => false end.

(** What a run of the background resolver does, [new] being what it adds
    to the trace: at most [budget] calls to the platform, a pause of
    [retry_seconds] for each failed call, no change to the queue, and no
    cached entity lost. *)
Definition background_run (retry_seconds : Z) (budget : nat) (st st' : State)
    (new : list Effect) : Prop :=
  trace st' = (trace st ++ new)%list
  ∧ (count_effects is_get_input_entity new ≤ budget)%nat
  ∧ clock st'
    = clock st + retry_seconds * Z.of_nat (count_effects is_failed_get_input_entity new)
  ∧ send_queue st' = send_queue st
  ∧ ∀ u t entity, cache_lookup u t st = Some entity → cache_lookup u t st' = Some entity.

(** The settings [setdefault] hands out: the stored ones, else the defaults. *)
Definition current_settings (user_id : Z) (label : string) (st : State) : Settings :=
  default _make_default_task_settings (settings_lookup user_id label st).

(** Everything but the settings store and the trace. *)
Definition same_outside_settings (st st' : State) : Prop :=
  tasks_cache st' = tasks_cache st
  ∧ target_entity_cache st' = target_entity_cache st
  ∧ send_queue st' = send_queue st
  ∧ clock st' = clock st
  ∧ trace st' = trace st.

(** Each handler a client holds is the one recorded for its user, and no
    user has two. *)
Definition one_handler_per_user (reg : Registry) : Prop :=
  NoDup ((fun ch => handler_user ch.2) <$> event_handlers reg)
  ∧ ∀ client handler,
      (client, handler) ∈ event_handlers reg →
      handler_registered reg !! handler_user handler = Some handler.

(** A run of registrations, each with its own luck at [add_event_handler]. *)
Fixpoint register_all (calls : list (bool * Z * Client)) (reg : Registry) : Registry :=
  match calls with
  | [] => reg
  | (add_raises, user_id, client) :: rest =>
      register_all rest
        (ensure_handler_registered_for_user add_raises user_id client reg).1
  end.

(** No queue yet, or one without a bound ([maxsize <= 0]). *)
Definition queue_unbounded (st : State) : Prop :=
  ∀ q, send_queue st = Some q → maxsize q ≤ 0.

(** The settings after [_toggle_task_setting], in terms of those before. *)
Definition toggled_setting (which : string) (s : Settings) : Settings :=
  if (which =? "outgoing")%string then with_outgoing (negb (outgoing s)) s
  else if (which =? "forwardtag")%string then with_forward_tag (negb (forward_tag s)) s
  else if (which =? "control")%string then with_control (negb (control s)) s
  else s.

(** The filter flags after [_toggle_filter], in terms of those before. *)
Definition toggled_filter (key : string) (fs : Filters) : Filters :=
  match filter_get key fs with
  | Some b => filter_set key (negb b) fs
  | None => fs
  end.

(** A computation that leaves every task's settings as they were. *)
Definition keeps_settings {A} (m : M A) : Prop :=
  ∀ st st' o, m st = (st', o) → tasks_settings st' = tasks_settings st.

(** A computation that never waits while the queue has no bound. *)
Definition runs_freely {A} (m : M A) : Prop :=
  ∀ st st', queue_unbounded st → m st ≠ (st', Parked).

(** ** More scenarios *)

Module Example.
Import Scenario.

(** [raw_text] on, [forward_tag] off: the text itself is forwarded. *)
Definition text_settings : Settings :=
  mkSettings true false true (mkFilters true false false false false false) "" "".

Definition text_state : State :=
  mkState {[ 1 := [relay_task] ]} {[ 1 := {[ "relay"%string := text_settings ]} ]}
          ∅ (Some (new_queue 10000)) 0 [] 0.

(** The handler runs before [start_send_workers] made the queue. *)
Definition no_queue_state : State :=
  mkState {[ 1 := [relay_task] ]} {[ 1 := {[ "relay"%string := raw_forward_settings ]} ]}
          ∅ None 0 [] 0.

(** The task exists and nothing was stored for it yet. *)
Definition fresh_state : State :=
  mkState {[ 1 := [relay_task] ]} ∅ ∅ (Some (new_queue 10000)) 0 [] 0.

(** A message of another chat. *)
Definition other_event : Event :=
  mkEvent (Some "hello") (Some (mkMessage 2 (Some "hello") (Some 999) false)) (Some 999).

Definition text_200 : Job := mkJob 1 5 200 (Text "hello").

Definition text_job_state : State :=
  mkState ∅ ∅ ∅ (Some (mkQueue 10 [text_200] 1)) 0 [] 0.

Definition cached_job_state : State :=
  mkState ∅ ∅ {[ 1 := {[ 200 := 1200 ]} ]} (Some (mkQueue 10 [text_200] 1)) 0 [] 0.

(** Every target resolves and every send is delivered. *)
Definition online_net : Network :=
  mkNetwork (fun _ _ target_id => Some (target_id + 1000))
            (fun _ _ _ _ => Delivered) (fun _ _ _ _ => Delivered).

Definition idle_pool : WorkerPool := mkWorkerPool false [].

(** More than [GC_INTERVAL] after the last collection, and before the
    queue exists. *)
Definition late_state : State :=
  mkState {[ 1 := [relay_task] ]} {[ 1 := {[ "relay"%string := raw_forward_settings ]} ]}
          ∅ None 1000 [] 0.

(** [asyncio.Queue(maxsize=0)]: a queue of any length. *)
Definition unbounded_state : State :=
  mkState {[ 1 := [relay_task] ]} {[ 1 := {[ "relay"%string := raw_forward_settings ]} ]}
          ∅ (Some (new_queue 0)) 0 [] 0.

End Example.

(** * Properties *)

(** ** The filter engine *)

Lemma affix_loop_spec prefix suffix deduped final :
  affix_loop prefix suffix deduped final
  = (final ++ List.map (affixed prefix suffix) deduped)%list.
Proof.
  revert final.
  induction deduped as [|line rest IH]; intros final; simpl.
  - by rewrite app_nil_r.
  - rewrite IH. unfold py_append. by rewrite <- app_assoc.
Qed.

Lemma dedupe_loop_spec results deduped seen :
  dedupe_loop results deduped seen
  = (deduped ++ filter (fun y => y ∉ seen) (first_occurrences results))%list.
Proof.
  revert deduped seen.
  induction results as [|r rest IH]; intros deduped seen; simpl.
  - by rewrite app_nil_r.
  - destruct (decide (r ∈ seen)) as [Hin|Hout].
    + rewrite IH, filter_cons_False by (intros H; by apply H).
      f_equal. rewrite list_filter_filter.
      apply list_filter_iff. intros y. split; [|tauto].
      intros Hy. split; [done|]. intros ->. by apply Hy.
    + rewrite IH, filter_cons_True by done.
      unfold py_append. rewrite <- app_assoc. simpl. do 2 f_equal.
      rewrite list_filter_filter.
      apply list_filter_iff. intros y.
      rewrite not_elem_of_union, not_elem_of_singleton. tauto.
Qed.

Lemma dedupe_first_occurrences results : dedupe results = first_occurrences results.
Proof.
  unfold dedupe. rewrite dedupe_loop_spec. simpl.
  induction (first_occurrences results) as [|x l IH]; [done|].
  rewrite filter_cons_True by apply not_elem_of_empty. by rewrite IH.
Qed.

Lemma elem_of_first_occurrences x l : x ∈ first_occurrences l ↔ x ∈ l.
Proof.
  induction l as [|y rest IH]; simpl; [done|].
  rewrite !elem_of_cons, list_elem_of_filter, IH.
  destruct (decide (x = y)); tauto.
Qed.

Lemma NoDup_first_occurrences l : NoDup (first_occurrences l).
Proof.
  induction l as [|x rest IH]; simpl.
  - constructor.
  - apply NoDup_cons. split.
    + rewrite list_elem_of_filter. by intros [Hne _].
    + by apply NoDup_filter.
Qed.

Lemma string_app_cons c (a b : string) :
  (String c a ++ b)%string = String c (a ++ b)%string.
Proof. reflexivity. Qed.

Lemma string_length_app (a b : string) :
  String.length (a ++ b)%string = (String.length a + String.length b)%nat.
Proof.
  induction a as [|c a IH]; [done|].
  rewrite string_app_cons. simpl. by rewrite IH.
Qed.

Lemma string_app_inj_r (suffix a b : string) :
  (a ++ suffix)%string = (b ++ suffix)%string → a = b.
Proof.
  intros H.
  assert (Hlen : String.length a = String.length b).
  { apply (f_equal String.length) in H.
    rewrite !string_length_app in H. lia. }
  revert b H Hlen.
  induction a as [|c a IH]; intros [|d b] H Hlen; simpl in Hlen; try done.
  rewrite !string_app_cons in H.
  injection H as -> H. f_equal. apply IH; [done | lia].
Qed.

Lemma affixed_inj prefix suffix : Inj (=) (=) (affixed prefix suffix).
Proof.
  intros a b H. unfold affixed in H.
  apply (String.app_inj prefix) in H.
  by apply string_app_inj_r in H.
Qed.

Lemma search_not_iterable cls i text : Py.iter (Py.search_from cls i text) = Raise TypeError.
Proof.
  revert i. induction text as [|c rest IH]; intros i; simpl; [done|].
  destruct (cls c); [done | apply IH].
Qed.

Lemma any_of_search_raises cls text : Py.any (Py.re_search cls text) = Raise TypeError.
Proof. unfold Py.any, Py.re_search. by rewrite search_not_iterable. Qed.

(** Every path but [raw_text] stops at [any(re.search(...))]. *)
Lemma collect_results_without_raw_text fs text :
  raw_text fs = false → collect_results fs text = Raise TypeError.
Proof.
  intros Hraw. unfold collect_results. rewrite Hraw.
  by rewrite any_of_search_raises.
Qed.

Lemma collect_results_raw_text fs text :
  raw_text fs = true → collect_results fs text = Ok [text].
Proof. intros Hraw. unfold collect_results. by rewrite Hraw. Qed.

Lemma apply_filters_unfold message_text s :
  _apply_filters_and_prefix_suffix message_text s
  = match collect_results (filters s) (PyStr.strip message_text) with
    | Ok results =>
        Ok (List.map (affixed (prefix s) (suffix s)) (first_occurrences results))
    | Raise e => Raise e
    end.
Proof.
  unfold _apply_filters_and_prefix_suffix, rbind.
  destruct (collect_results _ _) as [results|e]; [|done].
  by rewrite affix_loop_spec, dedupe_first_occurrences.
Qed.

(** C5. Whatever the text and the settings, the lines left after
    filtering and deduplication are each turned into prefix + line +
    suffix, nothing inserted in between, and the value of the
    [add_prefix_suffix] flag makes no difference to the output. *)
Theorem prefix_suffix_on_every_surviving_line message_text s b :
  _apply_filters_and_prefix_suffix message_text s
  = match collect_results (filters s) (PyStr.strip message_text) with
    | Ok results =>
        Ok (List.map (fun line => (prefix s ++ line ++ suffix s)%string) (dedupe results))
    | Raise e => Raise e
    end
  ∧ _apply_filters_and_prefix_suffix message_text (with_add_prefix_suffix b s)
    = _apply_filters_and_prefix_suffix message_text s.
Proof.
  split.
  - rewrite apply_filters_unfold.
    destruct (collect_results _ _); [|done].
    by rewrite dedupe_first_occurrences.
  - destruct s as [o f c [rt n a ra rn aps] p x]. reflexivity.
Qed.

(** C6. With the [raw_text] flag on, the output is the single line
    prefix + text + suffix, where text is the trimmed message, for every
    value of the five other filter flags; for a text that is already
    trimmed and not empty this is [prefix + text + suffix] itself. *)
Theorem raw_text_output_is_single_affixed_text
    message_text o f c n a ra rn aps (prefix suffix : string) :
  _apply_filters_and_prefix_suffix message_text
    (mkSettings o f c (mkFilters true n a ra rn aps) prefix suffix)
  = Ok [(prefix ++ PyStr.strip message_text ++ suffix)%string]
  ∧ (PyStr.strip message_text = message_text → message_text ≠ ""%string →
     _apply_filters_and_prefix_suffix message_text
       (mkSettings o f c (mkFilters true n a ra rn aps) prefix suffix)
     = Ok [(prefix ++ message_text ++ suffix)%string]).
Proof.
  split; [reflexivity|].
  intros Htrimmed _.
  change (Ok [(prefix ++ PyStr.strip message_text ++ suffix)%string]
          = Ok [(prefix ++ message_text ++ suffix)%string]).
  by rewrite Htrimmed.
Qed.

(** C9. On "abc 123 def" with only [removed_alphabetic] on, the engine
    does not return ["abc"; "def"]: it raises [TypeError] while computing
    [has_digit], before any token is looked at, and so it does for every
    text once [raw_text] is off. *)
Theorem removed_alphabetic_raises_TypeError :
  let fs := mkFilters false false false true false false in
  collect_results fs "abc 123 def" = Raise TypeError
  ∧ _apply_filters_and_prefix_suffix "abc 123 def"
      (mkSettings true true true fs "" "") = Raise TypeError
  ∧ ∀ text n a ra rn aps,
      collect_results (mkFilters false n a ra rn aps) text = Raise TypeError.
Proof.
  repeat split; try reflexivity.
  intros. by apply collect_results_without_raw_text.
Qed.

(** C10. With [numbers_only], [removed_alphabetic] and [removed_numeric]
    on, the text "7 abc 7" does not come out as ["7 abc 7"; "abc"; "7"],
    the union of the three filters' results with the second "7" removed:
    the engine raises [TypeError] at [has_digit], as it does for every
    text and all settings with [raw_text] off, so that no union of several
    filters' results is ever formed and the engine returns nothing but the
    one line of [raw_text]. The statements that form the union and reduce
    it are in place: for this text the four tests would append
    ["7 abc 7"; "abc"; "7"; "7"], and the two loops after them turn any
    list of results into its first occurrences, in their order, each
    once, with prefix and suffix attached. *)
Theorem several_filters_raise_before_the_union :
  let fs := mkFilters false true false true true false in
  _apply_filters_and_prefix_suffix "7 abc 7" (mkSettings true true true fs "" "")
  = Raise TypeError
  ∧ (∀ message_text s,
       raw_text (filters s) = false →
       _apply_filters_and_prefix_suffix message_text s = Raise TypeError)
  ∧ (∀ message_text s out,
       _apply_filters_and_prefix_suffix message_text s = Ok out →
       raw_text (filters s) = true
       ∧ out = [(prefix s ++ PyStr.strip message_text ++ suffix s)%string])
  ∧ append_filter_results fs "7 abc 7" (PyStr.re_split_ws "7 abc 7") true true []
    = ["7 abc 7"; "abc"; "7"; "7"]%string
  ∧ affix_loop "" "" (dedupe ["7 abc 7"; "abc"; "7"; "7"]%string) []
    = ["7 abc 7"; "abc"; "7"]%string
  ∧ ∀ results prefix suffix,
      let final := affix_loop prefix suffix (dedupe results) [] in
      final = List.map (fun line => (prefix ++ line ++ suffix)%string)
                (first_occurrences results)
      ∧ NoDup final
      ∧ ∀ line, line ∈ results ↔ (prefix ++ line ++ suffix)%string ∈ final.
Proof.
  intros fs.
  assert (Hoff : ∀ message_text s,
            raw_text (filters s) = false →
            _apply_filters_and_prefix_suffix message_text s = Raise TypeError).
  { intros message_text s Hraw. rewrite apply_filters_unfold.
    by rewrite collect_results_without_raw_text. }
  split_and!.
  - by apply Hoff.
  - exact Hoff.
  - intros message_text s out Hout.
    destruct (raw_text (filters s)) eqn:Hraw.
    + split; [done|]. rewrite apply_filters_unfold in Hout.
      rewrite (collect_results_raw_text _ _ Hraw) in Hout. by injection Hout as <-.
    + by rewrite (Hoff _ _ Hraw) in Hout.
  - reflexivity.
  - reflexivity.
  - intros results prefix suffix final.
    assert (Hfinal : final = List.map (affixed prefix suffix) (first_occurrences results)).
    { unfold final. by rewrite affix_loop_spec, dedupe_first_occurrences. }
    split_and!; [exact Hfinal | |].
    + rewrite Hfinal.
      apply (NoDup_fmap_2 (affixed prefix suffix) (Inj0 := affixed_inj _ _)).
      apply NoDup_first_occurrences.
    + intros line. rewrite Hfinal. rewrite <- elem_of_first_occurrences.
      change (prefix ++ line ++ suffix)%string with (affixed prefix suffix line).
      split.
      * intros Hin. apply list_elem_of_fmap. by exists line.
      * intros Hin. apply list_elem_of_fmap in Hin as (line' & Heq & Hin).
        by rewrite (affixed_inj prefix suffix _ _ Heq).
Qed.

(** ** The event handler *)

Lemma set_send_queue_same st q : send_queue st = Some q → set_send_queue (Some q) st = st.
Proof. destruct st; simpl; by intros ->. Qed.

Lemma set_send_queue_twice q1 q2 st :
  set_send_queue q2 (set_send_queue q1 st) = set_send_queue q2 st.
Proof. reflexivity. Qed.

Lemma enqueued_nil q : enqueued [] q = q.
Proof.
  destruct q. unfold enqueued; simpl. by rewrite app_nil_r, Z.add_0_r.
Qed.

Lemma enqueued_cons job jobs q :
  enqueued jobs (enqueued [job] q) = enqueued (job :: jobs) q.
Proof.
  unfold enqueued; simpl. rewrite <- app_assoc. simpl. f_equal. lia.
Qed.

Lemma has_room_not_full q n : has_room q (S n) → full q = false.
Proof.
  unfold has_room, full. intros [H|H].
  - by rewrite (proj2 (Z.leb_le _ _) H).
  - destruct (maxsize q <=? 0); [done|]. apply Z.leb_gt. lia.
Qed.

Lemma has_room_step q job n : has_room q (S n) → has_room (enqueued [job] q) n.
Proof.
  unfold has_room, enqueued, qsize; simpl. rewrite length_app; simpl.
  intros [H|H]; [by left | right; lia].
Qed.

Lemma queue_put_room job st q :
  send_queue st = Some q → full q = false →
  queue_put job st = (set_send_queue (Some (enqueued [job] q)) st, Done tt).
Proof.
  intros Hq Hfull. unfold queue_put, put_nowait. by rewrite Hq, Hfull.
Qed.

Lemma queue_put_full job st q :
  send_queue st = Some q → full q = true → queue_put job st = (st, Parked).
Proof. intros Hq Hfull. unfold queue_put. by rewrite Hq, Hfull. Qed.

Lemma relay_all_targets user_id client event settings out_message targets st q :
  forward_tag settings = true → raw_text (filters settings) = true →
  send_queue st = Some q → has_room q (length targets) →
  for_each targets (enqueue_for_target user_id client event settings [out_message]) st
  = (set_send_queue (Some (enqueued (relay_job user_id client event <$> targets) q)) st,
     Done tt).
Proof.
  intros Hfwd Hraw. revert st q.
  induction targets as [|t rest IH]; intros st q Hq Hroom; simpl.
  - unfold ret. by rewrite enqueued_nil, set_send_queue_same.
  - unfold bind at 1, enqueue_for_target at 1, try_except, bind, gets.
    rewrite Hq, Hfwd, Hraw. simpl.
    rewrite (queue_put_room _ _ _ Hq (has_room_not_full _ _ Hroom)).
    rewrite (IH _ (enqueued [relay_job user_id client event t] q)); [|done|].
    + by rewrite set_send_queue_twice, enqueued_cons.
    + by apply has_room_step.
Qed.

Lemma strip_nonempty message_text :
  PyStr.strip message_text ≠ ""%string →
  PyStr.nonempty message_text = true ∧ PyStr.nonempty (PyStr.strip message_text) = true.
Proof.
  intros H. split.
  - destruct message_text; [by destruct H | done].
  - destruct (PyStr.strip message_text); [by destruct H | done].
Qed.

Lemma apply_filters_raw_text message_text settings :
  raw_text (filters settings) = true →
  _apply_filters_and_prefix_suffix message_text settings
  = Ok [affixed (prefix settings) (suffix settings) (PyStr.strip message_text)].
Proof.
  intros Hraw. rewrite apply_filters_unfold.
  by rewrite (collect_results_raw_text _ _ Hraw).
Qed.

Lemma settings_setdefault_present user_id label per_user settings st :
  tasks_settings st !! user_id = Some per_user → per_user !! label = Some settings →
  settings_setdefault user_id label st = (st, Done settings).
Proof. intros Hu Hl. unfold settings_setdefault. by rewrite Hu, Hl. Qed.

Lemma optimized_gc_run st : optimized_gc st = (after_gc st, Done tt).
Proof.
  unfold optimized_gc, after_gc, bind, gets.
  by destruct (GC_INTERVAL <? clock st - _last_gc_run st).
Qed.

Lemma after_gc_not_due st : clock st - _last_gc_run st ≤ GC_INTERVAL → after_gc st = st.
Proof.
  intros H. unfold after_gc.
  by rewrite (proj2 (Z.ltb_ge _ _) H).
Qed.

Lemma after_gc_tasks_cache st : tasks_cache (after_gc st) = tasks_cache st.
Proof. unfold after_gc. by destruct (_ <? _). Qed.

Lemma after_gc_tasks_settings st : tasks_settings (after_gc st) = tasks_settings st.
Proof. unfold after_gc. by destruct (_ <? _). Qed.

Lemma after_gc_target_entity_cache st :
  target_entity_cache (after_gc st) = target_entity_cache st.
Proof. unfold after_gc. by destruct (_ <? _). Qed.

Lemma after_gc_send_queue st : send_queue (after_gc st) = send_queue st.
Proof. unfold after_gc. by destruct (_ <? _). Qed.

Lemma after_gc_clock st : clock (after_gc st) = clock st.
Proof. unfold after_gc. by destruct (_ <? _). Qed.

(** The handler is the collection step followed by the rest. *)
Lemma handler_run user_id client event st :
  _hot_message_handler user_id client event st
  = handler_past_gc user_id client event (after_gc st).
Proof.
  unfold _hot_message_handler, handler_past_gc, try_except, bind.
  by rewrite optimized_gc_run.
Qed.

(** The handler up to the loop over the user's tasks. *)
Lemma handler_reaches_tasks user_id client event message_text chat_id user_tasks st :
  event_text event = Some message_text →
  PyStr.strip message_text ≠ ""%string →
  event_chat_id event = Some chat_id →
  tasks_cache st !! user_id = Some user_tasks →
  user_tasks ≠ [] →
  handler_past_gc user_id client event st
  = try_except
      (for_each user_tasks
         (process_task user_id client event message_text chat_id (event_is_outgoing event)))
      is_Exception
      (fun e => logger (HandlerError user_id e)) st.
Proof.
  intros Htext Hstrip Hchat Htasks Hne.
  destruct (strip_nonempty _ Hstrip) as [Hn1 Hn2].
  unfold handler_past_gc, forward_event, try_except.
  rewrite Htext, Hn1, Hn2, Hchat. simpl.
  unfold bind, gets. rewrite Htasks.
  by destruct user_tasks.
Qed.

Lemma process_task_relays_original
    user_id client event message_text chat_id is_outgoing task per_user settings st q :
  chat_id ∈ source_ids task →
  tasks_settings st !! user_id = Some per_user →
  per_user !! label task = Some settings →
  control settings = true →
  outgoing settings = true ∨ is_outgoing = false →
  forward_tag settings = true →
  raw_text (filters settings) = true →
  send_queue st = Some q →
  has_room q (length (target_ids task)) →
  process_task user_id client event message_text chat_id is_outgoing task st
  = (set_send_queue
       (Some (enqueued (relay_job user_id client event <$> target_ids task) q)) st,
     Done tt).
Proof.
  intros Hsrc Hu Hl Hctl Hout Hfwd Hraw Hq Hroom.
  unfold process_task.
  rewrite bool_decide_eq_true_2 by done.
  unfold bind at 1. rewrite (settings_setdefault_present _ _ _ _ _ Hu Hl).
  rewrite Hctl; simpl.
  replace (negb (outgoing settings) && is_outgoing) with false
    by (destruct Hout as [-> | ->]; [done | by rewrite andb_false_r]).
  unfold bind at 1. rewrite (apply_filters_raw_text _ _ Hraw); simpl.
  by rewrite (relay_all_targets _ _ _ _ _ _ _ _ Hfwd Hraw Hq Hroom).
Qed.

Lemma handler_relays_original
    user_id client event message_text chat_id task per_user settings st q :
  event_text event = Some message_text →
  PyStr.strip message_text ≠ ""%string →
  event_chat_id event = Some chat_id →
  chat_id ∈ source_ids task →
  tasks_cache st !! user_id = Some [task] →
  tasks_settings st !! user_id = Some per_user →
  per_user !! label task = Some settings →
  control settings = true →
  outgoing settings = true ∨ event_is_outgoing event = false →
  forward_tag settings = true →
  raw_text (filters settings) = true →
  send_queue st = Some q →
  has_room q (length (target_ids task)) →
  handler_past_gc user_id client event st
  = (set_send_queue
       (Some (enqueued (relay_job user_id client event <$> target_ids task) q)) st,
     Done tt).
Proof.
  intros Htext Hstrip Hchat Hsrc Htasks Hu Hl Hctl Hout Hfwd Hraw Hq Hroom.
  rewrite (handler_reaches_tasks _ _ _ _ _ _ _ Htext Hstrip Hchat Htasks) by done.
  unfold try_except; simpl. unfold bind at 1.
  by rewrite (process_task_relays_original _ _ _ _ _ _ _ _ _ _ _
                Hsrc Hu Hl Hctl Hout Hfwd Hraw Hq Hroom).
Qed.

Lemma handler_never_raises user_id client event st e :
  (_hot_message_handler user_id client event st).2 ≠ Raised e.
Proof.
  unfold _hot_message_handler, try_except.
  match goal with |- context [match ?body st with _ => _ end] =>
    destruct (body st) as [st' [[]|e'|]] end; simpl; done.
Qed.

Lemma for_each_raises_inside {A} (body : A → M unit) pre x post st st1 st2 e :
  for_each pre body st = (st1, Done tt) →
  body x st1 = (st2, Raised e) →
  for_each (pre ++ x :: post) body st = (st2, Raised e).
Proof.
  revert st. induction pre as [|a pre IH]; intros st; simpl.
  - intros [= ->] Hx. unfold bind. by rewrite Hx.
  - unfold bind. destruct (body a st) as [st' [[]|e'|]]; try done.
    intros Hpre Hx. by apply IH.
Qed.

Lemma qsize_enqueued jobs q : qsize (enqueued jobs q) = qsize q + Z.of_nat (length jobs).
Proof. unfold qsize, enqueued; simpl. rewrite length_app. lia. Qed.

(** Putting [jobs] one after the other with nobody taking items out. *)
Lemma puts_fill_queue jobs q st :
  send_queue st = Some q → 0 < maxsize q → qsize q ≤ maxsize q →
  let room := Z.to_nat (maxsize q - qsize q) in
  for_each jobs queue_put st
  = (set_send_queue (Some (enqueued (take room jobs) q)) st,
     if (length jobs <=? room)%nat then Done tt else Parked).
Proof.
  revert q st. induction jobs as [|job rest IH]; intros q st Hq Hmax Hsize room; simpl.
  - rewrite take_nil, enqueued_nil, set_send_queue_same by done. reflexivity.
  - unfold bind. destruct (full q) eqn:Hfull.
    + rewrite (queue_put_full _ _ _ Hq Hfull).
      assert (room = 0%nat) as ->.
      { unfold room, full in *. destruct (maxsize q <=? 0); [done|].
        apply Z.leb_le in Hfull. lia. }
      simpl. by rewrite enqueued_nil, set_send_queue_same.
    + rewrite (queue_put_room _ _ _ Hq Hfull).
      assert (Hlt : qsize q < maxsize q).
      { unfold full in Hfull. destruct (maxsize q <=? 0) eqn:E; [apply Z.leb_le in E; lia|].
        by apply Z.leb_gt in Hfull. }
      set (q' := enqueued [job] q).
      assert (Hroom : room = S (Z.to_nat (maxsize q' - qsize q'))).
      { unfold room, q'. rewrite qsize_enqueued. simpl. lia. }
      rewrite (IH q') ; [|done|done|].
      * rewrite Hroom. simpl. unfold q'.
        by rewrite set_send_queue_twice, enqueued_cons.
      * unfold q'. rewrite qsize_enqueued. simpl. lia.
Qed.

(** C1 (as amended). In the scenario of the claim (sources {100},
    targets [200; 300], [raw_text] and [forward_tag] on, everything else
    at its default, a non-outgoing "hello" in chat 100, room in the queue)
    the handler enqueues exactly two jobs, one for 200 and one for 300,
    and each carries the original message to relay, not the text. Apart
    from the queue the state is the one [optimized_gc] leaves. *)
Theorem hello_is_relayed_to_both_targets
    user_id client label event per_user st q :
  event_text event = Some "hello"%string →
  event_chat_id event = Some 100 →
  event_is_outgoing event = false →
  tasks_cache st !! user_id = Some [mkTask label [100] [200; 300]] →
  tasks_settings st !! user_id = Some per_user →
  per_user !! label
  = Some (mkSettings true true true (mkFilters true false false false false false) "" "") →
  send_queue st = Some q →
  has_room q 2 →
  _hot_message_handler user_id client event st
  = (set_send_queue
       (Some (enqueued [mkJob user_id client 200 (ForwardOrig (ev_message event));
                        mkJob user_id client 300 (ForwardOrig (ev_message event))] q))
       (after_gc st),
     Done tt).
Proof.
  intros Htext Hchat Hout Htasks Hu Hl Hq Hroom.
  rewrite handler_run.
  by rewrite (handler_relays_original user_id client event "hello" 100
                (mkTask label [100] [200; 300]) per_user _ (after_gc st) q)
    by (rewrite ?after_gc_tasks_cache, ?after_gc_tasks_settings, ?after_gc_send_queue;
        try done; try apply list_elem_of_here; by right).
Qed.

(** C7. When [forward_tag] and [raw_text] are on (the engine then returns
    one line), processing a matching task enqueues one relay job per
    target of the task, in target order: k targets give k jobs, all
    carrying the same original message. This holds for the task wherever
    it stands among the user's tasks, and the handler as a whole does
    just that, once [optimized_gc] has returned, when the task is the
    user's only one. *)
Theorem relay_shortcut_fires_once_per_target
    user_id client event message_text chat_id task per_user settings st q :
  event_text event = Some message_text →
  PyStr.strip message_text ≠ ""%string →
  event_chat_id event = Some chat_id →
  chat_id ∈ source_ids task →
  tasks_settings st !! user_id = Some per_user →
  per_user !! label task = Some settings →
  control settings = true →
  outgoing settings = true ∨ event_is_outgoing event = false →
  forward_tag settings = true →
  raw_text (filters settings) = true →
  send_queue st = Some q →
  has_room q (length (target_ids task)) →
  ∃ jobs,
    jobs = (fun target_id =>
              mkJob user_id client target_id (ForwardOrig (ev_message event)))
           <$> target_ids task
    ∧ length jobs = length (target_ids task)
    ∧ process_task user_id client event message_text chat_id
        (event_is_outgoing event) task st
      = (set_send_queue (Some (enqueued jobs q)) st, Done tt)
    ∧ (tasks_cache st !! user_id = Some [task] →
       _hot_message_handler user_id client event st
       = (set_send_queue (Some (enqueued jobs q)) (after_gc st), Done tt)).
Proof.
  intros. eexists. split; [reflexivity|].
  split; [by rewrite length_fmap|].
  split; [by eapply process_task_relays_original|].
  intros. rewrite handler_run.
  eapply handler_relays_original;
    rewrite ?after_gc_tasks_cache, ?after_gc_tasks_settings, ?after_gc_send_queue;
    eassumption.
Qed.

(** C2. The loop body that enqueues for one target does not drop
    anything when the queue is full: it parks in [put], leaving state and
    log as they were. With a capacity of N and more than N jobs put in a
    row, the first N are queued and the producer is left parked. *)
Theorem put_on_full_queue_parks_producer
    user_id client event settings out_messages target_id N jobs st q :
  send_queue st = Some q → full q = true → out_messages ≠ [] →
  0 < N → N < Z.of_nat (length jobs) →
  enqueue_for_target user_id client event settings out_messages target_id st
  = (st, Parked)
  ∧ for_each jobs queue_put (set_send_queue (Some (new_queue N)) st)
    = (set_send_queue (Some (enqueued (take (Z.to_nat N) jobs) (new_queue N))) st,
       Parked).
Proof.
  intros Hq Hfull Hout HN Hlen. split.
  - unfold enqueue_for_target, try_except, bind, gets. rewrite Hq.
    destruct (forward_tag settings && raw_text (filters settings)
              && (length out_messages =? 1)%nat).
    + by rewrite (queue_put_full _ _ _ Hq Hfull).
    + destruct out_messages as [|om rest]; [done|]. simpl. unfold bind.
      by rewrite (queue_put_full _ _ _ Hq Hfull).
  - assert (Hsize : qsize (new_queue N) = 0) by done.
    rewrite (puts_fill_queue jobs (new_queue N)) by (simpl; try done; lia).
    simpl. rewrite Hsize, Z.sub_0_r, set_send_queue_twice.
    destruct (length jobs <=? Z.to_nat N)%nat eqn:E; [|done].
    apply Nat.leb_le in E. lia.
Qed.

(** C3 (as amended). When processing one of the user's tasks raises, the
    handler logs the exception and returns; what the tasks before it had
    enqueued stays, and the tasks after it are not looked at. The tasks
    are processed from the state [optimized_gc] leaves. *)
Theorem failing_task_ends_the_handler
    user_id client event message_text chat_id pre failing post st st1 st2 e :
  event_text event = Some message_text →
  PyStr.strip message_text ≠ ""%string →
  event_chat_id event = Some chat_id →
  tasks_cache st !! user_id = Some (pre ++ failing :: post)%list →
  for_each pre
    (process_task user_id client event message_text chat_id (event_is_outgoing event))
    (after_gc st)
  = (st1, Done tt) →
  process_task user_id client event message_text chat_id (event_is_outgoing event)
    failing st1
  = (st2, Raised e) →
  _hot_message_handler user_id client event st
  = (set_trace (trace st2 ++ [Logged (HandlerError user_id e)]) st2, Done tt).
Proof.
  intros Htext Hstrip Hchat Htasks Hpre Hfail.
  rewrite handler_run. rewrite <- after_gc_tasks_cache in Htasks.
  rewrite (handler_reaches_tasks _ _ _ _ _ _ _ Htext Hstrip Hchat Htasks)
    by (by destruct pre).
  unfold try_except.
  by rewrite (for_each_raises_inside _ pre failing post (after_gc st) st1 st2 e Hpre Hfail).
Qed.

(** ** The resolver *)

Lemma count_effects_app p tr1 tr2 :
  count_effects p (tr1 ++ tr2) = (count_effects p tr1 + count_effects p tr2)%nat.
Proof. induction tr1 as [|e tr1 IH]; simpl; [done | rewrite IH; lia]. Qed.

Lemma cache_lookup_hit_user user_id target_id st entity :
  cache_lookup user_id target_id st = Some entity →
  ∃ d, target_entity_cache st !! user_id = Some d ∧ d !! target_id = Some entity.
Proof.
  unfold cache_lookup. destruct (target_entity_cache st !! user_id) as [d|]; [|done].
  simpl. intros H. by exists d.
Qed.

Lemma resolve_hit net user_id client target_id st entity :
  cache_lookup user_id target_id st = Some entity →
  resolve_target_entity_once net user_id client target_id st = (st, Done (Some entity)).
Proof.
  intros Hhit. destruct (cache_lookup_hit_user _ _ _ _ Hhit) as (d & Hd & _).
  unfold resolve_target_entity_once, bind, modify, gets.
  rewrite Hd. simpl. by rewrite Hhit.
Qed.

Lemma resolve_miss_success net user_id client target_id st entity :
  cache_lookup user_id target_id st = None →
  get_input_entity net (trace st) client target_id = Some entity →
  ∃ st',
    resolve_target_entity_once net user_id client target_id st = (st', Done (Some entity))
    ∧ trace st' = (trace st ++ [GetInputEntity user_id client target_id (Some entity)])%list
    ∧ cache_lookup user_id target_id st' = Some entity
    ∧ ∀ u t, (u, t) ≠ (user_id, target_id) →
             cache_lookup u t st' = cache_lookup u t st.
Proof.
  intros Hmiss Hnet.
  unfold resolve_target_entity_once, bind, modify, gets, try_except,
    call_get_input_entity, cache_store, ret.
  destruct (target_entity_cache st !! user_id) as [d|] eqn:Hd; simpl.
  - rewrite Hmiss; simpl. rewrite Hnet; simpl. rewrite Hd.
    eexists. split; [reflexivity|]. simpl. split; [done|].
    unfold cache_lookup; simpl. split.
    + by rewrite lookup_insert_eq; simpl; rewrite lookup_insert_eq.
    + intros u t Hne. destruct (decide (u = user_id)) as [->|Hu].
      * rewrite lookup_insert_eq, Hd; simpl.
        rewrite lookup_insert_ne; [done | congruence].
      * by rewrite lookup_insert_ne.
  - unfold cache_lookup at 1; simpl. rewrite lookup_insert_eq; simpl.
    rewrite lookup_empty; simpl. rewrite Hnet; simpl. rewrite lookup_insert_eq.
    eexists. split; [reflexivity|]. simpl. split; [done|].
    unfold cache_lookup; simpl. split.
    + by rewrite lookup_insert_eq; simpl; rewrite lookup_insert_eq.
    + intros u t Hne. destruct (decide (u = user_id)) as [->|Hu].
      * rewrite lookup_insert_eq, Hd; simpl.
        rewrite lookup_insert_ne; [apply lookup_empty | congruence].
      * by rewrite !lookup_insert_ne.
Qed.

Lemma resolve_miss_failure net user_id client target_id st :
  cache_lookup user_id target_id st = None →
  get_input_entity net (trace st) client target_id = None →
  ∃ st',
    resolve_target_entity_once net user_id client target_id st = (st', Done None)
    ∧ trace st' = (trace st ++ [GetInputEntity user_id client target_id None;
                                Logged (CouldNotResolve target_id user_id)])%list
    ∧ ∀ u t, cache_lookup u t st' = cache_lookup u t st.
Proof.
  intros Hmiss Hnet.
  unfold resolve_target_entity_once, bind, modify, gets, try_except,
    call_get_input_entity, logger, emit, modify, ret.
  destruct (target_entity_cache st !! user_id) as [d|] eqn:Hd; simpl.
  - rewrite Hmiss; simpl. rewrite Hnet; simpl.
    eexists. split; [reflexivity|]. simpl. split.
    + unfold py_append. by rewrite <- app_assoc.
    + done.
  - unfold cache_lookup at 1; simpl. rewrite lookup_insert_eq; simpl.
    rewrite lookup_empty; simpl. rewrite Hnet; simpl.
    eexists. split; [reflexivity|]. simpl. split.
    + unfold py_append. by rewrite <- app_assoc.
    + intros u t. unfold cache_lookup; simpl.
      destruct (decide (u = user_id)) as [->|Hu].
      * by rewrite lookup_insert_eq, Hd.
      * by rewrite lookup_insert_ne.
Qed.

Lemma is_resolver_call_true user_id target_id u c t answer :
  is_resolver_call user_id target_id (GetInputEntity u c t answer) = true
  ↔ (u, t) = (user_id, target_id).
Proof.
  simpl. rewrite andb_true_iff, !Z.eqb_eq. split; [by intros [-> ->] | by intros [= -> ->]].
Qed.

Lemma resolve_all_bound net user_id target_id calls st :
  ∃ new,
    resolve_all net calls st = ((resolve_all net calls st).1, Done tt)
    ∧ trace (resolve_all net calls st).1 = (trace st ++ new)%list
    ∧ (resolver_calls user_id target_id new
       ≤ cached_bound user_id target_id st + resolver_failures user_id target_id new)%nat.
Proof.
  revert st. induction calls as [|[[u c] t] rest IH]; intros st.
  - exists []. simpl. rewrite app_nil_r. repeat split. unfold resolver_calls; simpl. lia.
  - simpl. unfold bind.
    destruct (cache_lookup u t st) as [entity|] eqn:Hlook.
    + rewrite (resolve_hit _ _ _ _ _ _ Hlook). apply IH.
    + destruct (get_input_entity net (trace st) c t) as [entity|] eqn:Hnet.
      * destruct (resolve_miss_success _ _ _ _ _ _ Hlook Hnet)
          as (st1 & -> & Htr & Hnow & Hothers).
        destruct (IH st1) as (new & Hdone & Htrace & Hbound).
        exists (GetInputEntity u c t (Some entity) :: new).
        split; [done|]. split.
        { rewrite Htrace, Htr, <- app_assoc. done. }
        unfold resolver_calls, resolver_failures in *.
        cbn [count_effects is_resolver_failure].
        destruct (is_resolver_call user_id target_id (GetInputEntity u c t (Some entity)))
          eqn:Hkey.
        -- apply is_resolver_call_true in Hkey as [= -> ->].
           unfold cached_bound in *. rewrite Hnow in Hbound. rewrite Hlook. lia.
        -- assert (Hne : (user_id, target_id) ≠ (u, t)).
           { intros [= -> ->].
             assert (is_resolver_call u t (GetInputEntity u c t (Some entity)) = true)
               by by apply is_resolver_call_true.
             congruence. }
           unfold cached_bound in *. rewrite (Hothers _ _ Hne) in Hbound. lia.
      * destruct (resolve_miss_failure _ _ _ _ _ Hlook Hnet) as (st1 & -> & Htr & Hsame).
        destruct (IH st1) as (new & Hdone & Htrace & Hbound).
        exists (GetInputEntity u c t None :: Logged (CouldNotResolve t u) :: new).
        split; [done|]. split.
        { rewrite Htrace, Htr, <- app_assoc. done. }
        unfold resolver_calls, resolver_failures, cached_bound in *.
        rewrite Hsame in Hbound. simpl count_effects.
        change (is_resolver_failure user_id target_id (GetInputEntity u c t None))
          with (is_resolver_call user_id target_id (GetInputEntity u c t None)).
        destruct (is_resolver_call user_id target_id (GetInputEntity u c t None)); lia.
Qed.

(** *** Calls that overlap *)

Lemma resolve_until_await_run user_id client target_id st :
  ∃ st1,
    resolve_until_await user_id client target_id st
    = (st1, Done (match cache_lookup user_id target_id st with
                  | Some entity => Returned (Some entity)
                  | None => AwaitingEntity user_id client target_id
                  end))
    ∧ trace st1 = trace st
    ∧ (∀ u t, cache_lookup u t st1 = cache_lookup u t st)
    ∧ ∀ net,
        resolve_target_entity_once net user_id client target_id st
        = match cache_lookup user_id target_id st with
          | Some entity => (st1, Done (Some entity))
          | None => resolve_from_await net user_id client target_id st1
          end.
Proof.
  unfold resolve_until_await, resolve_target_entity_once, resolve_from_await,
    bind, modify, gets.
  destruct (target_entity_cache st !! user_id) as [d|] eqn:Hd.
  - exists st. split_and!; try done.
    + by destruct (cache_lookup user_id target_id st).
    + intros net. by destruct (cache_lookup user_id target_id st).
  - exists (set_target_entity_cache (<[user_id := ∅]> (target_entity_cache st)) st).
    assert (Hsame : ∀ u t,
              cache_lookup u t
                (set_target_entity_cache (<[user_id := ∅]> (target_entity_cache st)) st)
              = cache_lookup u t st).
    { intros u t. unfold cache_lookup; simpl.
      destruct (decide (u = user_id)) as [->|Hne].
      - by rewrite lookup_insert_eq, Hd.
      - by rewrite lookup_insert_ne. }
    split_and!; [|reflexivity|exact Hsame|].
    + rewrite Hsame. by destruct (cache_lookup user_id target_id st).
    + intros net. rewrite Hsame. by destruct (cache_lookup user_id target_id st).
Qed.

Lemma resolve_from_await_run net user_id client target_id st :
  ∃ st' result new,
    resolve_from_await net user_id client target_id st = (st', Done result)
    ∧ trace st' = (trace st ++ new)%list
    ∧ (∀ u t, resolver_calls u t new
              = if (user_id =? u) && (target_id =? t) then 1%nat else 0%nat)
    ∧ ∀ u t, is_Some (cache_lookup u t st) → is_Some (cache_lookup u t st').
Proof.
  unfold resolve_from_await, try_except, bind, call_get_input_entity, cache_store,
    logger, emit, modify, ret.
  destruct (get_input_entity net (trace st) client target_id) as [entity|]; simpl.
  - destruct (target_entity_cache st !! user_id) as [d|] eqn:Hd; simpl.
    + eexists _, _, [_]. split_and!; [reflexivity|reflexivity| |].
      * intros u t. unfold resolver_calls. simpl. by destruct (_ && _).
      * intros u t. unfold cache_lookup; simpl.
        destruct (decide (u = user_id)) as [->|Hne].
        -- rewrite lookup_insert_eq, Hd. simpl.
           destruct (decide (t = target_id)) as [->|Hnt].
           ++ by rewrite lookup_insert_eq.
           ++ by rewrite lookup_insert_ne.
        -- by rewrite lookup_insert_ne.
    + eexists _, _, [_; _]. split_and!; [reflexivity| | |done].
      * simpl. unfold py_append. by rewrite <- app_assoc.
      * intros u t. unfold resolver_calls. simpl. by destruct (_ && _).
  - eexists _, _, [_; _]. split_and!; [reflexivity| | |done].
    + simpl. unfold py_append. by rewrite <- app_assoc.
    + intros u t. unfold resolver_calls. simpl. by destruct (_ && _).
Qed.

Lemma cached_bound_mono user_id target_id st st' :
  (is_Some (cache_lookup user_id target_id st) →
   is_Some (cache_lookup user_id target_id st')) →
  (cached_bound user_id target_id st' ≤ cached_bound user_id target_id st)%nat.
Proof.
  unfold cached_bound. intros H.
  destruct (cache_lookup user_id target_id st) as [e|].
  - destruct H as [e' ->]; [by exists e | done].
  - destruct (cache_lookup user_id target_id st'); lia.
Qed.

Lemma pending_call_mono user_id target_id a b call :
  (a ≤ b)%nat →
  (pending_call user_id target_id a call ≤ pending_call user_id target_id b call)%nat.
Proof. intros H. destruct call; simpl; try destruct (_ && _); lia. Qed.

Lemma pending_mono user_id target_id a b pool :
  (a ≤ b)%nat →
  (sum_list_with (pending_call user_id target_id a) pool
   ≤ sum_list_with (pending_call user_id target_id b) pool)%nat.
Proof.
  intros H. induction pool as [|call pool IH]; simpl; [done|].
  pose proof (pending_call_mono user_id target_id a b call H). lia.
Qed.

(** One turn: what it adds to the invocations it takes from what was
    pending, and nothing that was cached is lost. *)
Lemma advance_step net user_id target_id call st :
  ∃ new,
    trace (advance net call st).1 = (trace st ++ new)%list
    ∧ (∀ u t, is_Some (cache_lookup u t st) →
              is_Some (cache_lookup u t (advance net call st).1))
    ∧ (resolver_calls user_id target_id new
       + pending_call user_id target_id
           (cached_bound user_id target_id (advance net call st).1)
           (advance net call st).2
       ≤ pending_call user_id target_id (cached_bound user_id target_id st) call)%nat.
Proof.
  destruct call as [u c t|u c t|result|e]; simpl.
  - destruct (resolve_until_await_run u c t st) as (st1 & -> & Htr & Hsame & _). simpl.
    exists []. rewrite app_nil_r. split_and!; [done| |].
    + intros u' t'. by rewrite Hsame.
    + unfold resolver_calls, cached_bound. simpl. rewrite Hsame.
      destruct ((u =? user_id) && (t =? target_id)) eqn:Hkey.
      * apply andb_true_iff in Hkey as [->%Z.eqb_eq ->%Z.eqb_eq].
        destruct (cache_lookup user_id target_id st); simpl; [lia|].
        rewrite !Z.eqb_refl. simpl. lia.
      * destruct (cache_lookup u t st); simpl; rewrite ?Hkey; lia.
  - destruct (resolve_from_await_run net u c t st)
      as (st' & result & new & -> & Htr & Hcalls & Hmono). simpl.
    exists new. split_and!; [done|done|].
    rewrite Hcalls. destruct (_ && _); lia.
  - exists []. rewrite app_nil_r. split_and!; [done|done|].
    unfold resolver_calls. simpl. lia.
  - exists []. rewrite app_nil_r. split_and!; [done|done|].
    unfold resolver_calls. simpl. lia.
Qed.

Lemma pending_insert user_id target_id a pool i call call' :
  pool !! i = Some call →
  sum_list_with (pending_call user_id target_id a) (<[i := call']> pool)
  = (sum_list_with (pending_call user_id target_id a) (take i pool)
     + pending_call user_id target_id a call'
     + sum_list_with (pending_call user_id target_id a) (drop (S i) pool))%nat.
Proof.
  intros Hi. rewrite insert_take_drop by (by eapply lookup_lt_Some).
  rewrite sum_list_with_app. simpl. lia.
Qed.

Lemma pending_split user_id target_id a pool i call :
  pool !! i = Some call →
  sum_list_with (pending_call user_id target_id a) pool
  = (sum_list_with (pending_call user_id target_id a) (take i pool)
     + pending_call user_id target_id a call
     + sum_list_with (pending_call user_id target_id a) (drop (S i) pool))%nat.
Proof.
  intros Hi. rewrite <- (take_drop_middle _ _ _ Hi) at 1.
  rewrite sum_list_with_app. simpl. lia.
Qed.

(** Whatever turns the event loop gives: the invocations made and those
    still pending never exceed what was pending at the start. *)
Lemma run_schedule_bound net user_id target_id schedule pool st :
  ∃ new,
    trace (run_schedule net schedule pool st).1 = (trace st ++ new)%list
    ∧ (resolver_calls user_id target_id new
       + pending user_id target_id (run_schedule net schedule pool st).2
           (run_schedule net schedule pool st).1
       ≤ pending user_id target_id pool st)%nat.
Proof.
  revert pool st. induction schedule as [|i rest IH]; intros pool st; simpl.
  - exists []. rewrite app_nil_r. split; [done|]. unfold resolver_calls. simpl. lia.
  - destruct (pool !! i) as [call|] eqn:Hi; [|apply IH].
    destruct (advance_step net user_id target_id call st) as (new1 & Htr1 & Hmono & Hstep).
    destruct (advance net call st) as [st1 call1]. simpl in *.
    destruct (IH (<[i := call1]> pool) st1) as (new2 & Htr2 & Hrest).
    exists (new1 ++ new2)%list. split; [by rewrite Htr2, Htr1, app_assoc|].
    unfold resolver_calls in *. rewrite count_effects_app.
    etrans; [|shelve].
    etrans; [|apply Nat.add_le_mono_l; exact Hrest]. rewrite Nat.add_assoc. reflexivity.
    Unshelve.
    unfold pending.
    rewrite (pending_insert _ _ _ _ _ _ _ Hi), (pending_split _ _ _ _ _ _ Hi).
    pose proof (cached_bound_mono user_id target_id st st1 (Hmono _ _)) as Hle.
    pose proof (pending_mono user_id target_id _ _ (take i pool) Hle).
    pose proof (pending_mono user_id target_id _ _ (drop (S i) pool) Hle).
    lia.
Qed.

Lemma pending_not_started user_id target_id calls st :
  pending user_id target_id (not_started calls) st
  = (cached_bound user_id target_id st * calls_for user_id target_id calls)%nat.
Proof.
  unfold pending, not_started, calls_for.
  induction calls as [|[[u c] t] calls IH]; [simpl; lia|].
  rewrite fmap_cons. cbn [sum_list_with pending_call]. rewrite IH.
  destruct ((u =? user_id) && (t =? target_id)) eqn:Hkey.
  - rewrite filter_cons_True by done. simpl. lia.
  - rewrite filter_cons_False by (simpl; by rewrite Hkey). lia.
Qed.

(** Given its two turns back to back, a call is the uninterrupted
    [resolve_target_entity_once]. *)
Lemma advance_twice net user_id client target_id st :
  ∃ st2 result,
    resolve_target_entity_once net user_id client target_id st = (st2, Done result)
    ∧ advance net (advance net (NotStarted user_id client target_id) st).2
        (advance net (NotStarted user_id client target_id) st).1
      = (st2, Returned result).
Proof.
  simpl.
  destruct (resolve_until_await_run user_id client target_id st)
    as (st1 & -> & _ & _ & Hwhole).
  rewrite Hwhole. simpl.
  destruct (cache_lookup user_id target_id st) as [entity|]; simpl.
  - by exists st1, (Some entity).
  - destruct (resolve_from_await_run net user_id client target_id st1)
      as (st2 & result & new & Hrun & _).
    rewrite Hrun. by exists st2, result.
Qed.

Lemma insert_middle {A} (l1 l2 : list A) (x y : A) :
  <[List.length l1 := y]> (l1 ++ x :: l2)%list = (l1 ++ y :: l2)%list.
Proof. rewrite insert_app_r_alt by lia. by rewrite Nat.sub_diag. Qed.

Lemma one_after_the_other_is_resolve_all net calls finished st :
  (run_schedule net (i ← seq (length finished) (length calls); [i; i])
     (finished ++ not_started calls) st).1
  = (resolve_all net calls st).1.
Proof.
  revert finished st. induction calls as [|[[u c] t] calls IH]; intros finished st.
  - done.
  - cbn [length seq mbind list_bind app run_schedule resolve_all].
    change (not_started ((u, c, t) :: calls))
      with (NotStarted u c t :: not_started calls).
    rewrite list_lookup_middle by done.
    destruct (advance_twice net u c t st) as (st2 & result & Hwhole & Htwice).
    destruct (advance net (NotStarted u c t) st) as [st1 call1]. simpl in Htwice.
    rewrite insert_middle. cbn [run_schedule].
    rewrite list_lookup_middle by done.
    rewrite Htwice.
    rewrite insert_middle.
    unfold bind. rewrite Hwhole.
    specialize (IH (finished ++ [Returned result])%list st2).
    rewrite length_app, <- app_assoc in IH. simpl in IH.
    rewrite Nat.add_1_r in IH. exact IH.
Qed.

(** C8 (as amended). Resolution is memoised per user and target. A call
    that finds the entry cached returns it and leaves the whole state,
    trace included, as it was. In any run of calls made one after the
    other, the resolver is called for a given user and target at most
    once (not at all when the entry was cached at the start) plus once
    per failed call. A failed call returns none and leaves the entry
    absent, so that the next call for it asks the resolver again. Calls
    that overlap are not covered by that bound: a call is suspended
    between its cache test and the answer, and whatever turns the event
    loop gives the calls, the resolver is called at most once per call
    for the user and target, and not at all when the entry was cached at
    the start. Giving each call its two turns back to back is the run of
    calls one after the other. *)
Theorem resolution_is_memoised net st user_id target_id :
  (∀ client entity,
     cache_lookup user_id target_id st = Some entity →
     resolve_target_entity_once net user_id client target_id st
     = (st, Done (Some entity)))
  ∧ (∀ calls, ∃ new,
       trace (resolve_all net calls st).1 = (trace st ++ new)%list
       ∧ (resolver_calls user_id target_id new
          ≤ cached_bound user_id target_id st
            + resolver_failures user_id target_id new)%nat
       ∧ (resolver_failures user_id target_id new = 0%nat →
          (resolver_calls user_id target_id new ≤ 1)%nat)
       ∧ (is_Some (cache_lookup user_id target_id st) →
          resolver_failures user_id target_id new = 0%nat →
          resolver_calls user_id target_id new = 0%nat))
  ∧ (∀ client,
       cache_lookup user_id target_id st = None →
       get_input_entity net (trace st) client target_id = None →
       ∃ st',
         resolve_target_entity_once net user_id client target_id st = (st', Done None)
         ∧ cache_lookup user_id target_id st' = None
         ∧ ∀ client', ∃ st'' answer,
             resolve_target_entity_once net user_id client' target_id st' = (st'', answer)
             ∧ resolver_calls user_id target_id (trace st'')
               = S (resolver_calls user_id target_id (trace st')))
  ∧ (∀ schedule calls, ∃ new,
       trace (run_schedule net schedule (not_started calls) st).1 = (trace st ++ new)%list
       ∧ (resolver_calls user_id target_id new
          ≤ cached_bound user_id target_id st * calls_for user_id target_id calls)%nat)
  ∧ (∀ calls,
       (run_schedule net (one_after_the_other (length calls)) (not_started calls) st).1
       = (resolve_all net calls st).1).
Proof.
  split_and!.
  - intros client entity. apply resolve_hit.
  - intros calls.
    destruct (resolve_all_bound net user_id target_id calls st) as (new & _ & Htr & Hb).
    exists new. split; [done|]. split; [done|].
    unfold cached_bound in *. split.
    + intros H0. destruct (cache_lookup user_id target_id st); lia.
    + intros [e He] H0. rewrite He in Hb. lia.
  - intros client Hmiss Hnet.
    destruct (resolve_miss_failure _ _ _ _ _ Hmiss Hnet) as (st' & Hrun & Htr & Hsame).
    exists st'. split; [done|]. split; [by rewrite Hsame|].
    intros client'.
    assert (Hmiss' : cache_lookup user_id target_id st' = None) by by rewrite Hsame.
    assert (Hself : ∀ answer,
              is_resolver_call user_id target_id
                (GetInputEntity user_id client' target_id answer) = true)
      by (intros; by apply is_resolver_call_true).
    destruct (get_input_entity net (trace st') client' target_id) as [entity|] eqn:Hnet'.
    + destruct (resolve_miss_success _ _ _ _ _ _ Hmiss' Hnet') as (st'' & -> & Htr' & _).
      exists st'', (Done (Some entity)). split; [done|].
      unfold resolver_calls. rewrite Htr', count_effects_app. cbn [count_effects].
      rewrite Hself. lia.
    + destruct (resolve_miss_failure _ _ _ _ _ Hmiss' Hnet') as (st'' & -> & Htr' & _).
      exists st'', (Done None). split; [done|].
      unfold resolver_calls. rewrite Htr', count_effects_app. cbn [count_effects].
      rewrite Hself. cbn [is_resolver_call]. lia.
  - intros schedule calls.
    destruct (run_schedule_bound net user_id target_id schedule (not_started calls) st)
      as (new & Htr & Hbound).
    exists new. split; [done|].
    rewrite pending_not_started in Hbound. lia.
  - intros calls. apply (one_after_the_other_is_resolve_all net calls []).
Qed.

(** ** The send worker *)

Create HintDb frame.

Lemma keeps_ret {A} (a : A) : keeps_queue_and_clock (ret a).
Proof. by intros st st' o [= <- <-]. Qed.

Lemma keeps_raise {A} e : keeps_queue_and_clock (@raise A e).
Proof. by intros st st' o [= <- <-]. Qed.

Lemma keeps_gets {A} (f : State → A) : keeps_queue_and_clock (gets f).
Proof. by intros st st' o [= <- <-]. Qed.

Lemma keeps_bind {A B} (m : M A) (k : A → M B) :
  keeps_queue_and_clock m → (∀ a, keeps_queue_and_clock (k a)) →
  keeps_queue_and_clock (bind m k).
Proof.
  intros Hm Hk st st' o. unfold bind.
  destruct (m st) as [st1 [a|e|]] eqn:E; destruct (Hm _ _ _ E) as [Hq Hc].
  - intros H. destruct (Hk _ _ _ _ H). split; congruence.
  - by intros [= <- <-].
  - by intros [= <- <-].
Qed.

Lemma keeps_try_except {A} (body : M A) handles handler :
  keeps_queue_and_clock body → (∀ e, keeps_queue_and_clock (handler e)) →
  keeps_queue_and_clock (try_except body handles handler).
Proof.
  intros Hb Hh st st' o. unfold try_except.
  destruct (body st) as [st1 [a|e|]] eqn:E; destruct (Hb _ _ _ E) as [Hq Hc].
  - by intros [= <- <-].
  - destruct (handles e).
    + intros H. destruct (Hh _ _ _ _ H). split; congruence.
    + by intros [= <- <-].
  - by intros [= <- <-].
Qed.

Lemma keeps_emit e : keeps_queue_and_clock (emit e).
Proof. by intros st st' o [= <- <-]. Qed.

Lemma keeps_logger r : keeps_queue_and_clock (logger r).
Proof. apply keeps_emit. Qed.

Lemma keeps_call_forward_messages net client target_id orig :
  keeps_queue_and_clock (call_forward_messages net client target_id orig).
Proof.
  intros st st' o. unfold call_forward_messages, raise_of.
  destruct (forward_messages net (trace st) client target_id orig); by intros [= <- <-].
Qed.

Lemma keeps_call_send_message net client entity text :
  keeps_queue_and_clock (call_send_message net client entity text).
Proof.
  intros st st' o. unfold call_send_message, raise_of.
  destruct (send_message net (trace st) client entity text); by intros [= <- <-].
Qed.

Lemma keeps_call_get_input_entity net user_id client target_id :
  keeps_queue_and_clock (call_get_input_entity net user_id client target_id).
Proof.
  intros st st' o. unfold call_get_input_entity.
  destruct (get_input_entity net (trace st) client target_id); by intros [= <- <-].
Qed.

Lemma keeps_cache_store user_id target_id entity :
  keeps_queue_and_clock (cache_store user_id target_id entity).
Proof.
  intros st st' o. unfold cache_store.
  destruct (target_entity_cache st !! user_id); by intros [= <- <-].
Qed.

#[local] Hint Resolve keeps_ret keeps_raise keeps_gets keeps_bind keeps_try_except
  keeps_emit keeps_logger keeps_call_forward_messages keeps_call_send_message
  keeps_call_get_input_entity keeps_cache_store : frame.

Lemma keeps_resolve net user_id client target_id :
  keeps_queue_and_clock (resolve_target_entity_once net user_id client target_id).
Proof.
  unfold resolve_target_entity_once.
  apply keeps_bind.
  - intros st st' o [= <- <-]. by destruct (target_entity_cache st !! user_id).
  - intros _. apply keeps_bind; [auto with frame|].
    intros [entity|]; auto 10 with frame.
Qed.

Lemma keeps_deliver net job : keeps_queue_and_clock (deliver net job).
Proof.
  unfold deliver.
  destruct (job_payload job) as [message_text|[orig|]]; auto with frame.
  apply keeps_bind; [auto with frame|].
  intros [e|]; (apply keeps_bind; [auto using keeps_resolve with frame|]);
    intros [e'|]; auto with frame.
Qed.

Lemma queue_get_head st q job rest :
  send_queue st = Some q → items q = job :: rest →
  queue_get st = (set_send_queue (Some (after_get q rest)) st, Done job).
Proof. intros Hq Hi. unfold queue_get. by rewrite Hq, Hi. Qed.

Lemma after_get_not_full q job rest :
  items q = job :: rest → maxsize q ≤ 0 ∨ qsize q ≤ maxsize q →
  full (after_get q rest) = false.
Proof.
  intros Hi Hinv. unfold full, after_get, qsize in *; simpl. rewrite Hi in Hinv.
  destruct (maxsize q <=? 0) eqn:E; [done|].
  apply Z.leb_gt in E. apply Z.leb_gt. simpl in Hinv. lia.
Qed.

(** The [except FloodWaitError] clause, in whatever state it starts: the
    put acts on the state the pause leaves. *)
Lemma on_flood_wait_run worker_id job seconds st q :
  send_queue st = Some q →
  let wait := default 10 seconds in
  on_flood_wait worker_id job seconds st
  = if full q then (paused wait worker_id st, Parked)
    else (set_send_queue (Some (enqueued [job] q)) (paused wait worker_id st), Done tt).
Proof.
  intros Hq wait.
  unfold on_flood_wait, bind, logger, emit, modify, sleep, try_except, queue_put.
  fold wait. simpl. rewrite Hq. unfold put_nowait.
  destruct (full q); simpl;
    unfold paused, set_send_queue, enqueued, py_append; simpl;
    rewrite <- ?app_assoc, ?Hq; reflexivity.
Qed.

(** C4 (as amended). When delivering the job taken from the queue ends
    in a flood-wait error carrying [seconds], the worker logs it, sleeps
    [seconds + 1] (6 for 5) and then puts the very same job back at the
    tail of the queue; the turn ends normally. The item the worker takes
    next is the head of the queue: the same job only if nothing else was
    waiting. The put comes after the pause and not before: in whatever
    state the flood wait is caught, the put acts on the state the pause
    leaves, so that a worker finding no free slot is left waiting in put
    with the pause over and the job not in the queue, and one finding a
    slot adds the job to the queue as it is then. *)
Theorem flood_wait_puts_job_back_at_tail
    net worker_id job rest st q st1 seconds :
  send_queue st = Some q →
  items q = job :: rest →
  maxsize q ≤ 0 ∨ qsize q ≤ maxsize q →
  deliver net job (set_send_queue (Some (after_get q rest)) st)
  = (st1, Raised (FloodWaitError seconds)) →
  let wait := default 10 seconds in
  (∃ st',
     worker_turn net worker_id st = (st', Done true)
     ∧ clock st' = clock st + (wait + 1)
     ∧ trace st'
       = (trace st1 ++ [Logged (FloodWaitPause wait worker_id); Slept (wait + 1)])%list
     ∧ items <$> send_queue st' = Some (rest ++ [job])%list
     ∧ (take_job worker_id st').2 = Done (Some (hd job rest)))
  ∧ (∀ st0 q0,
       send_queue st0 = Some q0 →
       on_flood_wait worker_id job seconds st0
       = if full q0 then (paused wait worker_id st0, Parked)
         else (set_send_queue (Some (enqueued [job] q0)) (paused wait worker_id st0),
               Done tt)).
Proof.
  intros Hq Hi Hinv Hdel wait.
  split; [|intros st0 q0 Hq0; by apply on_flood_wait_run].
  destruct (keeps_deliver _ _ _ _ _ Hdel) as [Hq1 Hc1]. simpl in Hq1, Hc1.
  pose proof (after_get_not_full _ _ _ Hi Hinv) as Hfull.
  unfold worker_turn, take_job, try_except at 1, bind at 1 2.
  rewrite (queue_get_head _ _ _ _ Hq Hi). unfold ret at 1, bind at 1.
  unfold process_job, try_finally, try_except at 1 2. rewrite Hdel. simpl.
  unfold on_flood_wait, bind, logger, emit, modify, sleep, try_except at 1.
  unfold queue_put. simpl. rewrite Hq1, Hfull. unfold put_nowait. rewrite Hfull.
  simpl. unfold try_except, queue_task_done, task_done, bind, ret. simpl.
  destruct (unfinished_tasks q + 1 <=? 0); simpl;
    (eexists; split; [reflexivity|]; simpl;
     split; [by rewrite Hc1|];
     split; [unfold py_append; by rewrite <- app_assoc|];
     split; [done|];
     unfold take_job, try_except, bind, queue_get; simpl; unfold py_append;
     by destruct rest).
Qed.

(** ** Counterexamples and instances *)

Import Scenario.

Lemma hello_does_not_enqueue_text_jobs :
  items <$> send_queue (_hot_message_handler 1 5 hello_event hello_state).1
  ≠ Some text_jobs_for_hello.
Proof. vm_compute. discriminate. Qed.

Lemma raw_text_output_witness :
  _apply_filters_and_prefix_suffix "hello"
    (mkSettings true true true (mkFilters true true true true true true) "<" ">")
  = Ok ["<hello>"%string].
Proof.
  apply (proj2 (raw_text_output_is_single_affixed_text "hello"
                  true true true true true true true true "<" ">")).
  - reflexivity.
  - discriminate.
Defined.

Lemma hello_is_relayed_witness :
  _hot_message_handler 1 5 hello_event hello_state
  = (set_send_queue (Some (enqueued [relay_200; relay_300] (new_queue 10000))) hello_state,
     Done tt).
Proof.
  apply (hello_is_relayed_to_both_targets 1 5 "relay" hello_event
           {[ "relay"%string := raw_forward_settings ]} hello_state (new_queue 10000));
    try reflexivity.
  right. vm_compute. discriminate.
Defined.

Lemma relay_shortcut_witness :
  ∃ jobs,
    jobs = (fun target_id => mkJob 1 5 target_id (ForwardOrig (Some hello_message)))
           <$> [200; 300]
    ∧ length jobs = 2%nat
    ∧ process_task 1 5 hello_event "hello" 100 false relay_task hello_state
      = (set_send_queue (Some (enqueued jobs (new_queue 10000))) hello_state, Done tt)
    ∧ (tasks_cache hello_state !! 1 = Some [relay_task] →
       _hot_message_handler 1 5 hello_event hello_state
       = (set_send_queue (Some (enqueued jobs (new_queue 10000))) hello_state, Done tt)).
Proof.
  apply (relay_shortcut_fires_once_per_target 1 5 hello_event "hello" 100 relay_task
           {[ "relay"%string := raw_forward_settings ]} raw_forward_settings
           hello_state (new_queue 10000));
    try reflexivity.
  - vm_compute. discriminate.
  - apply list_elem_of_here.
  - by left.
  - right. vm_compute. discriminate.
Defined.

Lemma put_on_full_queue_witness :
  enqueue_for_target 1 5 hello_event raw_forward_settings ["hello"%string] 300 full_state
  = (full_state, Parked)
  ∧ for_each [relay_200; relay_300] queue_put
      (set_send_queue (Some (new_queue 1)) full_state)
    = (set_send_queue (Some (enqueued [relay_200] (new_queue 1))) full_state, Parked).
Proof.
  apply (put_on_full_queue_parks_producer 1 5 hello_event raw_forward_settings
           ["hello"%string] 300 1 [relay_200; relay_300] full_state
           (mkQueue 1 [relay_200] 1));
    try reflexivity.
  - discriminate.
Defined.

Lemma plain_task_stops_the_relay_task :
  (process_task 1 5 hello_event "hello" 100 false plain_task
     (with_tasks 1 [plain_task; relay_task] hello_state)).2 = Raised TypeError
  ∧ ¬ remaining_tasks_still_evaluated 1 5 hello_event hello_state plain_task [relay_task].
Proof.
  split; [reflexivity|].
  unfold remaining_tasks_still_evaluated. vm_compute. discriminate.
Qed.

Lemma failing_task_witness :
  let st := with_tasks 1 [plain_task; relay_task] hello_state in
  let st2 := (process_task 1 5 hello_event "hello" 100 false plain_task st).1 in
  _hot_message_handler 1 5 hello_event st
  = (set_trace (trace st2 ++ [Logged (HandlerError 1 TypeError)]) st2, Done tt).
Proof.
  apply (failing_task_ends_the_handler 1 5 hello_event "hello" 100
           [] plain_task [relay_task]
           (with_tasks 1 [plain_task; relay_task] hello_state)
           (with_tasks 1 [plain_task; relay_task] hello_state));
    try reflexivity.
  vm_compute. discriminate.
Defined.

Lemma flooded_job_is_not_taken_next :
  (deliver flood_net relay_200
     (set_send_queue (Some (after_get (mkQueue 10 [relay_200; relay_300] 2) [relay_300]))
        two_jobs_state)).2 = Raised (FloodWaitError (Some 5))
  ∧ ¬ reprocessed_before_next_item flood_net 1 two_jobs_state relay_200.
Proof.
  split; [reflexivity|].
  intros (st' & Hturn & Hnext).
  vm_compute in Hturn. injection Hturn as <-.
  vm_compute in Hnext. discriminate.
Qed.

Lemma overlapping_calls_invoke_the_resolver_twice :
  let calls := [(1, 5, 200); (1, 5, 200)] in
  let schedule := [0; 1; 0; 1]%nat in
  let run := run_schedule flood_net schedule (not_started calls) two_jobs_state in
  run.2 = [Returned (Some 1200); Returned (Some 1200)]
  ∧ trace run.1
    = [GetInputEntity 1 5 200 (Some 1200); GetInputEntity 1 5 200 (Some 1200)]
  ∧ resolver_failures 1 200 (trace run.1) = 0%nat
  ∧ ¬ invoked_at_most_once_absent_failure flood_net schedule calls 1 200 two_jobs_state.
Proof.
  split_and!; [reflexivity | reflexivity | reflexivity |].
  intros (new & Htr & Hbound).
  vm_compute in Htr. subst new.
  specialize (Hbound eq_refl). vm_compute in Hbound. lia.
Qed.

Lemma flood_wait_witness :
  (∃ st',
     worker_turn flood_net 1 two_jobs_state = (st', Done true)
     ∧ clock st' = 0 + (5 + 1)
     ∧ trace st'
       = [ForwardMessages 5 200 hello_message (FloodWait (Some 5));
          Logged (FloodWaitPause 5 1); Slept (5 + 1)]
     ∧ items <$> send_queue st' = Some [relay_300; relay_200]
     ∧ (take_job 1 st').2 = Done (Some relay_300))
  ∧ on_flood_wait 1 relay_200 (Some 5) full_state
    = (set_trace [Logged (FloodWaitPause 5 1); Slept (5 + 1)] (paused 5 1 full_state),
       Parked)
  ∧ clock (paused 5 1 full_state) = 0 + (5 + 1).
Proof.
  assert (Hinv : maxsize (mkQueue 10 [relay_200; relay_300] 2) ≤ 0
                 ∨ qsize (mkQueue 10 [relay_200; relay_300] 2)
                   ≤ maxsize (mkQueue 10 [relay_200; relay_300] 2))
    by (right; vm_compute; discriminate).
  destruct (flood_wait_puts_job_back_at_tail flood_net 1 relay_200 [relay_300]
              two_jobs_state (mkQueue 10 [relay_200; relay_300] 2)
              (set_trace [ForwardMessages 5 200 hello_message (FloodWait (Some 5))]
                 (set_send_queue
                    (Some (after_get (mkQueue 10 [relay_200; relay_300] 2) [relay_300]))
                    two_jobs_state))
              (Some 5) eq_refl eq_refl Hinv eq_refl) as [Hturn Horder].
  split; [exact Hturn|].
  split; [exact (Horder full_state (mkQueue 1 [relay_200] 1) eq_refl) | reflexivity].
Defined.

Lemma resolution_is_memoised_witness :
  resolve_target_entity_once flood_net 1 5 200 cached_state
  = (cached_state, Done (Some 1200))
  ∧ ∃ st',
      resolve_target_entity_once offline_net 1 5 200 two_jobs_state = (st', Done None)
      ∧ cache_lookup 1 200 st' = None
      ∧ ∀ client', ∃ st'' answer,
          resolve_target_entity_once offline_net 1 client' 200 st' = (st'', answer)
          ∧ resolver_calls 1 200 (trace st'') = S (resolver_calls 1 200 (trace st')).
Proof.
  split.
  - apply (proj1 (resolution_is_memoised flood_net cached_state 1 200) 5 1200).
    reflexivity.
  - apply (proj1 (proj2 (proj2 (resolution_is_memoised offline_net two_jobs_state 1 200)))
             5);
      reflexivity.
Defined.

(** * Further properties *)

(** ** The event handler: what it changes and what it leaves *)

Lemma extends_queue_refl q : extends_queue q q.
Proof. destruct q as [q|]; simpl; [|done]. exists []. by rewrite enqueued_nil. Qed.

Lemma enqueued_app jobs1 jobs2 q :
  enqueued jobs2 (enqueued jobs1 q) = enqueued (jobs1 ++ jobs2) q.
Proof.
  unfold enqueued; simpl. rewrite <- app_assoc, length_app. f_equal. lia.
Qed.

Lemma extends_queue_trans q1 q2 q3 :
  extends_queue q1 q2 → extends_queue q2 q3 → extends_queue q1 q3.
Proof.
  destruct q1 as [q1|], q2 as [q2|], q3 as [q3|]; simpl; try done.
  intros [a1 ->] [a2 ->]. exists (a1 ++ a2)%list. apply enqueued_app.
Qed.

Lemma handler_effect_refl st : handler_effect st st.
Proof. repeat split; auto using extends_queue_refl. Qed.

Lemma handler_effect_trans st1 st2 st3 :
  handler_effect st1 st2 → handler_effect st2 st3 → handler_effect st1 st3.
Proof.
  intros (T1 & C1 & K1 & Q1 & W1 & S1) (T2 & C2 & K2 & Q2 & W2 & S2).
  repeat split; try congruence; eauto using extends_queue_trans.
Qed.

Lemma effect_ret {A} (a : A) : has_handler_effect (ret a).
Proof. intros st st' o [= <- <-]. apply handler_effect_refl. Qed.

Lemma effect_lift {A} (r : result A) : has_handler_effect (lift r).
Proof. destruct r; intros st st' o [= <- <-]; apply handler_effect_refl. Qed.

Lemma effect_gets {A} (f : State → A) : has_handler_effect (gets f).
Proof. intros st st' o [= <- <-]. apply handler_effect_refl. Qed.

Lemma effect_logger r : has_handler_effect (logger r).
Proof. intros st st' o [= <- <-]. repeat split; auto using extends_queue_refl. Qed.

Lemma effect_bind {A B} (m : M A) (k : A → M B) :
  has_handler_effect m → (∀ a, has_handler_effect (k a)) → has_handler_effect (bind m k).
Proof.
  intros Hm Hk st st' o. unfold bind.
  destruct (m st) as [st1 [a|e|]] eqn:E; pose proof (Hm _ _ _ E) as H1.
  - intros H. eapply handler_effect_trans; [done|]. by eapply Hk.
  - by intros [= <- <-].
  - by intros [= <- <-].
Qed.

Lemma effect_try_except {A} (body : M A) handles handler :
  has_handler_effect body → (∀ e, has_handler_effect (handler e)) →
  has_handler_effect (try_except body handles handler).
Proof.
  intros Hb Hh st st' o. unfold try_except.
  destruct (body st) as [st1 [a|e|]] eqn:E; pose proof (Hb _ _ _ E) as H1.
  - by intros [= <- <-].
  - destruct (handles e).
    + intros H. eapply handler_effect_trans; [done|]. by eapply Hh.
    + by intros [= <- <-].
  - by intros [= <- <-].
Qed.

Lemma effect_for_each {A} (l : list A) (body : A → M unit) :
  (∀ x, has_handler_effect (body x)) → has_handler_effect (for_each l body).
Proof.
  intros Hb. induction l as [|x l IH]; simpl.
  - apply effect_ret.
  - apply effect_bind; [apply Hb | intros _; apply IH].
Qed.

Lemma within_capacity_put job q :
  full q = false → within_capacity q → within_capacity (enqueued [job] q).
Proof.
  unfold full, within_capacity. rewrite qsize_enqueued. simpl.
  destruct (maxsize q <=? 0) eqn:E.
  - apply Z.leb_le in E. by left.
  - intros Hfull%Z.leb_gt _. right. lia.
Qed.

Lemma effect_queue_put job : has_handler_effect (queue_put job).
Proof.
  intros st st' o. unfold queue_put.
  destruct (send_queue st) as [q|] eqn:Hq; [|intros [= <- <-]; apply handler_effect_refl].
  destruct (full q) eqn:Hfull; [intros [= <- <-]; apply handler_effect_refl|].
  unfold put_nowait. rewrite Hfull. intros [= <- <-].
  repeat split; simpl; try done.
  - rewrite Hq. simpl. by exists [job].
  - intros Hw q' [= <-]. apply within_capacity_put; [done|]. by apply Hw.
Qed.

Lemma settings_lookup_insert_other user_id label per_user st u l s :
  tasks_settings st !! user_id = Some per_user → per_user !! label = None →
  settings_lookup u l st = Some s →
  settings_lookup u l
    (set_tasks_settings
       (<[user_id := <[label := _make_default_task_settings]> per_user]> (tasks_settings st))
       st) = Some s.
Proof.
  intros Hu Hl. unfold settings_lookup; simpl.
  destruct (decide (u = user_id)) as [->|Hne].
  - rewrite Hu, lookup_insert_eq. simpl. intros Hs.
    rewrite lookup_insert_ne; [done | congruence].
  - by rewrite lookup_insert_ne.
Qed.

Lemma effect_settings_setdefault user_id label :
  has_handler_effect (settings_setdefault user_id label).
Proof.
  intros st st' o. unfold settings_setdefault.
  destruct (tasks_settings st !! user_id) as [per_user|] eqn:Hu.
  - destruct (per_user !! label) eqn:Hl; intros [= <- <-];
      [apply handler_effect_refl|].
    repeat split; simpl; auto using extends_queue_refl.
    intros u l s. by apply settings_lookup_insert_other.
  - intros [= <- <-]. repeat split; simpl; auto using extends_queue_refl.
    intros u l s. unfold settings_lookup; simpl.
    destruct (decide (u = user_id)) as [->|Hne]; [by rewrite Hu|].
    by rewrite lookup_insert_ne.
Qed.

Lemma effect_enqueue_for_target user_id client event settings out_messages target_id :
  has_handler_effect
    (enqueue_for_target user_id client event settings out_messages target_id).
Proof.
  unfold enqueue_for_target.
  apply effect_try_except; [|intros; apply effect_logger].
  apply effect_bind; [apply effect_gets|].
  intros [q|]; [|apply effect_logger].
  destruct (_ && _); [apply effect_queue_put|].
  apply effect_for_each. intros om. apply effect_queue_put.
Qed.

Lemma effect_process_task user_id client event message_text chat_id is_outgoing task :
  has_handler_effect
    (process_task user_id client event message_text chat_id is_outgoing task).
Proof.
  unfold process_task. destruct (bool_decide _); [|apply effect_ret].
  apply effect_bind; [apply effect_settings_setdefault|]. intros settings.
  destruct (negb (control settings)); [apply effect_ret|].
  destruct (_ && _); [apply effect_ret|].
  apply effect_bind; [apply effect_lift|]. intros [|om rest]; [apply effect_ret|].
  apply effect_for_each. intros t. apply effect_enqueue_for_target.
Qed.

Lemma effect_optimized_gc : has_handler_effect optimized_gc.
Proof.
  intros st st' o. rewrite optimized_gc_run. intros [= <- <-].
  unfold after_gc. destruct (_ <? _); [|apply handler_effect_refl].
  repeat split; auto using extends_queue_refl.
Qed.

Lemma effect_forward_event user_id client event :
  has_handler_effect (forward_event user_id client event).
Proof.
  unfold forward_event.
  destruct (event_text event) as [message_text|]; [|apply effect_ret].
  destruct (_ || _); [apply effect_ret|].
  destruct (event_chat_id event) as [chat_id|]; [|apply effect_ret].
  apply effect_bind; [apply effect_gets|].
  intros [[|t l]|]; try apply effect_ret.
  apply effect_for_each. intros task. apply effect_process_task.
Qed.

Lemma effect_handler user_id client event :
  has_handler_effect (_hot_message_handler user_id client event).
Proof.
  unfold _hot_message_handler.
  apply effect_try_except; [|intros; apply effect_logger].
  apply effect_bind; [apply effect_optimized_gc|].
  intros _. apply effect_forward_event.
Qed.

(** X1. Whatever the event and the state, the handler never lets an
    exception out, leaves tasks, resolved targets and clock untouched,
    only adds jobs at the tail of the queue (what was queued stays, in
    order), keeps a queue that was within its capacity within it, and
    never changes or removes settings already stored. *)
Theorem handler_only_appends_jobs user_id client event st :
  let st' := (_hot_message_handler user_id client event st).1 in
  (∀ e, (_hot_message_handler user_id client event st).2 ≠ Raised e)
  ∧ tasks_cache st' = tasks_cache st
  ∧ target_entity_cache st' = target_entity_cache st
  ∧ clock st' = clock st
  ∧ extends_queue (send_queue st) (send_queue st')
  ∧ (queue_within_capacity st → queue_within_capacity st')
  ∧ ∀ u l settings,
      settings_lookup u l st = Some settings → settings_lookup u l st' = Some settings.
Proof.
  split; [intros e; apply handler_never_raises|].
  destruct (_hot_message_handler user_id client event st) as [st' o] eqn:E.
  apply (effect_handler _ _ _ _ _ _ E).
Qed.

Lemma process_task_passed_over
    user_id client event message_text chat_id is_outgoing task st :
  passed_over user_id chat_id is_outgoing st task →
  process_task user_id client event message_text chat_id is_outgoing task st
  = (st, Done tt).
Proof.
  unfold process_task. intros [Hsrc | (settings & Hs & Hoff)].
  - by rewrite bool_decide_eq_false_2.
  - destruct (bool_decide _); [|done].
    unfold settings_lookup in Hs.
    destruct (tasks_settings st !! user_id) as [per_user|] eqn:Hu; [|done].
    simpl in Hs. unfold bind.
    rewrite (settings_setdefault_present _ _ _ _ _ Hu Hs).
    destruct Hoff as [-> | [-> ->]]; [done|].
    by destruct (control settings).
Qed.

Lemma for_each_passed_over
    user_id client event message_text chat_id is_outgoing user_tasks st :
  Forall (passed_over user_id chat_id is_outgoing st) user_tasks →
  for_each user_tasks
    (process_task user_id client event message_text chat_id is_outgoing) st
  = (st, Done tt).
Proof.
  induction 1 as [|task rest Htask _ IH]; simpl; [done|].
  unfold bind. by rewrite (process_task_passed_over _ _ _ _ _ _ _ _ Htask).
Qed.

Lemma past_gc_nothing_to_forward user_id client event st :
  nothing_to_forward user_id event st →
  handler_past_gc user_id client event st = (st, Done tt).
Proof.
  unfold nothing_to_forward, handler_past_gc, forward_event, try_except.
  destruct (event_text event) as [message_text|]; [|done].
  intros [Hblank | H].
  - rewrite Hblank. simpl. by rewrite orb_true_r.
  - destruct (_ || _); [done|].
    destruct (event_chat_id event) as [chat_id|]; [|done].
    unfold bind, gets.
    destruct (tasks_cache st !! user_id) as [[|task rest]|]; try done.
    by rewrite (for_each_passed_over _ _ _ _ _ _ _ _ H).
Qed.

Lemma settings_lookup_after_gc user_id label st :
  settings_lookup user_id label (after_gc st) = settings_lookup user_id label st.
Proof. unfold settings_lookup. by rewrite after_gc_tasks_settings. Qed.

Lemma nothing_to_forward_after_gc user_id event st :
  nothing_to_forward user_id event st → nothing_to_forward user_id event (after_gc st).
Proof.
  unfold nothing_to_forward.
  destruct (event_text event) as [message_text|]; [|done].
  intros [Hblank | H]; [by left | right].
  destruct (event_chat_id event) as [chat_id|]; [|done].
  rewrite after_gc_tasks_cache.
  destruct (tasks_cache st !! user_id) as [user_tasks|]; [|done].
  eapply Forall_impl; [exact H|].
  intros task [Hsrc | (settings & Hs & Hoff)]; [by left | right].
  exists settings. by rewrite settings_lookup_after_gc.
Qed.

Lemma handler_nothing_to_forward user_id client event st :
  nothing_to_forward user_id event st →
  _hot_message_handler user_id client event st = (after_gc st, Done tt).
Proof.
  intros H. rewrite handler_run.
  by apply past_gc_nothing_to_forward, nothing_to_forward_after_gc.
Qed.

(** X2. When the event has no text or only blank text, has no chat id,
    when the user has no task list, or when every task of the user is on
    another source, has [control] off, or has [outgoing] off while the
    message is outgoing, the handler does nothing beyond its call to
    [optimized_gc]: it returns with the state that call leaves (nothing
    queued, no settings created, nothing logged but the collection line
    when a collection is due), which is the state exactly as it was when
    no more than [GC_INTERVAL] has passed since the last collection. *)
Theorem handler_leaves_state_when_nothing_to_forward user_id client event st :
  nothing_to_forward user_id event st →
  _hot_message_handler user_id client event st = (after_gc st, Done tt)
  ∧ (clock st - _last_gc_run st ≤ GC_INTERVAL →
     _hot_message_handler user_id client event st = (st, Done tt))
  ∧ (GC_INTERVAL < clock st - _last_gc_run st →
     trace (after_gc st) = (trace st ++ [Logged GarbageCollected])%list
     ∧ _last_gc_run (after_gc st) = clock st).
Proof.
  intros H. rewrite handler_run.
  rewrite (past_gc_nothing_to_forward _ _ _ _ (nothing_to_forward_after_gc _ _ _ H)).
  split; [done|]. split.
  - intros Hdue. by rewrite after_gc_not_due.
  - intros Hdue. unfold after_gc.
    by rewrite (proj2 (Z.ltb_lt _ _) Hdue).
Qed.

Lemma puts_with_room {A} (f : A → Job) l st q :
  send_queue st = Some q → has_room q (length l) →
  for_each l (fun x => queue_put (f x)) st
  = (set_send_queue (Some (enqueued (f <$> l) q)) st, Done tt).
Proof.
  revert st q. induction l as [|x l IH]; intros st q Hq Hroom; simpl.
  - unfold ret. by rewrite enqueued_nil, set_send_queue_same.
  - unfold bind.
    rewrite (queue_put_room _ _ _ Hq (has_room_not_full _ _ Hroom)).
    rewrite (IH _ (enqueued [f x] q)); [|done|by apply has_room_step].
    by rewrite set_send_queue_twice, enqueued_cons.
Qed.

Lemma has_room_fewer q n m : (m ≤ n)%nat → has_room q n → has_room q m.
Proof. unfold has_room. intros Hle [H|H]; [by left | right; lia]. Qed.

Lemma has_room_after q jobs n :
  has_room q (length jobs + n) → has_room (enqueued jobs q) n.
Proof.
  unfold has_room. rewrite qsize_enqueued. simpl. intros [H|H]; [by left | right; lia].
Qed.

(** Every target gets every line, as text jobs, when the relay test fails. *)
Lemma text_jobs_all_targets user_id client event settings out_messages targets st q :
  forward_tag settings && raw_text (filters settings)
    && (length out_messages =? 1)%nat = false →
  send_queue st = Some q →
  has_room q (length targets * length out_messages) →
  for_each targets (enqueue_for_target user_id client event settings out_messages) st
  = (set_send_queue
       (Some (enqueued
                (target_id ← targets;
                 (fun om => text_job user_id client om target_id) <$> out_messages) q)) st,
     Done tt).
Proof.
  intros Hcond. revert st q.
  induction targets as [|t rest IH]; intros st q Hq Hroom; simpl.
  - unfold ret. by rewrite enqueued_nil, set_send_queue_same.
  - unfold bind at 1, enqueue_for_target at 1, try_except, bind, gets.
    rewrite Hq, Hcond.
    rewrite (puts_with_room (fun om => mkJob user_id client t (Text om)) _ _ _ Hq)
      by (eapply has_room_fewer; [|done]; simpl; lia).
    erewrite IH; [|done|].
    + rewrite set_send_queue_twice, enqueued_app. done.
    + apply has_room_after. rewrite length_fmap. by simpl in Hroom.
Qed.

(** X3. With [raw_text] on and [forward_tag] off, a matching task that
    is switched on sends the text itself: one text job per target, in
    target order, each carrying prefix + trimmed text + suffix. The
    handler as a whole does just that, once [optimized_gc] has returned,
    when the task is the user's only one. *)
Theorem raw_text_without_forward_tag_sends_text
    user_id client event message_text chat_id task per_user settings st q :
  event_text event = Some message_text →
  PyStr.strip message_text ≠ ""%string →
  event_chat_id event = Some chat_id →
  chat_id ∈ source_ids task →
  tasks_settings st !! user_id = Some per_user →
  per_user !! label task = Some settings →
  control settings = true →
  outgoing settings = true ∨ event_is_outgoing event = false →
  forward_tag settings = false →
  raw_text (filters settings) = true →
  send_queue st = Some q →
  has_room q (length (target_ids task)) →
  let line := (prefix settings ++ PyStr.strip message_text ++ suffix settings)%string in
  let jobs := (fun target_id => mkJob user_id client target_id (Text line))
              <$> target_ids task in
  process_task user_id client event message_text chat_id (event_is_outgoing event) task st
  = (set_send_queue (Some (enqueued jobs q)) st, Done tt)
  ∧ (tasks_cache st !! user_id = Some [task] →
     _hot_message_handler user_id client event st
     = (set_send_queue (Some (enqueued jobs q)) (after_gc st), Done tt)).
Proof.
  intros Htext Hstrip Hchat Hsrc Hu Hl Hctl Hout Hfwd Hraw Hq Hroom line jobs.
  assert (Htask : ∀ st,
    tasks_settings st !! user_id = Some per_user → send_queue st = Some q →
    process_task user_id client event message_text chat_id (event_is_outgoing event)
      task st = (set_send_queue (Some (enqueued jobs q)) st, Done tt)).
  { clear st Hu Hq. intros st Hu Hq. unfold process_task.
    rewrite bool_decide_eq_true_2 by done.
    unfold bind at 1. rewrite (settings_setdefault_present _ _ _ _ _ Hu Hl).
    rewrite Hctl; simpl.
    replace (negb (outgoing settings) && event_is_outgoing event) with false
      by (destruct Hout as [-> | ->]; [done | by rewrite andb_false_r]).
    unfold bind at 1. rewrite (apply_filters_raw_text _ _ Hraw); simpl.
    set (om := affixed (prefix settings) (suffix settings) (PyStr.strip message_text)).
    assert (Hcond : forward_tag settings && raw_text (filters settings)
                    && (length [om] =? 1)%nat = false) by (by rewrite Hfwd).
    assert (Hroom' : has_room q (length (target_ids task) * length [om]))
      by (simpl; by rewrite Nat.mul_1_r).
    rewrite (text_jobs_all_targets _ _ _ _ _ _ _ _ Hcond Hq Hroom').
    replace (target_id ← target_ids task;
             (fun om => text_job user_id client om target_id) <$> [om]) with jobs;
      [done|].
    unfold jobs, line, om, affixed, text_job.
    clear. induction (target_ids task) as [|t l IH]; [done|]. simpl. by f_equal. }
  split; [by apply Htask|]. intros Htasks.
  rewrite handler_run. rewrite <- after_gc_tasks_cache in Htasks.
  rewrite (handler_reaches_tasks _ _ _ _ _ _ _ Htext Hstrip Hchat Htasks) by done.
  unfold try_except; simpl. unfold bind at 1.
  by rewrite Htask by (by rewrite ?after_gc_tasks_settings, ?after_gc_send_queue).
Qed.

Lemma no_queue_all_targets user_id client event settings out_messages targets st :
  send_queue st = None →
  for_each targets (enqueue_for_target user_id client event settings out_messages) st
  = (set_trace (trace st ++ replicate (length targets) (Logged QueueNotInitialized)) st,
     Done tt).
Proof.
  revert st. induction targets as [|t rest IH]; intros st Hq; simpl.
  - unfold ret. rewrite app_nil_r. by destruct st.
  - unfold bind at 1, enqueue_for_target at 1, try_except, bind, gets.
    rewrite Hq. simpl. rewrite IH by done. simpl.
    unfold py_append. by rewrite <- app_assoc.
Qed.

(** X4. Before the send queue exists, a matching task with [raw_text] on
    queues nothing: after its call to [optimized_gc] (which logs a
    collection when one is due) the handler writes one "queue not
    initialized" line per target and changes nothing else; when no
    collection is due these lines are all that distinguishes the state
    from the one before. *)
Theorem without_queue_jobs_are_dropped
    user_id client event message_text chat_id task per_user settings st :
  event_text event = Some message_text →
  PyStr.strip message_text ≠ ""%string →
  event_chat_id event = Some chat_id →
  chat_id ∈ source_ids task →
  tasks_cache st !! user_id = Some [task] →
  tasks_settings st !! user_id = Some per_user →
  per_user !! label task = Some settings →
  control settings = true →
  outgoing settings = true ∨ event_is_outgoing event = false →
  raw_text (filters settings) = true →
  send_queue st = None →
  let lines := replicate (length (target_ids task)) (Logged QueueNotInitialized) in
  _hot_message_handler user_id client event st
  = (set_trace (trace (after_gc st) ++ lines) (after_gc st), Done tt)
  ∧ (clock st - _last_gc_run st ≤ GC_INTERVAL →
     _hot_message_handler user_id client event st
     = (set_trace (trace st ++ lines) st, Done tt)).
Proof.
  intros Htext Hstrip Hchat Hsrc Htasks Hu Hl Hctl Hout Hraw Hq lines.
  assert (Hrun : _hot_message_handler user_id client event st
                 = (set_trace (trace (after_gc st) ++ lines) (after_gc st), Done tt));
    [|split; [done|]; intros Hdue; by rewrite Hrun, after_gc_not_due].
  rewrite handler_run.
  rewrite <- after_gc_tasks_cache in Htasks.
  rewrite <- after_gc_tasks_settings in Hu.
  rewrite <- after_gc_send_queue in Hq.
  rewrite (handler_reaches_tasks _ _ _ _ _ _ _ Htext Hstrip Hchat Htasks) by done.
  unfold try_except; simpl. unfold bind at 1, process_task.
  rewrite bool_decide_eq_true_2 by done.
  unfold bind at 1. rewrite (settings_setdefault_present _ _ _ _ _ Hu Hl).
  rewrite Hctl; simpl.
  replace (negb (outgoing settings) && event_is_outgoing event) with false
    by (destruct Hout as [-> | ->]; [done | by rewrite andb_false_r]).
  unfold bind at 1. rewrite (apply_filters_raw_text _ _ Hraw); simpl.
  by rewrite no_queue_all_targets.
Qed.

(** ** The send worker: what a turn can do *)

Lemma finally_task_done_runs st :
  ∃ st', try_except queue_task_done is_Exception (fun _ => ret tt) st = (st', Done tt)
         ∧ trace st' = trace st ∧ clock st' = clock st
         ∧ target_entity_cache st' = target_entity_cache st
         ∧ items <$> send_queue st' = items <$> send_queue st
         ∧ maxsize <$> send_queue st' = maxsize <$> send_queue st.
Proof.
  unfold try_except, queue_task_done, task_done.
  destruct (send_queue st) as [q|] eqn:Hq; simpl.
  - destruct (unfinished_tasks q <=? 0); simpl.
    + exists st. by rewrite Hq.
    + eexists. split; [reflexivity|]. done.
  - exists st. by rewrite Hq.
Qed.

Lemma process_job_never_raises net worker_id job st e :
  (process_job net worker_id job st).2 ≠ Raised e.
Proof.
  unfold process_job, try_finally.
  match goal with |- context [try_except ?body is_Exception ?h st] =>
    assert (Hbody : ∀ e', (try_except body is_Exception h st).2 ≠ Raised e');
    [|destruct (try_except body is_Exception h st) as [st1 [[]|e1|]] eqn:E] end.
  - intros e'. unfold try_except at 1.
    match goal with |- context [match ?x with _ => _ end] =>
      destruct x as [st1 [[]|e1|]] end; simpl; done.
  - unfold bind. destruct (finally_task_done_runs st1) as (st' & -> & _). done.
  - by destruct (Hbody e1).
  - done.
Qed.

Lemma take_job_never_raises worker_id st e : (take_job worker_id st).2 ≠ Raised e.
Proof.
  unfold take_job, try_except, bind, queue_get.
  destruct (send_queue st) as [q|]; simpl; [|done].
  by destruct (items q).
Qed.

Lemma worker_turn_never_raises net worker_id st e :
  (worker_turn net worker_id st).2 ≠ Raised e.
Proof.
  unfold worker_turn, bind.
  pose proof (take_job_never_raises worker_id st) as Htake.
  destruct (take_job worker_id st) as [st1 [[job|]|e1|]]; simpl; try done.
  - pose proof (process_job_never_raises net worker_id job st1) as Hjob.
    destruct (process_job net worker_id job st1) as [st2 [[]|e2|]]; simpl; try done.
    by destruct (Hjob e2).
  - by destruct (Htake e1).
Qed.

Lemma worker_turns_never_raise net worker_id turns st e :
  (worker_turns net worker_id turns st).2 ≠ Raised e.
Proof.
  revert st. induction turns as [|n IH]; intros st; simpl; [done|].
  unfold bind.
  pose proof (worker_turn_never_raises net worker_id st) as Hturn.
  destruct (worker_turn net worker_id st) as [st1 [[|]|e1|]]; simpl;
    [apply IH | done | by destruct (Hturn e1) | done].
Qed.

Lemma never_parks_bind {A B} (m : M A) (k : A → M B) :
  (∀ st st', m st ≠ (st', Parked)) → (∀ a st st', k a st ≠ (st', Parked)) →
  ∀ st st', bind m k st ≠ (st', Parked).
Proof.
  intros Hm Hk st st'. unfold bind.
  destruct (m st) as [st1 [a|e|]] eqn:E; [apply Hk | done | by destruct (Hm _ _ E)].
Qed.

Lemma never_parks_try_except {A} (body : M A) handles handler :
  (∀ st st', body st ≠ (st', Parked)) → (∀ e st st', handler e st ≠ (st', Parked)) →
  ∀ st st', try_except body handles handler st ≠ (st', Parked).
Proof.
  intros Hb Hh st st'. unfold try_except.
  destruct (body st) as [st1 [a|e|]] eqn:E; [done | | by destruct (Hb _ _ E)].
  destruct (handles e); [apply Hh | done].
Qed.

Lemma resolve_never_parks net user_id client target_id st st' :
  resolve_target_entity_once net user_id client target_id st ≠ (st', Parked).
Proof.
  revert st st'. unfold resolve_target_entity_once.
  apply never_parks_bind; [done|]. intros _.
  apply never_parks_bind; [done|]. intros [entity|]; [done|].
  apply never_parks_try_except.
  - apply never_parks_bind.
    + intros st st'. unfold call_get_input_entity. by destruct (get_input_entity _ _ _ _).
    + intros entity. apply never_parks_bind; [|done].
      intros st st'. unfold cache_store. by destruct (_ !! _).
  - intros _. by apply never_parks_bind.
Qed.

Lemma deliver_never_parks net job st st1 : deliver net job st ≠ (st1, Parked).
Proof.
  revert st st1. unfold deliver.
  destruct (job_payload job) as [message_text|[orig|]]; [| |done].
  - apply never_parks_bind; [done|]. intros entity.
    apply never_parks_bind.
    + destruct entity; [done | apply resolve_never_parks].
    + intros [e|]; [|done]. apply never_parks_bind; [|done].
      intros st st'. unfold call_send_message, raise_of.
      by destruct (send_message _ _ _ _ _).
  - apply never_parks_bind; [|done].
    intros st st'. unfold call_forward_messages, raise_of.
    by destruct (forward_messages _ _ _ _ _).
Qed.

Lemma process_job_outcome net worker_id job st :
  ∃ st' o,
    process_job net worker_id job st = (st', o)
    ∧ (o = Done tt
       ∨ (o = Parked
          ∧ ∃ seconds q,
              (deliver net job st).2 = Raised (FloodWaitError seconds)
              ∧ send_queue st = Some q ∧ full q = true)).
Proof.
  unfold process_job, try_finally, try_except at 1 2.
  destruct (deliver net job st) as [st1 [[]|e|]] eqn:Hdel; simpl.
  - unfold bind.
    destruct (finally_task_done_runs st1) as (st' & -> & _). eauto.
  - destruct (keeps_deliver _ _ _ _ _ Hdel) as [Hq1 _].
    destruct e as [| | | | |seconds|];
      try (unfold logger, emit, modify, bind; simpl;
           match goal with |- context [try_except _ _ _ ?s] =>
             destruct (finally_task_done_runs s) as (st' & -> & _) end; by eauto).
    unfold on_flood_wait, bind, logger, emit, modify, sleep, try_except at 1.
    unfold queue_put. simpl. rewrite Hq1.
    destruct (send_queue st) as [q|] eqn:Hq; simpl.
    + destruct (full q) eqn:Hfull; simpl.
      * do 2 eexists. split; [reflexivity|]. right. split; [done|].
        by exists seconds, q.
      * unfold put_nowait. rewrite Hfull. simpl.
        match goal with |- context [try_except _ _ _ ?s] =>
          destruct (finally_task_done_runs s) as (st' & -> & _) end. eauto.
    + unfold logger, emit, modify. simpl. eauto.
  - by destruct (deliver_never_parks _ _ _ _ Hdel).
Qed.

(** X5. No job, no answer of the platform and no state can make the
    worker loop end with an exception: every turn, and the loop over any
    number of turns, returns or stays parked. A job that was taken
    leaves the worker parked only where a flood wait puts it back into
    a full queue. *)
Theorem worker_loop_never_raises net worker_id turns job st :
  (∀ e, (send_worker_loop net worker_id turns st).2 ≠ Raised e)
  ∧ (∀ e, (worker_turn net worker_id st).2 ≠ Raised e)
  ∧ ((process_job net worker_id job st).2 = Done tt
     ∨ ((process_job net worker_id job st).2 = Parked
        ∧ ∃ seconds q,
            (deliver net job st).2 = Raised (FloodWaitError seconds)
            ∧ send_queue st = Some q ∧ full q = true)).
Proof.
  split; [|split].
  - intros e. unfold send_worker_loop, bind, gets, logger, emit, modify. simpl.
    destruct (send_queue st); [apply worker_turns_never_raise | done].
  - intros e. apply worker_turn_never_raises.
  - destruct (process_job_outcome net worker_id job st) as (st' & o & -> & H).
    simpl. destruct H as [-> | [-> H]]; [by left | by right].
Qed.

Lemma task_done_counts st q :
  send_queue st = Some q → 0 < unfinished_tasks q →
  try_except queue_task_done is_Exception (fun _ => ret tt) st
  = (set_send_queue (Some (mkQueue (maxsize q) (items q) (unfinished_tasks q - 1))) st,
     Done tt).
Proof.
  intros Hq Hpos. unfold try_except, queue_task_done, task_done. rewrite Hq.
  by rewrite (proj2 (Z.leb_gt _ _) Hpos).
Qed.

(** A turn whose delivery returns or fails with anything but a flood
    wait: the job is gone from the queue and is not put back. *)
Lemma worker_turn_consumes_job net worker_id job rest st q st1 o :
  send_queue st = Some q →
  items q = job :: rest →
  deliver net job (set_send_queue (Some (after_get q rest)) st) = (st1, o) →
  (∀ seconds, o ≠ Raised (FloodWaitError seconds)) →
  ∃ st',
    worker_turn net worker_id st = (st', Done true)
    ∧ trace st'
      = match o with
        | Raised e => (trace st1 ++ [Logged (SendError (job_user job) (job_target job) e)])%list
        | _ => trace st1
        end
    ∧ clock st' = clock st
    ∧ target_entity_cache st' = target_entity_cache st1
    ∧ items <$> send_queue st' = Some rest
    ∧ (0 < unfinished_tasks q →
       send_queue st' = Some (mkQueue (maxsize q) rest (unfinished_tasks q - 1))).
Proof.
  intros Hq Hi Hdel Hflood.
  destruct (keeps_deliver _ _ _ _ _ Hdel) as [Hq1 Hc1]. simpl in Hq1, Hc1.
  unfold worker_turn, take_job, try_except at 1, bind at 1 2.
  rewrite (queue_get_head _ _ _ _ Hq Hi). unfold ret at 1, bind at 1.
  unfold process_job, try_finally, try_except at 1 2. rewrite Hdel.
  destruct o as [[]|e|]; simpl.
  - unfold bind.
    destruct (finally_task_done_runs st1) as (st' & Hrun & Htr & Hck & Hca & Hit & _).
    rewrite Hrun. exists st'. repeat split; try congruence.
    + by rewrite Hit, Hq1.
    + intros Hpos. pose proof (task_done_counts st1 _ Hq1 Hpos) as H.
      rewrite Hrun in H. by injection H as ->.
  - assert (He : (match e with
                  | FloodWaitError seconds => on_flood_wait worker_id job seconds
                  | _ => logger (SendError (job_user job) (job_target job) e)
                  end) = logger (SendError (job_user job) (job_target job) e)).
    { destruct e; try done. by destruct (Hflood seconds). }
    rewrite He. unfold logger, emit, modify, bind. simpl.
    match goal with |- context [try_except _ _ _ ?s] =>
      destruct (finally_task_done_runs s) as (st' & Hrun & Htr & Hck & Hca & Hit & _);
      pose proof (task_done_counts s (after_get q rest) Hq1) as Hcount
    end.
    rewrite Hrun. exists st'. simpl in Htr, Hck, Hca.
    split; [done|]. split; [done|]. split; [congruence|]. split; [done|]. split.
    + rewrite Hit. simpl. by rewrite Hq1.
    + intros Hpos. rewrite Hrun in Hcount. specialize (Hcount Hpos).
      by injection Hcount as ->.
  - by destruct (deliver_never_parks _ _ _ _ Hdel).
Qed.

(** X6. When sending fails with anything but a flood wait, the worker
    logs the error and drops the job: the job is not put back, the rest
    of the queue is as it was, the clock does not move, and the worker
    goes on with its loop. *)
Theorem failed_send_drops_job net worker_id job rest st q st1 e :
  send_queue st = Some q →
  items q = job :: rest →
  deliver net job (set_send_queue (Some (after_get q rest)) st) = (st1, Raised e) →
  (∀ seconds, e ≠ FloodWaitError seconds) →
  ∃ st',
    worker_turn net worker_id st = (st', Done true)
    ∧ trace st'
      = (trace st1 ++ [Logged (SendError (job_user job) (job_target job) e)])%list
    ∧ clock st' = clock st
    ∧ items <$> send_queue st' = Some rest.
Proof.
  intros Hq Hi Hdel Hflood.
  destruct (worker_turn_consumes_job net worker_id _ _ _ _ _ _ Hq Hi Hdel)
    as (st' & Hturn & Htr & Hck & _ & Hit & _); [congruence|].
  by exists st'.
Qed.

(** X7. A text job whose target is not cached and cannot be resolved is
    dropped without any message being sent: the resolver is asked once,
    the failure and the skip are logged, the entry stays absent, and the
    worker goes on. *)
Theorem unresolved_target_skips_send net worker_id job rest st q message_text :
  job_payload job = Text message_text →
  send_queue st = Some q →
  items q = job :: rest →
  cache_lookup (job_user job) (job_target job) st = None →
  get_input_entity net (trace st) (job_client job) (job_target job) = None →
  ∃ st',
    worker_turn net worker_id st = (st', Done true)
    ∧ trace st'
      = (trace st
         ++ [GetInputEntity (job_user job) (job_client job) (job_target job) None;
             Logged (CouldNotResolve (job_target job) (job_user job));
             Logged (SkippedUnresolved (job_target job) (job_user job))])%list
    ∧ items <$> send_queue st' = Some rest
    ∧ cache_lookup (job_user job) (job_target job) st' = None.
Proof.
  intros Hpay Hq Hi Hmiss Hnet.
  set (st0 := set_send_queue (Some (after_get q rest)) st).
  destruct (resolve_miss_failure net (job_user job) (job_client job) (job_target job)
              st0 Hmiss Hnet) as (st1 & Hres & Htr & Hsame).
  assert (Hdel : deliver net job st0
                 = (set_trace (trace st1
                               ++ [Logged (SkippedUnresolved (job_target job) (job_user job))])
                      st1, Done tt)).
  { unfold deliver. rewrite Hpay. unfold bind at 1, gets.
    change (cache_lookup (job_user job) (job_target job) st0) with
      (cache_lookup (job_user job) (job_target job) st).
    rewrite Hmiss. unfold bind. by rewrite Hres. }
  destruct (worker_turn_consumes_job net worker_id _ _ _ _ _ _ Hq Hi Hdel)
    as (st' & Hturn & Htr' & _ & Hca & Hit & _); [done|].
  exists st'. split; [done|]. split; [|split; [done|]].
  - rewrite Htr'. simpl. rewrite Htr. simpl. by rewrite <- app_assoc.
  - simpl in Hca.
    transitivity (cache_lookup (job_user job) (job_target job) st1);
      [unfold cache_lookup; by rewrite Hca | by rewrite Hsame].
Qed.

(** X8. A text job for a cached target is sent to the cached entity
    without asking the resolver; one for a target that is not cached
    asks the resolver once, stores the answer and sends to it. *)
Theorem text_job_resolves_on_demand net worker_id job rest st q message_text entity :
  job_payload job = Text message_text →
  send_queue st = Some q →
  items q = job :: rest →
  let user_id := job_user job in
  let client := job_client job in
  let target_id := job_target job in
  (cache_lookup user_id target_id st = Some entity →
   send_message net (trace st) client entity message_text = Delivered →
   ∃ st',
     worker_turn net worker_id st = (st', Done true)
     ∧ trace st'
       = (trace st ++ [SendMessage client entity message_text Delivered;
                       Logged (SentMessage user_id target_id)])%list
     ∧ items <$> send_queue st' = Some rest)
  ∧ (cache_lookup user_id target_id st = None →
     get_input_entity net (trace st) client target_id = Some entity →
     send_message net
       (trace st ++ [GetInputEntity user_id client target_id (Some entity)])
       client entity message_text = Delivered →
     ∃ st',
       worker_turn net worker_id st = (st', Done true)
       ∧ trace st'
         = (trace st ++ [GetInputEntity user_id client target_id (Some entity);
                         SendMessage client entity message_text Delivered;
                         Logged (SentMessage user_id target_id)])%list
       ∧ items <$> send_queue st' = Some rest
       ∧ cache_lookup user_id target_id st' = Some entity).
Proof.
  intros Hpay Hq Hi user_id client target_id.
  set (st0 := set_send_queue (Some (after_get q rest)) st).
  split.
  - intros Hhit Hsend.
    assert (Hdel : deliver net job st0
                   = (set_trace (trace st ++ [SendMessage client entity message_text Delivered;
                                              Logged (SentMessage user_id target_id)]) st0,
                      Done tt)).
    { unfold deliver. rewrite Hpay. unfold bind at 1, gets.
      change (cache_lookup (job_user job) (job_target job) st0) with
        (cache_lookup user_id target_id st).
      rewrite Hhit. unfold bind, ret, call_send_message. simpl.
      fold client. rewrite Hsend. simpl.
      unfold logger, emit, modify, py_append. simpl. by rewrite <- app_assoc. }
    destruct (worker_turn_consumes_job net worker_id _ _ _ _ _ _ Hq Hi Hdel)
      as (st' & Hturn & Htr' & _ & _ & Hit & _); [done|].
    by exists st'.
  - intros Hmiss Hnet Hsend.
    destruct (resolve_miss_success net user_id client target_id st0 entity Hmiss Hnet)
      as (st1 & Hres & Htr & Hnow & _).
    assert (Hdel : deliver net job st0
                   = (set_trace (trace st1 ++ [SendMessage client entity message_text Delivered;
                                               Logged (SentMessage user_id target_id)]) st1,
                      Done tt)).
    { unfold deliver. rewrite Hpay. unfold bind at 1, gets.
      change (cache_lookup (job_user job) (job_target job) st0) with
        (cache_lookup user_id target_id st).
      rewrite Hmiss. unfold bind at 1.
      fold user_id client target_id. rewrite Hres.
      unfold bind, ret, call_send_message. rewrite Htr. simpl. simpl in Hsend.
      rewrite Hsend. simpl.
      unfold logger, emit, modify, py_append. simpl. by rewrite <- app_assoc. }
    destruct (worker_turn_consumes_job net worker_id _ _ _ _ _ _ Hq Hi Hdel)
      as (st' & Hturn & Htr' & _ & Hca & Hit & _); [done|].
    exists st'. split; [done|]. split; [|split; [done|]].
    + rewrite Htr'. simpl. rewrite Htr. simpl. by rewrite <- app_assoc.
    + simpl in Hca. rewrite <- Hnow. unfold cache_lookup. by rewrite Hca.
Qed.

Lemma worker_turns_forward net worker_id user_id client event orig targets :
  (∀ tr c t m, forward_messages net tr c t m = Delivered) →
  ev_message event = Some orig →
  ∀ st m u0,
    send_queue st
    = Some (mkQueue m (relay_job user_id client event <$> targets)
              (u0 + Z.of_nat (length targets))) →
    0 ≤ u0 →
    ∃ st',
      worker_turns net worker_id (length targets) st = (st', Done tt)
      ∧ trace st'
        = (trace st
           ++ (t ← targets;
               [ForwardMessages client t orig Delivered;
                Logged (ForwardedOriginal user_id t)]))%list
      ∧ send_queue st' = Some (mkQueue m [] u0).
Proof.
  intros Hnet Horig.
  induction targets as [|t rest IH]; intros st m u0 Hq Hu0; simpl.
  - exists st. rewrite app_nil_r. split; [done|]. split; [done|].
    rewrite Hq. simpl. do 2 f_equal. lia.
  - set (q := mkQueue m (relay_job user_id client event <$> t :: rest)
                (u0 + Z.of_nat (length (t :: rest)))) in *.
    set (job := relay_job user_id client event t).
    set (st0 := set_send_queue
                  (Some (after_get q (relay_job user_id client event <$> rest))) st).
    assert (Hdel : deliver net job st0
                   = (set_trace (trace st ++ [ForwardMessages client t orig Delivered;
                                              Logged (ForwardedOriginal user_id t)]) st0,
                      Done tt)).
    { unfold deliver, job, relay_job. simpl. rewrite Horig.
      unfold bind, call_forward_messages. rewrite Hnet. simpl.
      unfold logger, emit, modify, py_append. simpl. by rewrite <- app_assoc. }
    destruct (worker_turn_consumes_job net worker_id job _ st q _ _ Hq eq_refl Hdel)
      as (st1 & Hturn & Htr1 & _ & _ & _ & Hq1); [done|].
    unfold bind. rewrite Hturn.
    destruct (IH st1 m u0) as (st' & Hrun & Htr' & Hq'); [|done|].
    + rewrite Hq1 by (simpl; lia). simpl. do 2 f_equal. lia.
    + exists st'. split; [done|]. split; [|done].
      rewrite Htr', Htr1. simpl. by rewrite <- app_assoc.
Qed.

(** X9. Handler and worker together: in the setting of C7, with an empty
    queue and a platform that accepts every forward, the handler's relay
    jobs are worked off by [length targets] turns of a worker, which
    forwards the original message to every target in the order of the
    task's target list and leaves the queue as it found it. In the log
    the forwards follow the line of [optimized_gc], if a collection was
    due when the handler started, and the worker's "started" line. *)
Theorem relayed_message_reaches_targets_in_order
    net worker_id user_id client event orig message_text chat_id task per_user settings
    st q :
  (∀ tr c t m, forward_messages net tr c t m = Delivered) →
  ev_message event = Some orig →
  event_text event = Some message_text →
  PyStr.strip message_text ≠ ""%string →
  event_chat_id event = Some chat_id →
  chat_id ∈ source_ids task →
  tasks_cache st !! user_id = Some [task] →
  tasks_settings st !! user_id = Some per_user →
  per_user !! label task = Some settings →
  control settings = true →
  outgoing settings = true ∨ event_is_outgoing event = false →
  forward_tag settings = true →
  raw_text (filters settings) = true →
  send_queue st = Some q →
  items q = [] →
  0 ≤ unfinished_tasks q →
  has_room q (length (target_ids task)) →
  ∃ st',
    bind (_hot_message_handler user_id client event)
      (fun _ => send_worker_loop net worker_id (length (target_ids task))) st
    = (st', Done tt)
    ∧ trace st'
      = (trace (after_gc st)
         ++ Logged (WorkerStarted worker_id)
            :: (t ← target_ids task;
                [ForwardMessages client t orig Delivered;
                 Logged (ForwardedOriginal user_id t)]))%list
    ∧ send_queue st' = Some q.
Proof.
  intros Hnet Horig Htext Hstrip Hchat Hsrc Htasks Hu Hl Hctl Hout Hfwd Hraw Hq Hit
    Hunf Hroom.
  unfold bind at 1. rewrite handler_run.
  rewrite <- after_gc_tasks_cache in Htasks.
  rewrite <- after_gc_tasks_settings in Hu.
  rewrite <- after_gc_send_queue in Hq.
  rewrite (handler_relays_original _ _ _ _ _ _ _ _ _ _ Htext Hstrip Hchat Hsrc Htasks
             Hu Hl Hctl Hout Hfwd Hraw Hq Hroom).
  unfold send_worker_loop, bind, gets, logger, emit, modify. simpl.
  destruct (worker_turns_forward net worker_id user_id client event orig
              (target_ids task) Hnet Horig
              (set_trace (py_append (trace (after_gc st)) (Logged (WorkerStarted worker_id)))
                 (set_send_queue
                    (Some (enqueued (relay_job user_id client event <$> target_ids task) q))
                    (after_gc st)))
              (maxsize q) (unfinished_tasks q))
    as (st' & Hrun & Htr & Hq'); [|done|].
  - simpl. unfold enqueued. rewrite Hit, length_fmap. done.
  - exists st'. split; [exact Hrun|]. split.
    + rewrite Htr. simpl. unfold py_append. by rewrite <- app_assoc.
    + rewrite Hq'. f_equal. destruct q; simpl in *. by subst.
Qed.

(** X10. A successful resolution is stored: the call asks the resolver
    exactly once, returns the entity, and from then on every call for
    the same user and target returns it from the cache with no further
    call; entries of other users and targets, the queue and the clock are
    untouched. *)
Theorem successful_resolution_is_stored net user_id client target_id st entity :
  cache_lookup user_id target_id st = None →
  get_input_entity net (trace st) client target_id = Some entity →
  ∃ st',
    resolve_target_entity_once net user_id client target_id st = (st', Done (Some entity))
    ∧ trace st' = (trace st ++ [GetInputEntity user_id client target_id (Some entity)])%list
    ∧ (∀ client',
         resolve_target_entity_once net user_id client' target_id st'
         = (st', Done (Some entity)))
    ∧ (∀ u t, (u, t) ≠ (user_id, target_id) →
              cache_lookup u t st' = cache_lookup u t st)
    ∧ send_queue st' = send_queue st
    ∧ clock st' = clock st.
Proof.
  intros Hmiss Hnet.
  destruct (resolve_miss_success _ _ _ _ _ _ Hmiss Hnet) as (st' & Hrun & Htr & Hnow & Hoth).
  destruct (keeps_resolve _ _ _ _ _ _ _ Hrun) as [Hq Hc].
  exists st'. repeat split; try done.
  intros client'. by apply resolve_hit.
Qed.

(** ** Background resolution *)

Lemma background_run_refl retry_seconds budget st :
  background_run retry_seconds budget st st [].
Proof.
  unfold background_run. rewrite app_nil_r. simpl.
  repeat split; [lia | lia | done].
Qed.

Lemma background_run_trans retry_seconds b1 b2 st1 st2 st3 new1 new2 :
  background_run retry_seconds b1 st1 st2 new1 →
  background_run retry_seconds b2 st2 st3 new2 →
  background_run retry_seconds (b1 + b2) st1 st3 (new1 ++ new2).
Proof.
  intros (T1 & N1 & K1 & Q1 & C1) (T2 & N2 & K2 & Q2 & C2).
  unfold background_run. rewrite !count_effects_app.
  repeat split; [by rewrite T2, T1, app_assoc | lia | lia | congruence | eauto].
Qed.

Lemma resolve_once_run net user_id client tid st :
  ∃ st' ent new,
    resolve_target_entity_once net user_id client tid st = (st', Done ent)
    ∧ trace st' = (trace st ++ new)%list
    ∧ (count_effects is_get_input_entity new ≤ 1)%nat
    ∧ count_effects is_failed_get_input_entity new
      = match ent with Some _ => 0%nat | None => 1%nat end
    ∧ send_queue st' = send_queue st
    ∧ clock st' = clock st
    ∧ (∀ u t entity, cache_lookup u t st = Some entity → cache_lookup u t st' = Some entity)
    ∧ (match ent with
       | Some _ => is_Some (cache_lookup user_id tid st')
       | None => True
       end)
    ∧ (is_Some (cache_lookup user_id tid st) → new = [] ∧ is_Some ent ∧ st' = st)
    ∧ (cache_lookup user_id tid st = None →
       count_effects is_get_input_entity new = 1%nat
       ∧ (get_input_entity net (trace st) client tid = None → ent = None)).
Proof.
  destruct (cache_lookup user_id tid st) as [entity|] eqn:Hlook.
  - exists st, (Some entity), []. rewrite (resolve_hit _ _ _ _ _ _ Hlook), app_nil_r.
    simpl. repeat split; eauto. done.
  - destruct (get_input_entity net (trace st) client tid) as [entity|] eqn:Hnet.
    + destruct (resolve_miss_success _ _ _ _ _ _ Hlook Hnet)
        as (st' & Hrun & Htr & Hnow & Hoth).
      destruct (keeps_resolve _ _ _ _ _ _ _ Hrun) as [Hq Hc].
      exists st', (Some entity), [GetInputEntity user_id client tid (Some entity)].
      simpl. repeat split; eauto; try done; try (by intros [? ?]).
      all: intros u t e He;
        destruct (decide ((u, t) = (user_id, tid))) as [[= -> ->]|Hne];
        [congruence | by rewrite Hoth].
    + destruct (resolve_miss_failure _ _ _ _ _ Hlook Hnet) as (st' & Hrun & Htr & Hsame).
      destruct (keeps_resolve _ _ _ _ _ _ _ Hrun) as [Hq Hc].
      exists st', None,
        [GetInputEntity user_id client tid None; Logged (CouldNotResolve tid user_id)].
      simpl. repeat split; eauto; try done; try (by intros [? ?]).
      all: intros u t e He; by rewrite Hsame.
Qed.

Lemma retries_run net retry_seconds user_id client tid attempts st :
  ∃ st' resolved new,
    resolve_with_retries net retry_seconds user_id client tid attempts st
    = (st', Done resolved)
    ∧ background_run retry_seconds attempts st st' new
    ∧ (resolved = true → is_Some (cache_lookup user_id tid st')).
Proof.
  revert st. induction attempts as [|n IH]; intros st; simpl.
  - exists st, false, []. split; [done|]. split; [apply background_run_refl | done].
  - destruct (resolve_once_run net user_id client tid st)
      as (st1 & ent & new1 & Hrun & Htr & Hn & Hf & Hq & Hc & Hmono & Hent & _ & _).
    unfold bind at 1. rewrite Hrun. destruct ent as [entity|].
    + exists st1, true, new1. split; [done|]. split; [|done].
      unfold background_run. rewrite Hf. repeat split; eauto; lia.
    + unfold bind at 1. simpl.
      destruct (IH (sleep retry_seconds st1).1) as (st' & ok & new2 & Hrun2 & Hb2 & Hok).
      exists st', ok, (new1 ++ Slept retry_seconds :: new2)%list.
      split; [by rewrite <- Hrun2|]. split; [|done].
      destruct Hb2 as (T2 & N2 & K2 & Q2 & C2).
      unfold background_run. rewrite !count_effects_app. simpl in *.
      rewrite T2, K2, Hf. unfold py_append. rewrite Htr, <- !app_assoc. simpl.
      repeat split; [lia | lia | congruence | eauto].
Qed.

Lemma resolve_each_cons net retry_seconds user_id client tid rest :
  resolve_each net retry_seconds user_id client (tid :: rest)
  = bind (resolve_with_retries net retry_seconds user_id client tid 3)
      (fun resolved =>
         bind (resolve_each net retry_seconds user_id client rest)
           (fun more => ret (if resolved : bool then tid :: more else more))).
Proof. reflexivity. Qed.

Lemma each_run net retry_seconds user_id client target_ids st :
  ∃ st' resolved new,
    resolve_each net retry_seconds user_id client target_ids st = (st', Done resolved)
    ∧ background_run retry_seconds (3 * length target_ids) st st' new
    ∧ sublist resolved target_ids
    ∧ Forall (fun t => is_Some (cache_lookup user_id t st')) resolved.
Proof.
  revert st. induction target_ids as [|tid rest IH]; intros st;
    [|rewrite resolve_each_cons].
  - exists st, [], []. split; [done|]. split; [apply background_run_refl|].
    split; [constructor | constructor].
  - destruct (retries_run net retry_seconds user_id client tid 3 st)
      as (st1 & ok & new1 & Hrun1 & Hb1 & Hok).
    destruct (IH st1) as (st' & more & new2 & Hrun2 & Hb2 & Hsub & Hall).
    unfold bind at 1. rewrite Hrun1. unfold bind at 1. rewrite Hrun2.
    exists st', (if ok then tid :: more else more), (new1 ++ new2)%list.
    split; [done|]. split.
    { replace (3 * length (tid :: rest))%nat with (3 + 3 * length rest)%nat
        by (simpl; lia).
      by eapply background_run_trans. }
    destruct ok.
    + split; [by constructor|]. constructor; [|done].
      destruct (Hok eq_refl) as [e He]. exists e.
      destruct Hb2 as (_ & _ & _ & _ & Hmono). by apply Hmono.
    + split; [by constructor | done].
Qed.

(** X11. The background resolver always finishes: it never raises and
    never waits on the queue. It asks the platform at most three times
    per listed target, pauses [retry_seconds] once for each call that
    failed, leaves the queue alone, loses no cached entity, and the
    targets it reports as resolved are listed targets, in their order,
    that are cached when it returns. Without a client for the user it
    does nothing at all. *)
Theorem background_resolver_is_bounded
    net user_clients retry_seconds user_id target_ids st :
  ∃ st' resolved new,
    resolve_targets_for_user net user_clients retry_seconds user_id target_ids st
    = (st', Done resolved)
    ∧ trace st' = (trace st ++ new)%list
    ∧ (count_effects is_get_input_entity new ≤ 3 * length target_ids)%nat
    ∧ clock st'
      = clock st
        + retry_seconds * Z.of_nat (count_effects is_failed_get_input_entity new)
    ∧ send_queue st' = send_queue st
    ∧ (∀ u t entity,
         cache_lookup u t st = Some entity → cache_lookup u t st' = Some entity)
    ∧ sublist resolved target_ids
    ∧ Forall (fun t => is_Some (cache_lookup user_id t st')) resolved
    ∧ (user_clients !! user_id = None → st' = st ∧ resolved = []).
Proof.
  unfold resolve_targets_for_user.
  destruct (user_clients !! user_id) as [client|].
  - destruct (each_run net retry_seconds user_id client target_ids st)
      as (st' & resolved & new & Hrun & (T & N & K & Q & C) & Hsub & Hall).
    exists st', resolved, new. by repeat split.
  - exists st, [], []. rewrite app_nil_r. simpl.
    repeat split; eauto; try lia; try constructor. apply sublist_nil_l.
Qed.

Lemma retries_cached net retry_seconds user_id client tid n st :
  is_Some (cache_lookup user_id tid st) →
  resolve_with_retries net retry_seconds user_id client tid (S n) st = (st, Done true).
Proof.
  intros [entity Hhit]. simpl. unfold bind.
  by rewrite (resolve_hit _ _ _ _ _ _ Hhit).
Qed.

(** X12. Targets that are already cached cost the background resolver
    nothing: no call to the platform, no pause, the state is left as it
    was and every listed target is reported resolved. *)
Theorem background_resolver_skips_cached_targets
    net user_clients retry_seconds user_id client target_ids st :
  user_clients !! user_id = Some client →
  Forall (fun t => is_Some (cache_lookup user_id t st)) target_ids →
  resolve_targets_for_user net user_clients retry_seconds user_id target_ids st
  = (st, Done target_ids).
Proof.
  intros Hclient Hall. unfold resolve_targets_for_user. rewrite Hclient.
  induction Hall as [|tid rest Htid _ IH]; [done|].
  rewrite resolve_each_cons. unfold bind at 1.
  rewrite (retries_cached net retry_seconds user_id client tid 2 st Htid).
  unfold bind at 1. by rewrite IH.
Qed.

Lemma retries_offline net retry_seconds user_id client tid n st :
  (∀ tr c t, get_input_entity net tr c t = None) →
  cache_lookup user_id tid st = None →
  ∃ st' new,
    resolve_with_retries net retry_seconds user_id client tid n st = (st', Done false)
    ∧ trace st' = (trace st ++ new)%list
    ∧ count_effects is_get_input_entity new = n
    ∧ clock st' = clock st + retry_seconds * Z.of_nat n
    ∧ ∀ u t, cache_lookup u t st' = cache_lookup u t st.
Proof.
  intros Hoff. revert st. induction n as [|n IH]; intros st Hmiss.
  - exists st, []. rewrite app_nil_r. simpl. repeat split; eauto. lia.
  - destruct (resolve_miss_failure net user_id client tid st Hmiss (Hoff _ _ _))
      as (st1 & Hrun & Htr & Hsame).
    destruct (keeps_resolve _ _ _ _ _ _ _ Hrun) as [_ Hc].
    simpl. unfold bind at 1. rewrite Hrun. unfold bind at 1. simpl.
    destruct (IH (sleep retry_seconds st1).1) as (st' & new & Hrun' & Htr' & Hn & Hck & Hs').
    { change (cache_lookup user_id tid st1 = None). by rewrite Hsame. }
    exists st', (GetInputEntity user_id client tid None
                 :: Logged (CouldNotResolve tid user_id)
                 :: Slept retry_seconds :: new).
    split; [by rewrite <- Hrun'|].
    simpl in *. rewrite Htr', Hck, Hn, Htr, Hc. unfold py_append.
    rewrite <- !app_assoc. simpl. repeat split; [lia|].
    intros u t. rewrite Hs'. apply Hsame.
Qed.

(** X13. When the platform resolves nothing and none of the listed
    targets is cached, the background resolver tries each target three
    times and pauses after every try, the third included: it makes
    three calls and waits three times [retry_seconds] per target,
    reports none as resolved and leaves the cache as it was. *)
Theorem background_resolver_gives_up_after_three_tries
    net user_clients retry_seconds user_id client target_ids st :
  (∀ tr c t, get_input_entity net tr c t = None) →
  user_clients !! user_id = Some client →
  Forall (fun t => cache_lookup user_id t st = None) target_ids →
  ∃ st' new,
    resolve_targets_for_user net user_clients retry_seconds user_id target_ids st
    = (st', Done [])
    ∧ trace st' = (trace st ++ new)%list
    ∧ count_effects is_get_input_entity new = (3 * length target_ids)%nat
    ∧ clock st' = clock st + retry_seconds * (3 * Z.of_nat (length target_ids))
    ∧ ∀ u t, cache_lookup u t st' = cache_lookup u t st.
Proof.
  intros Hoff Hclient. unfold resolve_targets_for_user. rewrite Hclient.
  revert st. induction target_ids as [|tid rest IH]; intros st Hall.
  - exists st, []. rewrite app_nil_r. simpl. repeat split; eauto. lia.
  - apply Forall_cons in Hall as [Htid Hrest].
    destruct (retries_offline net retry_seconds user_id client tid 3 st Hoff Htid)
      as (st1 & new1 & Hrun1 & Htr1 & Hn1 & Hck1 & Hs1).
    destruct (IH st1) as (st' & new2 & Hrun2 & Htr2 & Hn2 & Hck2 & Hs2).
    { eapply Forall_impl; [exact Hrest|]. intros t Ht. simpl. by rewrite Hs1. }
    rewrite resolve_each_cons.
    unfold bind at 1. rewrite Hrun1. unfold bind at 1. rewrite Hrun2.
    exists st', (new1 ++ new2)%list. split; [done|].
    rewrite count_effects_app, Htr2, Htr1, Hn1, Hn2, Hck2, Hck1, app_assoc.
    repeat split; [simpl; lia | simpl length; lia |].
    intros u t. by rewrite Hs2.
Qed.

(** ** Toggles *)

Lemma setdefault_then_write user_id label (f : Settings → Settings) st :
  ∃ st',
    bind (settings_setdefault user_id label)
      (fun settings => write_settings user_id label (f settings)) st
    = (st', Done tt)
    ∧ settings_lookup user_id label st' = Some (f (current_settings user_id label st))
    ∧ (∀ u l, (u, l) ≠ (user_id, label) →
              settings_lookup u l st' = settings_lookup u l st)
    ∧ same_outside_settings st st'.
Proof.
  unfold bind, settings_setdefault, write_settings, modify, current_settings,
    settings_lookup.
  destruct (tasks_settings st !! user_id) as [per_user|] eqn:Hu; simpl.
  - destruct (per_user !! label) as [settings|] eqn:Hl; simpl.
    + rewrite Hu. eexists. split; [reflexivity|]. simpl.
      rewrite lookup_insert_eq. simpl. rewrite lookup_insert_eq.
      split; [done|]. split; [|done].
      intros u l Hne. destruct (decide (u = user_id)) as [->|Hne'].
      * rewrite lookup_insert_eq, Hu. simpl. rewrite lookup_insert_ne; [done|congruence].
      * by rewrite lookup_insert_ne.
    + rewrite lookup_insert_eq. eexists. split; [reflexivity|]. simpl.
      rewrite lookup_insert_eq. simpl. rewrite lookup_insert_eq.
      split; [done|]. split; [|done].
      intros u l Hne. destruct (decide (u = user_id)) as [->|Hne'].
      * rewrite lookup_insert_eq, Hu. simpl.
        rewrite !lookup_insert_ne; [done|congruence|congruence].
      * by rewrite !lookup_insert_ne.
  - rewrite lookup_insert_eq. eexists. split; [reflexivity|]. simpl.
    rewrite lookup_insert_eq. simpl. rewrite lookup_insert_eq.
    split; [done|]. split; [|done].
    intros u l Hne. destruct (decide (u = user_id)) as [->|Hne'].
    + rewrite lookup_insert_eq, Hu. simpl.
      rewrite lookup_insert_ne; [|congruence]. by rewrite lookup_singleton_ne by congruence.
    + by rewrite !lookup_insert_ne.
Qed.

Lemma setdefault_only user_id label st :
  ∃ st',
    settings_setdefault user_id label st = (st', Done (current_settings user_id label st))
    ∧ settings_lookup user_id label st' = Some (current_settings user_id label st)
    ∧ (∀ u l, (u, l) ≠ (user_id, label) →
              settings_lookup u l st' = settings_lookup u l st)
    ∧ same_outside_settings st st'.
Proof.
  unfold settings_setdefault, current_settings, settings_lookup.
  destruct (tasks_settings st !! user_id) as [per_user|] eqn:Hu; simpl.
  - destruct (per_user !! label) as [settings|] eqn:Hl; simpl.
    + exists st. rewrite Hu. simpl. by rewrite Hl.
    + eexists. split; [reflexivity|]. simpl. rewrite lookup_insert_eq. simpl.
      rewrite lookup_insert_eq. split; [done|]. split; [|done].
      intros u l Hne. destruct (decide (u = user_id)) as [->|Hne'].
      * rewrite lookup_insert_eq, Hu. simpl. rewrite lookup_insert_ne; [done|congruence].
      * by rewrite lookup_insert_ne.
  - eexists. split; [reflexivity|]. simpl. rewrite lookup_insert_eq. simpl.
    rewrite lookup_singleton_eq. split; [done|]. split; [|done].
    intros u l Hne. destruct (decide (u = user_id)) as [->|Hne'].
    + rewrite lookup_insert_eq, Hu. simpl. by rewrite lookup_singleton_ne by congruence.
    + by rewrite lookup_insert_ne.
Qed.

Lemma toggle_task_setting_run user_id label which st :
  ∃ st',
    _toggle_task_setting user_id label which st = (st', Done tt)
    ∧ settings_lookup user_id label st'
      = Some (toggled_setting which (current_settings user_id label st))
    ∧ (∀ u l, (u, l) ≠ (user_id, label) →
              settings_lookup u l st' = settings_lookup u l st)
    ∧ same_outside_settings st st'.
Proof.
  unfold _toggle_task_setting, toggled_setting.
  destruct (which =? "outgoing")%string;
    [apply (setdefault_then_write _ _ (fun s => with_outgoing (negb (outgoing s)) s))|].
  destruct (which =? "forwardtag")%string;
    [apply (setdefault_then_write _ _ (fun s => with_forward_tag (negb (forward_tag s)) s))|].
  destruct (which =? "control")%string;
    [apply (setdefault_then_write _ _ (fun s => with_control (negb (control s)) s))|].
  destruct (setdefault_only user_id label st) as (st' & Hrun & H).
  exists st'. unfold bind. by rewrite Hrun.
Qed.

Lemma toggled_setting_twice which s : toggled_setting which (toggled_setting which s) = s.
Proof.
  unfold toggled_setting.
  destruct (which =? "outgoing")%string; [destruct s; simpl; by rewrite negb_involutive|].
  destruct (which =? "forwardtag")%string; [destruct s; simpl; by rewrite negb_involutive|].
  destruct (which =? "control")%string; [destruct s; simpl; by rewrite negb_involutive|].
  done.
Qed.

(** X14. [_toggle_task_setting] negates the flag named by [which]
    ("outgoing", "forwardtag" for [forward_tag], "control") in the
    settings of that user and label, creating them from the defaults if
    they were missing; with any other name it changes no flag. Filters,
    prefix and suffix, the settings of every other user or label and the
    rest of the state stay as they were, and toggling twice gives the
    settings back. *)
Theorem toggle_task_setting_flips_one_flag user_id label which st :
  let before := current_settings user_id label st in
  let st1 := (_toggle_task_setting user_id label which st).1 in
  let st2 := (_toggle_task_setting user_id label which st1).1 in
  ∃ after,
    settings_lookup user_id label st1 = Some after
    ∧ outgoing after = xorb (which =? "outgoing")%string (outgoing before)
    ∧ forward_tag after = xorb (which =? "forwardtag")%string (forward_tag before)
    ∧ control after = xorb (which =? "control")%string (control before)
    ∧ filters after = filters before
    ∧ prefix after = prefix before
    ∧ suffix after = suffix before
    ∧ (∀ u l, (u, l) ≠ (user_id, label) →
              settings_lookup u l st1 = settings_lookup u l st)
    ∧ same_outside_settings st st1
    ∧ settings_lookup user_id label st2 = Some before.
Proof.
  intros before st1 st2.
  destruct (toggle_task_setting_run user_id label which st) as (s1 & Hrun1 & Hs1 & Ho1 & Hf1).
  destruct (toggle_task_setting_run user_id label which s1) as (s2 & Hrun2 & Hs2 & _).
  assert (st1 = s1) as -> by (unfold st1; by rewrite Hrun1).
  assert (st2 = s2) as -> by (unfold st2; by rewrite Hrun2).
  exists (toggled_setting which before). split; [done|].
  assert (Hflags :
    outgoing (toggled_setting which before)
    = xorb (which =? "outgoing")%string (outgoing before)
    ∧ forward_tag (toggled_setting which before)
      = xorb (which =? "forwardtag")%string (forward_tag before)
    ∧ control (toggled_setting which before)
      = xorb (which =? "control")%string (control before)
    ∧ filters (toggled_setting which before) = filters before
    ∧ prefix (toggled_setting which before) = prefix before
    ∧ suffix (toggled_setting which before) = suffix before).
  { unfold toggled_setting.
    destruct (which =? "outgoing")%string eqn:E1.
    - apply String.eqb_eq in E1 as ->. simpl. by destruct (outgoing before).
    - destruct (which =? "forwardtag")%string eqn:E2.
      + apply String.eqb_eq in E2 as ->. simpl. by destruct (forward_tag before).
      + destruct (which =? "control")%string; simpl; [by destruct (control before)|done]. }
  destruct Hflags as (? & ? & ? & ? & ? & ?).
  split_and!; try done.
  rewrite Hs2. unfold current_settings. rewrite Hs1. simpl.
  by rewrite toggled_setting_twice.
Qed.

Lemma with_filters_same s : with_filters (filters s) s = s.
Proof. by destruct s. Qed.

Lemma toggle_filter_run user_id label key st :
  ∃ st',
    _toggle_filter user_id label key st = (st', Done tt)
    ∧ settings_lookup user_id label st'
      = Some (with_filters (toggled_filter key (filters (current_settings user_id label st)))
                (current_settings user_id label st))
    ∧ (∀ u l, (u, l) ≠ (user_id, label) →
              settings_lookup u l st' = settings_lookup u l st)
    ∧ same_outside_settings st st'.
Proof.
  unfold toggled_filter.
  destruct (filter_get key (filters (current_settings user_id label st))) as [b|] eqn:Hget.
  - destruct (setdefault_then_write user_id label
                (fun s => with_filters (filter_set key (negb b) (filters s)) s) st)
      as (st' & Hrun & H).
    exists st'. split; [|done]. rewrite <- Hrun. unfold _toggle_filter, bind.
    destruct (setdefault_only user_id label st) as (st0 & -> & _). by rewrite Hget.
  - destruct (setdefault_only user_id label st) as (st0 & Hrun & Hs & H).
    exists st0. unfold _toggle_filter, bind. rewrite Hrun, Hget.
    by rewrite with_filters_same.
Qed.

Ltac by_filter_key key :=
  repeat match goal with
         | |- context [(key =? ?k)%string] =>
             let E := fresh "E" in
             destruct (key =? k)%string eqn:E;
             [apply String.eqb_eq in E; subst key; simpl; try done; try congruence|]
         end.

Lemma filter_get_set key b fs :
  is_Some (filter_get key fs) → filter_get key (filter_set key b fs) = Some b.
Proof.
  unfold filter_get, filter_set. by_filter_key key. by intros [? ?].
Qed.


Lemma filter_get_set_ne k key b fs :
  k ≠ key → filter_get k (filter_set key b fs) = filter_get k fs.
Proof.
  intros Hne. unfold filter_set.
  by_filter_key key; unfold filter_get; by_filter_key k; done.
Qed.

Lemma toggled_filter_twice key fs : toggled_filter key (toggled_filter key fs) = fs.
Proof.
  unfold toggled_filter, filter_get, filter_set.
  by_filter_key key; destruct fs; simpl; rewrite ?negb_involutive; done.
Qed.

Lemma toggled_filter_get key fs k :
  filter_get k (toggled_filter key fs)
  = if (k =? key)%string then negb <$> filter_get k fs else filter_get k fs.
Proof.
  unfold toggled_filter.
  destruct (k =? key)%string eqn:E.
  - apply String.eqb_eq in E as ->.
    destruct (filter_get key fs) as [b|] eqn:Hget; simpl; [|done].
    apply filter_get_set. by rewrite Hget.
  - apply String.eqb_neq in E.
    destruct (filter_get key fs); [by apply filter_get_set_ne | done].
Qed.

(** X15. [_toggle_filter] negates the filter flag named by [filterkey]
    in the settings of that user and label (created from the defaults if
    missing) and no other flag; a name that is not one of the six filter
    keys changes nothing. The three switches, prefix and suffix, the
    settings of every other user or label and the rest of the state stay
    as they were, and toggling twice gives the settings back. *)
Theorem toggle_filter_flips_one_filter user_id label filterkey st :
  let before := current_settings user_id label st in
  let st1 := (_toggle_filter user_id label filterkey st).1 in
  let st2 := (_toggle_filter user_id label filterkey st1).1 in
  ∃ after,
    settings_lookup user_id label st1 = Some after
    ∧ (∀ k, filter_get k (filters after)
            = if (k =? filterkey)%string
              then negb <$> filter_get k (filters before)
              else filter_get k (filters before))
    ∧ outgoing after = outgoing before
    ∧ forward_tag after = forward_tag before
    ∧ control after = control before
    ∧ prefix after = prefix before
    ∧ suffix after = suffix before
    ∧ (∀ u l, (u, l) ≠ (user_id, label) →
              settings_lookup u l st1 = settings_lookup u l st)
    ∧ same_outside_settings st st1
    ∧ settings_lookup user_id label st2 = Some before.
Proof.
  intros before st1 st2.
  destruct (toggle_filter_run user_id label filterkey st) as (s1 & Hrun1 & Hs1 & Ho1 & Hf1).
  destruct (toggle_filter_run user_id label filterkey s1) as (s2 & Hrun2 & Hs2 & _).
  assert (st1 = s1) as -> by (unfold st1; by rewrite Hrun1).
  assert (st2 = s2) as -> by (unfold st2; by rewrite Hrun2).
  eexists. split; [exact Hs1|]. fold before. simpl.
  split_and!; try done.
  - intros k. apply toggled_filter_get.
  - rewrite Hs2. unfold current_settings. rewrite Hs1. simpl.
    rewrite toggled_filter_twice. fold before. by destruct before.
Qed.

Lemma settings_lookup_Some user_id label st settings :
  settings_lookup user_id label st = Some settings →
  ∃ per_user, tasks_settings st !! user_id = Some per_user ∧ per_user !! label = Some settings.
Proof.
  unfold settings_lookup.
  destruct (tasks_settings st !! user_id) as [per_user|]; [|done].
  intros H. by exists per_user.
Qed.

(** X16. Switching [control] off silences a task: once
    [_toggle_task_setting] has been called with "control" on a task whose
    control was on, the handler passes the task over for every event, and
    if it is the user's only task the handler does nothing beyond its
    call to [optimized_gc]. *)
Theorem control_off_silences_task user_id client event message_text chat_id task st :
  control (current_settings user_id (label task) st) = true →
  let st1 := (_toggle_task_setting user_id (label task) "control" st).1 in
  process_task user_id client event message_text chat_id (event_is_outgoing event) task st1
  = (st1, Done tt)
  ∧ (tasks_cache st !! user_id = Some [task] →
     _hot_message_handler user_id client event st1 = (after_gc st1, Done tt)).
Proof.
  intros Hon st1.
  destruct (toggle_task_setting_run user_id (label task) "control" st)
    as (s1 & Hrun & Hs & _ & Hsame).
  assert (st1 = s1) as -> by (unfold st1; by rewrite Hrun).
  assert (Hpass : ∀ chat out, passed_over user_id chat out s1 task).
  { intros chat out. right. eexists. split; [exact Hs|]. left.
    unfold toggled_setting. simpl. by rewrite Hon. }
  split; [by apply process_task_passed_over|].
  intros Htasks. apply handler_nothing_to_forward. unfold nothing_to_forward.
  destruct (event_text event); [|done]. right.
  destruct (event_chat_id event); [|done].
  destruct Hsame as (-> & _). rewrite Htasks. by constructor.
Qed.

(** X17. Switching [raw_text] on starts the forwarding: once
    [_toggle_filter] has been called with "raw_text" on a task that had
    it off, with [control] and [forward_tag] on, a message in one of the
    task's sources is relayed to every target of the task; apart from the
    queue the state is the one [optimized_gc] leaves. *)
Theorem raw_text_on_starts_relaying
    user_id client event message_text chat_id task st q :
  let before := current_settings user_id (label task) st in
  raw_text (filters before) = false →
  control before = true →
  forward_tag before = true →
  outgoing before = true ∨ event_is_outgoing event = false →
  event_text event = Some message_text →
  PyStr.strip message_text ≠ ""%string →
  event_chat_id event = Some chat_id →
  chat_id ∈ source_ids task →
  tasks_cache st !! user_id = Some [task] →
  send_queue st = Some q →
  has_room q (length (target_ids task)) →
  let st1 := (_toggle_filter user_id (label task) "raw_text" st).1 in
  _hot_message_handler user_id client event st1
  = (set_send_queue
       (Some (enqueued (relay_job user_id client event <$> target_ids task) q))
       (after_gc st1),
     Done tt).
Proof.
  intros before Hraw Hctl Hfwd Hout Htext Hstrip Hchat Hsrc Htasks Hq Hroom st1.
  destruct (toggle_filter_run user_id (label task) "raw_text" st)
    as (s1 & Hrun & Hs & _ & (Ht & _ & Hqs & _)).
  assert (st1 = s1) as -> by (unfold st1; by rewrite Hrun).
  destruct (settings_lookup_Some _ _ _ _ Hs) as (per_user & Hu & Hl).
  fold before in Hl.
  rewrite handler_run.
  eapply handler_relays_original;
    rewrite ?after_gc_tasks_cache, ?after_gc_tasks_settings, ?after_gc_send_queue;
    try done; try congruence.
  unfold toggled_filter. simpl. by rewrite Hraw.
Qed.


(** ** Logout and the task list *)

(** X18. Once the caches of a user are cleared at logout, the handler of
    that user returns at once on every event, having done nothing beyond
    its call to [optimized_gc],
    and none of the user's targets is cached any more, so that the next
    resolution asks the platform again. Tasks and cached targets of other
    users, all stored settings (the user's own included) and the jobs
    already in the queue are left as they were. *)
Theorem logout_stops_forwarding user_id st :
  let st1 := clear_user_caches user_id st in
  (∀ client event,
     _hot_message_handler user_id client event st1 = (after_gc st1, Done tt))
  ∧ (∀ t, cache_lookup user_id t st1 = None)
  ∧ (∀ net client t, ∃ st' answer,
       resolve_target_entity_once net user_id client t st1 = (st', answer)
       ∧ resolver_calls user_id t (trace st') = S (resolver_calls user_id t (trace st1)))
  ∧ (∀ u, u ≠ user_id →
          tasks_cache st1 !! u = tasks_cache st !! u
          ∧ ∀ t, cache_lookup u t st1 = cache_lookup u t st)
  ∧ tasks_settings st1 = tasks_settings st
  ∧ send_queue st1 = send_queue st.
Proof.
  intros st1.
  assert (Hgone : ∀ t, cache_lookup user_id t st1 = None).
  { intros t. unfold cache_lookup, st1, clear_user_caches. simpl.
    by rewrite lookup_delete_eq. }
  split_and!; try done.
  - intros client event. apply handler_nothing_to_forward.
    unfold nothing_to_forward.
    destruct (event_text event); [|done]. right.
    destruct (event_chat_id event); [|done].
    unfold st1, clear_user_caches. simpl. by rewrite lookup_delete_eq.
  - intros net client t.
    assert (Hself : ∀ answer,
              is_resolver_call user_id t (GetInputEntity user_id client t answer) = true)
      by (intros; by apply is_resolver_call_true).
    destruct (get_input_entity net (trace st1) client t) as [entity|] eqn:Hnet.
    + destruct (resolve_miss_success _ _ _ _ _ _ (Hgone t) Hnet) as (st' & -> & Htr & _).
      exists st', (Done (Some entity)). split; [done|].
      unfold resolver_calls. rewrite Htr, count_effects_app. cbn [count_effects].
      rewrite Hself. lia.
    + destruct (resolve_miss_failure _ _ _ _ _ (Hgone t) Hnet) as (st' & -> & Htr & _).
      exists st', (Done None). split; [done|].
      unfold resolver_calls. rewrite Htr, count_effects_app. cbn [count_effects].
      rewrite Hself. cbn [is_resolver_call]. lia.
  - intros u Hne. unfold st1, clear_user_caches, cache_lookup. simpl.
    by rewrite !lookup_delete_ne.
Qed.

Lemma forget_task_tasks user_id label_ st u :
  tasks_cache (forget_task user_id label_ st) !! u
  = if decide (u = user_id)
    then filter (fun t => label t ≠ label_) <$> tasks_cache st !! u
    else tasks_cache st !! u.
Proof.
  unfold forget_task.
  destruct (tasks_cache st !! user_id) as [user_tasks|] eqn:Ht; simpl;
    destruct (tasks_settings st !! user_id); simpl;
    destruct (decide (u = user_id)) as [->|Hne];
    rewrite ?lookup_insert_eq, ?lookup_insert_ne, ?Ht by done; done.
Qed.

Lemma forget_task_settings user_id label_ st u :
  tasks_settings (forget_task user_id label_ st) !! u
  = if decide (u = user_id)
    then delete label_ <$> tasks_settings st !! u
    else tasks_settings st !! u.
Proof.
  unfold forget_task.
  destruct (tasks_cache st !! user_id) as [user_tasks|] eqn:Ht; simpl;
    destruct (tasks_settings st !! user_id) eqn:Hs; simpl;
    destruct (decide (u = user_id)) as [->|Hne];
    rewrite ?lookup_insert_eq, ?lookup_insert_ne, ?Hs by done; done.
Qed.

(** X19. Creating a task puts it at the end of the user's task list with
    the default settings; deleting it again removes every task of that
    label and pops the label's settings. When no earlier task carried the
    label, the user's list is back to what it was. Other labels of the
    user and everything of other users are untouched by both steps. *)
Theorem forget_undoes_remember user_id name sources targets st :
  let old := default [] (tasks_cache st !! user_id) in
  let st1 := remember_task user_id name sources targets st in
  let st2 := forget_task user_id name st1 in
  tasks_cache st1 !! user_id = Some (old ++ [mkTask name sources targets])%list
  ∧ settings_lookup user_id name st1 = Some _make_default_task_settings
  ∧ tasks_cache st2 !! user_id = Some (filter (fun t => label t ≠ name) old)
  ∧ (Forall (fun t => label t ≠ name) old → tasks_cache st2 !! user_id = Some old)
  ∧ settings_lookup user_id name st2 = None
  ∧ (∀ l, l ≠ name → settings_lookup user_id l st2 = settings_lookup user_id l st)
  ∧ (∀ u, u ≠ user_id →
          tasks_cache st2 !! u = tasks_cache st !! u
          ∧ ∀ l, settings_lookup u l st2 = settings_lookup u l st).
Proof.
  intros old st1 st2.
  assert (H1 : tasks_cache st1 !! user_id = Some (old ++ [mkTask name sources targets])%list).
  { unfold st1, remember_task. simpl. by rewrite lookup_insert_eq. }
  assert (Hs1 : tasks_settings st1 !! user_id
                = Some (<[name := _make_default_task_settings]>
                          (default ∅ (tasks_settings st !! user_id)))).
  { unfold st1, remember_task. simpl. by rewrite lookup_insert_eq. }
  assert (Ho1 : ∀ u, u ≠ user_id →
                tasks_cache st1 !! u = tasks_cache st !! u
                ∧ tasks_settings st1 !! u = tasks_settings st !! u).
  { intros u Hne. unfold st1, remember_task. simpl. by rewrite !lookup_insert_ne. }
  assert (H2 : tasks_cache st2 !! user_id = Some (filter (fun t => label t ≠ name) old)).
  { unfold st2. rewrite forget_task_tasks, decide_True, H1 by done. simpl. f_equal.
    rewrite filter_app, filter_cons_False, filter_nil, app_nil_r; [done|].
    simpl. by intros H. }
  assert (Hs2 : tasks_settings st2 !! user_id
                = Some (delete name (<[name := _make_default_task_settings]>
                                       (default ∅ (tasks_settings st !! user_id))))).
  { unfold st2. by rewrite forget_task_settings, decide_True, Hs1. }
  assert (Ho2 : ∀ u, u ≠ user_id →
                tasks_cache st2 !! u = tasks_cache st1 !! u
                ∧ tasks_settings st2 !! u = tasks_settings st1 !! u).
  { intros u Hne. unfold st2.
    by rewrite forget_task_tasks, forget_task_settings, !decide_False. }
  clearbody st2 st1.
  split_and!; try done.
  - unfold settings_lookup. rewrite Hs1. simpl. by rewrite lookup_insert_eq.
  - intros Hall. rewrite H2. f_equal. clear -Hall.
    induction Hall as [|t l Ht _ IH]; [done|].
    by rewrite filter_cons_True, IH.
  - unfold settings_lookup. rewrite Hs2. simpl. by rewrite lookup_delete_eq.
  - intros l Hne. unfold settings_lookup. rewrite Hs2. simpl.
    rewrite lookup_delete_ne, lookup_insert_ne by done.
    by destruct (tasks_settings st !! user_id).
  - intros u Hne. destruct (Ho1 u Hne) as [Ht Hs]. destruct (Ho2 u Hne) as [Ht2 Hs2'].
    split; [congruence|]. intros l. unfold settings_lookup. by rewrite Hs2', Hs.
Qed.



(** ** Callback data *)

Lemma has_char_app c (a b : string) :
  Callback.has_char c (a ++ b)%string = Callback.has_char c a || Callback.has_char c b.
Proof.
  induction a as [|d a IH]; [done|].
  rewrite string_app_cons. simpl. by rewrite IH, orb_assoc.
Qed.

Lemma split_first_part sep n cur s p rest :
  Callback.has_char sep cur = false →
  Callback.split_from sep (S n) cur s = p :: rest →
  Callback.has_char sep p = false.
Proof.
  revert cur. induction s as [|c s IH]; intros cur Hcur; simpl.
  - by intros [= <- _].
  - destruct (Ascii.eqb c sep) eqn:E.
    + by intros [= <- _].
    + apply IH. rewrite has_char_app, Hcur. simpl. by rewrite E.
Qed.

Lemma split_tail sep n cur s p rest :
  Callback.split_from sep (S n) cur s = p :: rest →
  rest = [] ∨ ∃ s', rest = Callback.split_from sep n EmptyString s'.
Proof.
  revert cur. induction s as [|c s IH]; intros cur; simpl.
  - intros [= _ <-]. by left.
  - destruct (Ascii.eqb c sep).
    + intros [= _ <-]. right. by exists s.
    + apply IH.
Qed.

Lemma action_has_no_underscore data p action more :
  Callback.split "_" 2 data = p :: action :: more →
  Callback.has_char "_" action = false.
Proof.
  unfold Callback.split. intros H.
  destruct (split_tail _ _ _ _ _ _ H) as [|[s' Hs']]; [done|].
  by eapply (split_first_part "_" 0 EmptyString s').
Qed.

Lemma cut_at_last_app sep (a b : string) :
  Callback.has_char sep b = false →
  Callback.cut_at_last sep (a ++ String sep b) = Some (a, b).
Proof.
  intros Hb.
  assert (Hnone : Callback.cut_at_last sep b = None).
  { induction b as [|c b IH]; [done|]. simpl in *.
    apply orb_false_iff in Hb as [Hc Hb]. by rewrite IH, Hc. }
  induction a as [|c a IH].
  - change (EmptyString ++ String sep b)%string with (String sep b). simpl.
    by rewrite Hnone, Ascii.eqb_refl.
  - rewrite string_app_cons. simpl. by rewrite IH.
Qed.

Lemma string_app_nil_r (s : string) : (s ++ "")%string = s.
Proof. induction s as [|c s IH]; [done|]. by rewrite string_app_cons, IH. Qed.

Lemma string_app_snoc (cur : string) c (a : string) :
  ((cur ++ String c EmptyString) ++ a)%string = (cur ++ String c a)%string.
Proof. induction cur as [|d cur IH]; [done|]. by rewrite !string_app_cons, IH. Qed.

Lemma split_no_more sep (cur s : string) :
  Callback.split_from sep 0 cur s = [(cur ++ s)%string].
Proof. by destruct s. Qed.

Lemma split_one_at_underscore (action rest cur : string) :
  Callback.has_char "_" action = false →
  Callback.split_from "_" 1 cur (action ++ String "_" rest)
  = [(cur ++ action)%string; rest].
Proof.
  revert cur. induction action as [|c a IH]; intros cur Hno.
  - change (EmptyString ++ String "_" rest)%string with (String "_" rest).
    cbn [Callback.split_from Ascii.eqb Bool.eqb].
    by rewrite split_no_more, string_app_nil_r.
  - rewrite string_app_cons. simpl in Hno.
    apply orb_false_iff in Hno as [Hc Ha].
    cbn [Callback.split_from]. rewrite Hc, (IH _ Ha).
    by rewrite string_app_snoc.
Qed.

Lemma split_two_prefix (action rest : string) :
  Callback.has_char "_" action = false →
  Callback.split "_" 2 ("task_" ++ action ++ "_" ++ rest) = ["task"; action; rest].
Proof.
  intros Hno. unfold Callback.split.
  change ("task_" ++ action ++ "_" ++ rest)%string
    with (String "t" (String "a" (String "s" (String "k" (String "_"
            (action ++ String "_" rest)))))).
  cbn [Callback.split_from Ascii.eqb Bool.eqb String.append].
  by rewrite (split_one_at_underscore action rest EmptyString Hno).
Qed.

Ltac split_task_data action rest :=
  match goal with
  | |- context [Callback.split "_" 2 ?data] =>
      change data with ("task_" ++ action ++ "_" ++ rest)%string;
      rewrite (split_two_prefix action rest eq_refl)
  end.

(** X20. No callback data reaches [_toggle_filter]: the action is the
    second piece of a split at underscores and so never contains one,
    which "filters_toggle" does. The data the filter buttons carry,
    "task_filters_toggle_<label>_<key>", opens the filters menu instead,
    for the label "toggle_<label>_<key>". *)
Theorem filter_buttons_never_toggle data label key :
  (∀ l k, Callback.task_callback data ≠ Callback.ToggleFilter l k)
  ∧ Callback.task_callback ("task_filters_toggle_" ++ label ++ "_" ++ key)
    = Callback.ShowFiltersMenu ("toggle_" ++ label ++ "_" ++ key).
Proof.
  split;
    [|unfold Callback.task_callback;
      by split_task_data "filters" ("toggle_" ++ label ++ "_" ++ key)%string].
  intros l k. unfold Callback.task_callback.
  destruct (Callback.split "_" 2 data) as [|p [|action more]] eqn:Hsplit; try done.
  pose proof (action_has_no_underscore _ _ _ _ Hsplit) as Hno.
  destruct (action =? "select")%string; [done|].
  destruct (action =? "filters")%string; [done|].
  destruct (action =? "toggle")%string.
  { by destruct (Callback.rsplit1 _ _) as [|? [|? ?]]. }
  destruct (action =? "delete")%string; [done|].
  destruct (action =? "filters_toggle")%string eqn:E.
  { apply String.eqb_eq in E as ->. done. }
  destruct (action =? "prefixsuffix")%string; [done|].
  destruct (action =? "confirm")%string; [|done].
  destruct more as [|payload [|? ?]]; try done.
  destruct (Callback.rsplit1 _ _) as [|? [|? [|? ?]]]; try done.
  match goal with |- context [if ?b then _ else _] => by destruct b end.
Qed.

(** X21. The callback data written into the task menus is read back as
    meant, whatever the label, underscores and hyphens included: the
    select, filters, delete and prefix/suffix buttons give back the
    label; a toggle button gives back the label and the name of the
    switch (the label is cut at the last underscore, and the names of
    the switches have none); the confirmation buttons give back the
    label and the answer. *)
Theorem task_menu_callbacks_round_trip label which :
  Callback.task_callback ("task_select_" ++ label) = Callback.ShowTaskMenu label
  ∧ Callback.task_callback ("task_filters_" ++ label) = Callback.ShowFiltersMenu label
  ∧ Callback.task_callback ("task_delete_" ++ label) = Callback.AskDeleteName label
  ∧ Callback.task_callback ("task_prefixsuffix_" ++ label)
    = Callback.OpenPrefixSuffix label
  ∧ Callback.task_callback ("task_confirm_" ++ label ++ "_yes")
    = Callback.ConfirmDelete label
  ∧ Callback.task_callback ("task_confirm_" ++ label ++ "_no") = Callback.CancelDelete
  ∧ (Callback.has_char "_" which = false →
     Callback.task_callback ("task_toggle_" ++ label ++ "_" ++ which)
     = Callback.ToggleTaskSetting label which).
Proof.
  unfold Callback.task_callback, Callback.rsplit1.
  split_and!.
  - by split_task_data "select" label.
  - by split_task_data "filters" label.
  - by split_task_data "delete" label.
  - by split_task_data "prefixsuffix" label.
  - split_task_data "confirm" (label ++ "_yes")%string.
    cbn [String.eqb Ascii.eqb Bool.eqb].
    by rewrite (cut_at_last_app "_" label "yes").
  - split_task_data "confirm" (label ++ "_no")%string.
    cbn [String.eqb Ascii.eqb Bool.eqb].
    by rewrite (cut_at_last_app "_" label "no").
  - intros Hno.
    split_task_data "toggle" (label ++ "_" ++ which)%string.
    cbn [String.eqb Ascii.eqb Bool.eqb].
    change ("_" ++ which)%string with (String "_" which).
    by rewrite (cut_at_last_app "_" label which).
Qed.


(** ** Starting up *)

Lemma ensure_keeps_one_handler add_raises user_id client reg :
  one_handler_per_user reg →
  one_handler_per_user (ensure_handler_registered_for_user add_raises user_id client reg).1.
Proof.
  intros [Hnodup Hrec]. unfold ensure_handler_registered_for_user.
  destruct (handler_registered reg !! user_id) eqn:Hreg; [done|].
  destruct add_raises; [done|].
  unfold one_handler_per_user. cbn [fst event_handlers handler_registered].
  unfold py_append. split.
  - rewrite fmap_app. simpl. apply NoDup_app. split; [done|]. split.
    + intros u Hu [->|Hin]%elem_of_cons; [|by apply elem_of_nil in Hin].
      apply list_elem_of_fmap in Hu as ([c h] & Hu & Hin). simpl in Hu.
      specialize (Hrec c h Hin). rewrite <- Hu in Hrec. congruence.
    + apply NoDup_singleton.
  - intros c h [Hin|Hin]%elem_of_app.
    + specialize (Hrec c h Hin).
      rewrite lookup_insert_ne; [done|]. intros Heq. rewrite <- Heq in Hrec. congruence.
    + apply list_elem_of_singleton in Hin as [= -> ->]. simpl.
      by rewrite lookup_insert_eq.
Qed.

(** X22. Registration attaches at most one handler per user. A call for
    a user whose handler is recorded changes nothing and logs nothing;
    a call whose [add_event_handler] raises records nothing, so a later
    call tries again; and after any run of calls from an empty registry
    every handler held by a client is the one recorded for its user and
    no user has two. *)
Theorem handler_is_registered_once add_raises user_id client reg calls :
  (is_Some (handler_registered reg !! user_id) →
   ensure_handler_registered_for_user add_raises user_id client reg = (reg, []))
  ∧ (handler_registered reg !! user_id = None →
     handler_registered
       (ensure_handler_registered_for_user true user_id client reg).1 !! user_id = None
     ∧ handler_registered
         (ensure_handler_registered_for_user false user_id client reg).1 !! user_id
       = Some (mkHandler user_id client))
  ∧ (one_handler_per_user reg →
     one_handler_per_user
       (ensure_handler_registered_for_user add_raises user_id client reg).1)
  ∧ one_handler_per_user (register_all calls (mkRegistry (user_clients reg) ∅ [])).
Proof.
  split_and!.
  - intros [h Hh]. unfold ensure_handler_registered_for_user. by rewrite Hh.
  - intros Hnone. unfold ensure_handler_registered_for_user. rewrite Hnone. simpl.
    split; [done | by rewrite lookup_insert_eq].
  - apply ensure_keeps_one_handler.
  - assert (Hinit : one_handler_per_user (mkRegistry (user_clients reg) ∅ [])).
    { split; simpl; [constructor|]. intros c h Hin. by apply elem_of_nil in Hin. }
    revert Hinit. generalize (mkRegistry (user_clients reg) ∅ []).
    induction calls as [|[[r u] c] rest IH]; intros reg0 Hinv; simpl; [done|].
    apply IH. by apply ensure_keeps_one_handler.
Qed.

Lemma keeps_settings_bind {A B} (m : M A) (k : A → M B) :
  keeps_settings m → (∀ a, keeps_settings (k a)) → keeps_settings (bind m k).
Proof.
  intros Hm Hk st st' o. unfold bind.
  destruct (m st) as [st1 [a|e|]] eqn:E; pose proof (Hm _ _ _ E) as H1.
  - intros H. rewrite <- H1. by eapply Hk.
  - by intros [= <- <-].
  - by intros [= <- <-].
Qed.

Lemma keeps_settings_try_except {A} (body : M A) handles handler :
  keeps_settings body → (∀ e, keeps_settings (handler e)) →
  keeps_settings (try_except body handles handler).
Proof.
  intros Hb Hh st st' o. unfold try_except.
  destruct (body st) as [st1 [a|e|]] eqn:E; pose proof (Hb _ _ _ E) as H1.
  - by intros [= <- <-].
  - destruct (handles e).
    + intros H. rewrite <- H1. by eapply Hh.
    + by intros [= <- <-].
  - by intros [= <- <-].
Qed.

Lemma keeps_settings_for_each {A} (l : list A) (body : A → M unit) :
  (∀ x, keeps_settings (body x)) → keeps_settings (for_each l body).
Proof.
  intros Hb. induction l as [|x l IH]; simpl.
  - by intros st st' o [= <- <-].
  - apply keeps_settings_bind; [apply Hb | intros _; apply IH].
Qed.

Lemma keeps_settings_queue_put job : keeps_settings (queue_put job).
Proof.
  intros st st' o. unfold queue_put.
  destruct (send_queue st) as [q|]; [|by intros [= <- <-]].
  destruct (full q); [by intros [= <- <-]|].
  destruct (put_nowait job q); by intros [= <- <-].
Qed.

Lemma keeps_settings_enqueue user_id client event settings out_messages target_id :
  keeps_settings (enqueue_for_target user_id client event settings out_messages target_id).
Proof.
  unfold enqueue_for_target.
  apply keeps_settings_try_except; [|by intros e st st' o [= <- <-]].
  apply keeps_settings_bind; [by intros st st' o [= <- <-]|].
  intros [q|]; [|by intros st st' o [= <- <-]].
  destruct (_ && _); [apply keeps_settings_queue_put|].
  apply keeps_settings_for_each. intros om. apply keeps_settings_queue_put.
Qed.

Lemma process_task_keeps_settings
    user_id client event message_text chat_id is_outgoing task st st' o :
  (chat_id ∈ source_ids task → is_Some (settings_lookup user_id (label task) st)) →
  process_task user_id client event message_text chat_id is_outgoing task st = (st', o) →
  tasks_settings st' = tasks_settings st.
Proof.
  intros Hhas. unfold process_task.
  destruct (bool_decide (chat_id ∈ source_ids task)) eqn:Hin; [|by intros [= <- <-]].
  apply bool_decide_eq_true in Hin. destruct (Hhas Hin) as [settings Hs].
  destruct (settings_lookup_Some _ _ _ _ Hs) as (per_user & Hu & Hl).
  unfold bind at 1. rewrite (settings_setdefault_present _ _ _ _ _ Hu Hl).
  destruct (negb (control settings)); [by intros [= <- <-]|].
  destruct (_ && _); [by intros [= <- <-]|].
  intros Hrun. refine (keeps_settings_bind _ _ _ _ _ _ _ Hrun).
  - intros s s' o'. unfold lift. destruct (_apply_filters_and_prefix_suffix _ _);
      by intros [= <- <-].
  - intros [|om rest]; [by intros s s' o' [= <- <-]|].
    apply keeps_settings_for_each. intros t. apply keeps_settings_enqueue.
Qed.


Lemma tasks_loop_keeps_settings
    user_id client event message_text chat_id is_outgoing l s s' o' :
  Forall (fun t => is_Some (settings_lookup user_id (label t) s)) l →
  for_each l (process_task user_id client event message_text chat_id is_outgoing) s
  = (s', o') →
  tasks_settings s' = tasks_settings s.
Proof.
  revert s. induction l as [|t l IH]; intros s Hl; simpl.
  - by intros [= <- <-].
  - apply Forall_cons in Hl as [Ht Hl]. unfold bind.
    destruct (process_task _ _ _ _ _ _ t s) as [s1 [[]|e|]] eqn:E;
      pose proof (process_task_keeps_settings _ _ _ _ _ _ _ _ _ _ (fun _ => Ht) E) as H1.
    + intros H. rewrite <- H1. eapply IH; [|done].
      eapply Forall_impl; [done|]. intros x. unfold settings_lookup. by rewrite H1.
    + by intros [= <- <-].
    + by intros [= <- <-].
Qed.

Lemma past_gc_keeps_settings user_id client event st :
  Forall (fun t => is_Some (settings_lookup user_id (label t) st))
    (default [] (tasks_cache st !! user_id)) →
  tasks_settings (handler_past_gc user_id client event st).1 = tasks_settings st.
Proof.
  intros Hall. unfold handler_past_gc, forward_event, try_except.
  match goal with |- context [match ?body st with _ => _ end] =>
    assert (Hbody : ∀ s' o', body st = (s', o') → tasks_settings s' = tasks_settings st);
    [|destruct (body st) as [s' [[]|e|]]; simpl; by apply (Hbody _ _ eq_refl)] end.
  intros s' o'.
  destruct (event_text event) as [message_text|]; [|by intros [= <- <-]].
  destruct (_ || _); [by intros [= <- <-]|].
  destruct (event_chat_id event) as [chat_id|]; [|by intros [= <- <-]].
  unfold bind at 1, gets.
  destruct (tasks_cache st !! user_id) as [user_tasks|]; [|by intros [= <- <-]].
  simpl in Hall.
  destruct user_tasks as [|t l]; [by intros [= <- <-]|].
  by apply tasks_loop_keeps_settings.
Qed.

Lemma handler_keeps_settings user_id client event st :
  Forall (fun t => is_Some (settings_lookup user_id (label t) st))
    (default [] (tasks_cache st !! user_id)) →
  tasks_settings (_hot_message_handler user_id client event st).1 = tasks_settings st.
Proof.
  intros Hall. rewrite handler_run, past_gc_keeps_settings.
  - apply after_gc_tasks_settings.
  - rewrite after_gc_tasks_cache.
    eapply Forall_impl; [exact Hall|].
    intros t. by rewrite settings_lookup_after_gc.
Qed.

Lemma init_settings_spec user_id user_tasks st :
  let st' := init_settings user_id user_tasks st in
  Forall (fun t => is_Some (settings_lookup user_id (label t) st')) user_tasks
  ∧ (∀ u l s, settings_lookup u l st = Some s → settings_lookup u l st' = Some s)
  ∧ (∀ l s, settings_lookup user_id l st' = Some s →
            settings_lookup user_id l st = Some s ∨ s = _make_default_task_settings)
  ∧ tasks_cache st' = tasks_cache st
  ∧ target_entity_cache st' = target_entity_cache st
  ∧ send_queue st' = send_queue st ∧ clock st' = clock st ∧ trace st' = trace st.
Proof.
  revert st. induction user_tasks as [|t rest IH]; intros st; simpl.
  - split_and!; auto.
  - match goal with |- context [init_settings user_id rest ?s] => set (st1 := s) end.
    destruct (IH st1) as (Hall & Hmono & Hnew & Ht & Hc & Hq & Hk & Htr).
    assert (H1 : is_Some (settings_lookup user_id (label t) st1)
                 ∧ (∀ u l s, settings_lookup u l st = Some s →
                             settings_lookup u l st1 = Some s)
                 ∧ (∀ l s, settings_lookup user_id l st1 = Some s →
                           settings_lookup user_id l st = Some s
                           ∨ s = _make_default_task_settings)
                 ∧ tasks_cache st1 = tasks_cache st
                 ∧ target_entity_cache st1 = target_entity_cache st
                 ∧ send_queue st1 = send_queue st ∧ clock st1 = clock st
                 ∧ trace st1 = trace st).
    { unfold st1, settings_lookup.
      destruct (tasks_settings st !! user_id) as [per_user|] eqn:Hu; simpl.
      - destruct (per_user !! label t) as [s0|] eqn:Hl; simpl.
        + rewrite Hu. simpl. rewrite Hl. split_and!; eauto.
        + rewrite lookup_insert_eq. simpl. rewrite lookup_insert_eq.
          split_and!; eauto.
          * intros u l s. destruct (decide (u = user_id)) as [->|Hne].
            -- rewrite lookup_insert_eq, Hu. simpl. intros Hs.
               rewrite lookup_insert_ne; [done|congruence].
            -- by rewrite lookup_insert_ne.
          * intros l s. destruct (decide (l = label t)) as [->|Hne].
            -- rewrite lookup_insert_eq. intros [= <-]. by right.
            -- rewrite lookup_insert_ne by done. by left.
      - rewrite lookup_empty. simpl. rewrite lookup_insert_eq. simpl.
        rewrite lookup_insert_eq. split_and!; eauto.
        * intros u l s. destruct (decide (u = user_id)) as [->|Hne].
          -- by rewrite Hu.
          -- by rewrite lookup_insert_ne.
        * intros l s. destruct (decide (l = label t)) as [->|Hne].
          -- rewrite lookup_insert_eq. intros [= <-]. by right.
          -- rewrite lookup_insert_ne, lookup_empty by done. done. }
    destruct H1 as (Hhas & Hmono1 & Hnew1 & Ht1 & Hc1 & Hq1 & Hk1 & Htr1).
    split_and!; try congruence.
    + constructor; [|done]. destruct Hhas as [s Hs]. exists s. by apply Hmono.
    + intros u l s Hs. by apply Hmono, Hmono1.
    + intros l s Hs. destruct (Hnew l s Hs) as [H|H]; [by apply Hnew1 | by right].
Qed.

(** X23. For a user with a client, [start_forwarding_for_user] leaves
    the user with a task list and with settings for every task on it:
    stored settings are kept as they are, the missing ones are the
    defaults, and queue, clock and trace are untouched. From then on the
    handler of that user never writes the settings store. Without a
    client for the user nothing changes. *)
Theorem start_forwarding_gives_every_task_settings add_raises user_id reg st :
  let st' := (start_forwarding_for_user add_raises user_id reg st).1 in
  let user_tasks := default [] (tasks_cache st !! user_id) in
  (user_clients reg !! user_id = None →
   start_forwarding_for_user add_raises user_id reg st = (st, (reg, [])))
  ∧ (is_Some (user_clients reg !! user_id) →
     tasks_cache st' !! user_id = Some user_tasks
     ∧ Forall (fun t => is_Some (settings_lookup user_id (label t) st')) user_tasks
     ∧ (∀ u l s, settings_lookup u l st = Some s → settings_lookup u l st' = Some s)
     ∧ (∀ l s, settings_lookup user_id l st' = Some s →
               settings_lookup user_id l st = Some s ∨ s = _make_default_task_settings)
     ∧ send_queue st' = send_queue st ∧ clock st' = clock st ∧ trace st' = trace st
     ∧ ∀ client event,
         tasks_settings (_hot_message_handler user_id client event st').1
         = tasks_settings st').
Proof.
  intros st' user_tasks. unfold start_forwarding_for_user in *.
  split; [by intros ->|]. intros [client Hclient].
  unfold st'. rewrite Hclient. cbv zeta. cbn [fst].
  set (st1 := setdefault_user_caches user_id st).
  assert (Ht1 : tasks_cache st1 !! user_id = Some user_tasks).
  { unfold st1, setdefault_user_caches, user_tasks. simpl.
    destruct (tasks_cache st !! user_id) eqn:E; [done | by rewrite lookup_insert_eq]. }
  assert (Hs1 : ∀ u l, settings_lookup u l st1 = settings_lookup u l st).
  { intros u l. unfold st1, setdefault_user_caches, settings_lookup. simpl.
    destruct (tasks_settings st !! user_id) eqn:E; [done|].
    destruct (decide (u = user_id)) as [->|Hne].
    - by rewrite lookup_insert_eq, E.
    - by rewrite lookup_insert_ne. }
  rewrite Ht1. change (default [] (Some user_tasks)) with user_tasks.
  destruct (init_settings_spec user_id user_tasks st1)
    as (Hall & Hmono & Hnew & Ht & Hc & Hq & Hk & Htr).
  split_and!; try done.
  - by rewrite Ht.
  - intros u l s Hs. apply Hmono. by rewrite Hs1.
  - intros l s Hs. rewrite <- Hs1. by apply Hnew.
  - intros c event. apply handler_keeps_settings. by rewrite Ht, Ht1.
Qed.

Lemma fold_append_workers (l : list Z) (tasks : list Z) :
  fold_left (fun tasks i => py_append tasks (i + 1)) l tasks
  = (tasks ++ ((fun i => i + 1) <$> l))%list.
Proof.
  revert tasks. induction l as [|i l IH]; intros tasks; simpl.
  - by rewrite app_nil_r.
  - rewrite IH. unfold py_append. by rewrite <- app_assoc.
Qed.

(** X24. [start_send_workers] works once: the first call leaves a queue
    in place (a queue that already exists is kept with its jobs, else an
    empty one of capacity [SEND_QUEUE_MAXSIZE] is made), creates
    [SEND_WORKER_COUNT] workers numbered from 1, none for a count of
    zero or less, and logs their number, changing nothing else; every
    later call changes neither the state nor the pool. *)
Theorem send_workers_start_once maxsize_ count pool st :
  _send_workers_started pool = false →
  ∃ st' pool',
    start_send_workers maxsize_ count pool st = (st', Done pool')
    ∧ _send_workers_started pool' = true
    ∧ worker_tasks pool'
      = (worker_tasks pool ++ (Z.of_nat <$> seq 1 (Z.to_nat count)))%list
    ∧ send_queue st' = Some (default (new_queue maxsize_) (send_queue st))
    ∧ trace st' = (trace st ++ [Logged (SpawnedWorkers count)])%list
    ∧ set_trace (trace st) (set_send_queue (send_queue st) st') = st
    ∧ ∀ maxsize2 count2,
        start_send_workers maxsize2 count2 pool' st' = (st', Done pool').
Proof.
  intros Hnot. unfold start_send_workers. rewrite Hnot.
  unfold bind, modify, ret, logger, emit, modify. eexists. eexists.
  split; [reflexivity|]. simpl.
  split_and!; try done.
  - rewrite fold_append_workers. f_equal. unfold py_range.
    rewrite <- list_fmap_compose. generalize (Z.to_nat count) as n. intros n.
    generalize 0%nat as k. induction n as [|n IH]; intros k; simpl; [done|].
    f_equal; [lia | apply IH].
  - destruct (send_queue st) eqn:Hq; simpl; [by rewrite Hq | done].
  - by destruct (send_queue st).
  - destruct (send_queue st) eqn:Hq; simpl.
    + rewrite <- Hq. by destruct st.
    + destruct st. simpl in *. by subst.
Qed.

(** ** A queue without bound *)

Lemma handler_effect_unbounded st st' :
  handler_effect st st' → queue_unbounded st → queue_unbounded st'.
Proof.
  intros (_ & _ & _ & Hext & _) Hun q' Hq'. unfold extends_queue in Hext.
  destruct (send_queue st) as [q|] eqn:Hq; [|by rewrite Hq' in Hext].
  rewrite Hq' in Hext. destruct Hext as [added ->]. simpl. by apply Hun.
Qed.

Lemma free_bind {A B} (m : M A) (k : A → M B) :
  has_handler_effect m → runs_freely m → (∀ a, runs_freely (k a)) →
  runs_freely (bind m k).
Proof.
  intros He Hm Hk st st' Hun. unfold bind.
  destruct (m st) as [st1 [a|e|]] eqn:E; [|done|by destruct (Hm _ _ Hun E)].
  apply Hk. eapply handler_effect_unbounded; [by eapply He | done].
Qed.

Lemma free_try_except {A} (body : M A) handles handler :
  has_handler_effect body → runs_freely body → (∀ e, runs_freely (handler e)) →
  runs_freely (try_except body handles handler).
Proof.
  intros He Hb Hh st st' Hun. unfold try_except.
  destruct (body st) as [st1 [a|e|]] eqn:E; [done| |by destruct (Hb _ _ Hun E)].
  destruct (handles e); [|done].
  apply Hh. eapply handler_effect_unbounded; [by eapply He | done].
Qed.

Lemma free_for_each {A} (l : list A) (body : A → M unit) :
  (∀ x, has_handler_effect (body x)) → (∀ x, runs_freely (body x)) →
  runs_freely (for_each l body).
Proof.
  intros He Hb. induction l as [|x l IH]; simpl; [done|].
  apply free_bind; [apply He | apply Hb | intros _; apply IH].
Qed.

Lemma free_queue_put job : runs_freely (queue_put job).
Proof.
  intros st st' Hun. unfold queue_put.
  destruct (send_queue st) as [q|] eqn:Hq; [|done].
  assert (Hfull : full q = false).
  { unfold full. by rewrite (proj2 (Z.leb_le _ _) (Hun q Hq)). }
  rewrite Hfull. unfold put_nowait. by rewrite Hfull.
Qed.

Lemma free_logger r : runs_freely (logger r).
Proof. by intros st st' _. Qed.

Lemma free_enqueue user_id client event settings out_messages target_id :
  runs_freely (enqueue_for_target user_id client event settings out_messages target_id).
Proof.
  unfold enqueue_for_target.
  apply free_try_except; [| |intros; apply free_logger].
  - apply effect_bind; [apply effect_gets|].
    intros [q|]; [|apply effect_logger].
    destruct (_ && _); [apply effect_queue_put|].
    apply effect_for_each. intros om. apply effect_queue_put.
  - apply free_bind; [apply effect_gets | done |].
    intros [q|]; [|apply free_logger].
    destruct (_ && _); [apply free_queue_put|].
    apply free_for_each; intros om; [apply effect_queue_put | apply free_queue_put].
Qed.

Lemma free_process_task user_id client event message_text chat_id is_outgoing task :
  runs_freely (process_task user_id client event message_text chat_id is_outgoing task).
Proof.
  unfold process_task. destruct (bool_decide _); [|done].
  apply free_bind; [apply effect_settings_setdefault| |].
  - intros st st' _. unfold settings_setdefault.
    destruct (_ !! _) as [per_user|]; [|done]. by destruct (_ !! _).
  - intros settings.
    destruct (negb (control settings)); [done|].
    destruct (_ && _); [done|].
    apply free_bind; [apply effect_lift | |].
    + intros st st' _. unfold lift. by destruct (_apply_filters_and_prefix_suffix _ _).
    + intros [|om rest]; [done|].
      apply free_for_each; intros t; [apply effect_enqueue_for_target | apply free_enqueue].
Qed.

(** X25. With no bound on the queue ([maxsize] zero or less, as
    [asyncio.Queue] reads it) the handler never waits: on every event and
    in every state it returns, and the queue is still unbounded
    afterwards. *)
Theorem unbounded_queue_never_parks_handler user_id client event st :
  queue_unbounded st →
  (_hot_message_handler user_id client event st).2 = Done tt
  ∧ queue_unbounded (_hot_message_handler user_id client event st).1.
Proof.
  intros Hun.
  destruct (_hot_message_handler user_id client event st) as [st' o] eqn:Hrun. simpl.
  split; [|eapply handler_effect_unbounded; [by eapply effect_handler | done]].
  destruct o as [[]|e|]; [done| |].
  - pose proof (handler_never_raises user_id client event st e) as H.
    rewrite Hrun in H. by destruct H.
  - exfalso. revert Hrun. revert st st' Hun. unfold _hot_message_handler.
    apply free_try_except; [| |intros; apply free_logger].
    + apply effect_bind; [apply effect_optimized_gc|].
      intros _. apply effect_forward_event.
    + apply free_bind; [apply effect_optimized_gc | |].
      { intros st st' _. by rewrite optimized_gc_run. }
      intros _. unfold forward_event.
      destruct (event_text event) as [message_text|]; [|done].
      destruct (_ || _); [done|].
      destruct (event_chat_id event) as [chat_id|]; [|done].
      apply free_bind; [apply effect_gets | done |].
      intros [[|t l]|]; try done.
      apply free_for_each; intros task;
        [apply effect_process_task | apply free_process_task].
Qed.


(** ** Instances *)

Import Example.

Lemma nothing_to_forward_witness :
  _hot_message_handler 1 5 other_event hello_state = (hello_state, Done tt)
  ∧ _hot_message_handler 1 5 other_event late_state
    = (set_last_gc_run 1000 (set_trace [Logged GarbageCollected] late_state), Done tt).
Proof.
  assert (Hother : ∀ st, tasks_cache st !! 1 = Some [relay_task] →
                         nothing_to_forward 1 other_event st).
  { intros st Htasks. right. simpl. rewrite Htasks.
    apply Forall_cons. split; [|apply Forall_nil_2].
    left. vm_compute. intros H. by apply list_elem_of_singleton in H. }
  split.
  - apply (proj1 (proj2
             (handler_leaves_state_when_nothing_to_forward 1 5 other_event hello_state
                (Hother hello_state eq_refl)))).
    vm_compute. discriminate.
  - apply (proj1
             (handler_leaves_state_when_nothing_to_forward 1 5 other_event late_state
                (Hother late_state eq_refl))).
Defined.

Lemma raw_text_sends_text_witness :
  process_task 1 5 hello_event "hello" 100 false relay_task text_state
  = (set_send_queue (Some (enqueued text_jobs_for_hello (new_queue 10000))) text_state,
     Done tt)
  ∧ (tasks_cache text_state !! 1 = Some [relay_task] →
     _hot_message_handler 1 5 hello_event text_state
     = (set_send_queue (Some (enqueued text_jobs_for_hello (new_queue 10000))) text_state,
        Done tt)).
Proof.
  apply (raw_text_without_forward_tag_sends_text 1 5 hello_event "hello" 100 relay_task
           {[ "relay"%string := text_settings ]} text_settings
           text_state (new_queue 10000));
    try reflexivity.
  - vm_compute. discriminate.
  - apply list_elem_of_here.
  - by left.
  - right. vm_compute. discriminate.
Defined.

Lemma without_queue_witness :
  _hot_message_handler 1 5 hello_event no_queue_state
  = (set_trace [Logged QueueNotInitialized; Logged QueueNotInitialized] no_queue_state,
     Done tt)
  ∧ _hot_message_handler 1 5 hello_event late_state
    = (set_last_gc_run 1000
         (set_trace [Logged GarbageCollected;
                     Logged QueueNotInitialized; Logged QueueNotInitialized] late_state),
       Done tt).
Proof.
  assert (Hstrip : PyStr.strip "hello" ≠ ""%string) by (vm_compute; discriminate).
  split.
  - apply (proj2
             (without_queue_jobs_are_dropped 1 5 hello_event "hello" 100 relay_task
                {[ "relay"%string := raw_forward_settings ]} raw_forward_settings
                no_queue_state eq_refl Hstrip eq_refl (list_elem_of_here _ _)
                eq_refl eq_refl eq_refl eq_refl (or_introl eq_refl) eq_refl eq_refl)).
    vm_compute. discriminate.
  - apply (proj1
             (without_queue_jobs_are_dropped 1 5 hello_event "hello" 100 relay_task
                {[ "relay"%string := raw_forward_settings ]} raw_forward_settings
                late_state eq_refl Hstrip eq_refl (list_elem_of_here _ _)
                eq_refl eq_refl eq_refl eq_refl (or_introl eq_refl) eq_refl eq_refl)).
Defined.

Lemma failed_send_witness :
  ∃ st',
    worker_turn offline_net 1 two_jobs_state = (st', Done true)
    ∧ trace st'
      = [ForwardMessages 5 200 hello_message Failed; Logged (SendError 1 200 OtherError)]
    ∧ clock st' = 0
    ∧ items <$> send_queue st' = Some [relay_300].
Proof.
  apply (failed_send_drops_job offline_net 1 relay_200 [relay_300]
           two_jobs_state (mkQueue 10 [relay_200; relay_300] 2)
           (set_trace [ForwardMessages 5 200 hello_message Failed]
              (set_send_queue
                 (Some (after_get (mkQueue 10 [relay_200; relay_300] 2) [relay_300]))
                 two_jobs_state))
           OtherError);
    try reflexivity.
  intros seconds. discriminate.
Defined.

Lemma unresolved_target_witness :
  ∃ st',
    worker_turn offline_net 1 text_job_state = (st', Done true)
    ∧ trace st'
      = [GetInputEntity 1 5 200 None; Logged (CouldNotResolve 200 1);
         Logged (SkippedUnresolved 200 1)]
    ∧ items <$> send_queue st' = Some []
    ∧ cache_lookup 1 200 st' = None.
Proof.
  apply (unresolved_target_skips_send offline_net 1 text_200 [] text_job_state
           (mkQueue 10 [text_200] 1) "hello");
    reflexivity.
Defined.

Lemma text_job_witness :
  (∃ st',
     worker_turn online_net 1 cached_job_state = (st', Done true)
     ∧ trace st' = [SendMessage 5 1200 "hello" Delivered; Logged (SentMessage 1 200)]
     ∧ items <$> send_queue st' = Some [])
  ∧ (∃ st',
       worker_turn online_net 1 text_job_state = (st', Done true)
       ∧ trace st'
         = [GetInputEntity 1 5 200 (Some 1200); SendMessage 5 1200 "hello" Delivered;
            Logged (SentMessage 1 200)]
       ∧ items <$> send_queue st' = Some []
       ∧ cache_lookup 1 200 st' = Some 1200).
Proof.
  split.
  - apply (proj1 (text_job_resolves_on_demand online_net 1 text_200 [] cached_job_state
                    (mkQueue 10 [text_200] 1) "hello" 1200
                    eq_refl eq_refl eq_refl));
      reflexivity.
  - apply (proj2 (text_job_resolves_on_demand online_net 1 text_200 [] text_job_state
                    (mkQueue 10 [text_200] 1) "hello" 1200
                    eq_refl eq_refl eq_refl));
      reflexivity.
Defined.

Lemma relayed_message_witness :
  ∃ st',
    bind (_hot_message_handler 1 5 hello_event)
      (fun _ => send_worker_loop online_net 1 2) hello_state
    = (st', Done tt)
    ∧ trace st'
      = [Logged (WorkerStarted 1);
         ForwardMessages 5 200 hello_message Delivered; Logged (ForwardedOriginal 1 200);
         ForwardMessages 5 300 hello_message Delivered; Logged (ForwardedOriginal 1 300)]
    ∧ send_queue st' = Some (new_queue 10000).
Proof.
  apply (relayed_message_reaches_targets_in_order online_net 1 1 5 hello_event
           hello_message "hello" 100 relay_task
           {[ "relay"%string := raw_forward_settings ]} raw_forward_settings
           hello_state (new_queue 10000));
    try reflexivity.
  - vm_compute. discriminate.
  - apply list_elem_of_here.
  - by left.
  - right. vm_compute. discriminate.
Defined.

Lemma successful_resolution_witness :
  ∃ st',
    resolve_target_entity_once online_net 1 5 200 text_job_state = (st', Done (Some 1200))
    ∧ trace st' = [GetInputEntity 1 5 200 (Some 1200)]
    ∧ (∀ client',
         resolve_target_entity_once online_net 1 client' 200 st' = (st', Done (Some 1200)))
    ∧ (∀ u t, (u, t) ≠ (1, 200) → cache_lookup u t st' = cache_lookup u t text_job_state)
    ∧ send_queue st' = send_queue text_job_state
    ∧ clock st' = 0.
Proof.
  apply (successful_resolution_is_stored online_net 1 5 200 text_job_state 1200);
    reflexivity.
Defined.

Lemma cached_targets_witness :
  resolve_targets_for_user offline_net {[ 1 := 5 ]} 3 1 [200] cached_state
  = (cached_state, Done [200]).
Proof.
  apply (background_resolver_skips_cached_targets offline_net {[ 1 := 5 ]} 3 1 5 [200]
           cached_state);
    [reflexivity|].
  apply Forall_cons. split; [|apply Forall_nil_2]. by exists 1200.
Defined.

Lemma three_tries_witness :
  ∃ st' new,
    resolve_targets_for_user offline_net {[ 1 := 5 ]} 3 1 [200; 300] two_jobs_state
    = (st', Done [])
    ∧ trace st' = ([] ++ new)%list
    ∧ count_effects is_get_input_entity new = 6%nat
    ∧ clock st' = 0 + 3 * (3 * 2)
    ∧ ∀ u t, cache_lookup u t st' = cache_lookup u t two_jobs_state.
Proof.
  apply (background_resolver_gives_up_after_three_tries offline_net {[ 1 := 5 ]} 3 1 5
           [200; 300] two_jobs_state);
    [reflexivity | reflexivity |].
  repeat (apply Forall_cons; split; [reflexivity|]). apply Forall_nil_2.
Defined.

Lemma control_off_witness :
  process_task 1 5 hello_event "hello" 100 false relay_task
    (_toggle_task_setting 1 "relay" "control" hello_state).1
  = ((_toggle_task_setting 1 "relay" "control" hello_state).1, Done tt)
  ∧ (tasks_cache hello_state !! 1 = Some [relay_task] →
     _hot_message_handler 1 5 hello_event
       (_toggle_task_setting 1 "relay" "control" hello_state).1
     = ((_toggle_task_setting 1 "relay" "control" hello_state).1, Done tt)).
Proof.
  apply (control_off_silences_task 1 5 hello_event "hello" 100 relay_task hello_state).
  reflexivity.
Defined.

Lemma raw_text_on_witness :
  _hot_message_handler 1 5 hello_event
    (_toggle_filter 1 "relay" "raw_text" fresh_state).1
  = (set_send_queue (Some (enqueued [relay_200; relay_300] (new_queue 10000)))
       (_toggle_filter 1 "relay" "raw_text" fresh_state).1,
     Done tt).
Proof.
  apply (raw_text_on_starts_relaying 1 5 hello_event "hello" 100 relay_task fresh_state
           (new_queue 10000));
    try reflexivity.
  - by left.
  - vm_compute. discriminate.
  - apply list_elem_of_here.
  - right. vm_compute. discriminate.
Defined.

Lemma send_workers_witness :
  ∃ st' pool',
    start_send_workers 10000 3 idle_pool no_queue_state = (st', Done pool')
    ∧ _send_workers_started pool' = true
    ∧ worker_tasks pool' = [1; 2; 3]
    ∧ send_queue st' = Some (new_queue 10000)
    ∧ trace st' = [Logged (SpawnedWorkers 3)]
    ∧ set_trace [] (set_send_queue None st') = no_queue_state
    ∧ ∀ maxsize2 count2,
        start_send_workers maxsize2 count2 pool' st' = (st', Done pool').
Proof.
  apply (send_workers_start_once 10000 3 idle_pool no_queue_state). reflexivity.
Defined.

Lemma toggle_callback_witness :
  Callback.task_callback "task_toggle_my_task_control"
  = Callback.ToggleTaskSetting "my_task" "control".
Proof.
  apply (proj2 (proj2 (proj2 (proj2 (proj2 (proj2
           (task_menu_callbacks_round_trip "my_task" "control"))))))).
  reflexivity.
Defined.

Lemma unbounded_queue_witness :
  (_hot_message_handler 1 5 hello_event unbounded_state).2 = Done tt
  ∧ queue_unbounded (_hot_message_handler 1 5 hello_event unbounded_state).1.
Proof.
  apply (unbounded_queue_never_parks_handler 1 5 hello_event unbounded_state).
  intros q Hq. injection Hq as <-. simpl. lia.
Defined.
